(** * SecureBank: field encryption at rest and the checksum validators

    A shallow embedding of [utils/encryption.ts] (encryptSSN, decryptSSN,
    maskSSN), of the card and routing-number validators of
    [components/FundingModal.tsx] and of the date-of-birth refinement of the
    signup router, together with the properties the specification states
    about them.  The last four modules go further into the code: the shape
    of the stored string and what decryptSSN and maskSSN make of it
    ([StoredFormat]), what the two checksums detect and which prefixes
    validCardType accepts ([Checksums]), the phone, password and birth-date
    rules of the signup form against those of the router ([SignupForm]), and
    the signup, login and logout mutations ([Auth]).

    Conventions.
    - A text is a [string]: a sequence of 8-bit characters, which stands for
      the JavaScript string whose UTF-8 form it is.  On ASCII text an 8-bit
      character is a code unit of the JavaScript string, and [String.length],
      [JS.slice] and the character classes are those of JavaScript; the
      statements that depend on this carry the hypothesis [JS.ascii_only].
      Text that is not ASCII is counted in bytes by the 8-bit model and in
      code units by JavaScript, and the white space of [\s] beyond ASCII is
      not in [Funding.is_space].
    - [Unicode] has the JavaScript strings as they are, sequences of 16-bit
      code units with their unpaired surrogates, and the 'utf8' encoding
      that writes them to bytes; [Strings16] has encryptSSN and decryptSSN
      on such plaintexts.
    - A [Buffer] is a [list byte].
    - Node's [crypto] module is modelled from FIPS-197 (AES-256), FIPS-180-4
      (SHA-256), NIST SP 800-38A (CBC) and RFC 5652 (PKCS#7 padding), with
      the error codes Node reports.
    - [crypto.randomBytes] reads an explicit entropy stream. *)

From Stdlib Require Import List String Ascii NArith ZArith Lia Bool Arith.
From Stdlib.Strings Require Import Byte.
From AAC_tactics Require Import AAC.
Import ListNotations.

Local Open Scope list_scope.

(* ===================================================================== *)
(** ** Bytes *)
(* ===================================================================== *)

Module Bytes.

(** Every byte, in increasing order. *)
Definition all_bytes : list byte :=
  Eval vm_compute in
    flat_map (fun n => match Byte.of_nat n with Some b => [b] | None => [] end)
             (seq 0 256).

Definition byte_of_N (n : N) : byte :=
  match Byte.of_N (n mod 256) with Some b => b | None => x00 end.

Definition bxor (a b : byte) : byte :=
  byte_of_N (N.lxor (Byte.to_N a) (Byte.to_N b)).

Definition xor4 (a b c d : byte) : byte := bxor (bxor (bxor a b) c) d.

Definition forall_byte (P : byte -> bool) : bool := forallb P all_bytes.

Definition forall_byte2 (P : byte -> byte -> bool) : bool :=
  forall_byte (fun a => forall_byte (P a)).

#[global] Arguments bxor : simpl never.
#[global] Arguments byte_of_N : simpl never.

Lemma all_bytes_complete (b : byte) : In b all_bytes.
Proof.
  assert (H : existsb (Byte.eqb b) all_bytes = true)
    by (destruct b; vm_compute; reflexivity).
  apply existsb_exists in H. destruct H as [c [Hin Heq]].
  apply Byte.byte_dec_bl in Heq. now subst.
Qed.

Lemma forall_byte_spec (P : byte -> bool) :
  forall_byte P = true -> forall b, P b = true.
Proof.
  unfold forall_byte. intros H b.
  rewrite forallb_forall in H. apply H, all_bytes_complete.
Qed.

Lemma forall_byte2_spec (P : byte -> byte -> bool) :
  forall_byte2 P = true -> forall a b, P a b = true.
Proof.
  unfold forall_byte2. intros H a b.
  apply (forall_byte_spec (P a)).
  apply (forall_byte_spec (fun a => forall_byte (P a)) H).
Qed.

Lemma to_N_inj (a b : byte) : Byte.to_N a = Byte.to_N b -> a = b.
Proof.
  intros H. pose proof (Byte.of_to_N a) as Ha. pose proof (Byte.of_to_N b) as Hb.
  rewrite H in Ha. congruence.
Qed.

Lemma to_N_bxor (a b : byte) :
  Byte.to_N (bxor a b) = N.lxor (Byte.to_N a) (Byte.to_N b).
Proof.
  apply N.eqb_eq.
  apply (forall_byte2_spec
           (fun a b => N.eqb (Byte.to_N (bxor a b))
                             (N.lxor (Byte.to_N a) (Byte.to_N b)))).
  vm_compute. reflexivity.
Qed.

Lemma bxor_assoc (a b c : byte) : bxor a (bxor b c) = bxor (bxor a b) c.
Proof. apply to_N_inj. rewrite !to_N_bxor. symmetry. apply N.lxor_assoc. Qed.

Lemma bxor_comm (a b : byte) : bxor a b = bxor b a.
Proof. apply to_N_inj. rewrite !to_N_bxor. apply N.lxor_comm. Qed.

Lemma bxor_0_l (a : byte) : bxor x00 a = a.
Proof. apply to_N_inj. rewrite to_N_bxor. reflexivity. Qed.

Lemma bxor_0_r (a : byte) : bxor a x00 = a.
Proof. rewrite bxor_comm. apply bxor_0_l. Qed.

Lemma bxor_nilpotent (a : byte) : bxor a a = x00.
Proof. apply to_N_inj. rewrite to_N_bxor. apply N.lxor_nilpotent. Qed.

Lemma bxor_cancel_r (a k : byte) : bxor (bxor a k) k = a.
Proof. rewrite <- bxor_assoc, bxor_nilpotent. apply bxor_0_r. Qed.

Lemma bxor_cancel_l (a k : byte) : bxor k (bxor k a) = a.
Proof. rewrite bxor_assoc, bxor_nilpotent. apply bxor_0_l. Qed.

#[export] Instance bxor_Associative : Associative eq bxor := bxor_assoc.
#[export] Instance bxor_Commutative : Commutative eq bxor := bxor_comm.
#[export] Instance bxor_Unit : Unit eq bxor x00 :=
  {| law_neutral_left := bxor_0_l; law_neutral_right := bxor_0_r |}.

Lemma xor4_transpose
      (a0 a1 a2 a3 b0 b1 b2 b3 c0 c1 c2 c3 d0 d1 d2 d3 : byte) :
  xor4 (xor4 a0 a1 a2 a3) (xor4 b0 b1 b2 b3)
       (xor4 c0 c1 c2 c3) (xor4 d0 d1 d2 d3) =
  xor4 (xor4 a0 b0 c0 d0) (xor4 a1 b1 c1 d1)
       (xor4 a2 b2 c2 d2) (xor4 a3 b3 c3 d3).
Proof. unfold xor4. aac_reflexivity. Qed.

Ltac byte_cases x := destruct x; vm_compute; reflexivity.

End Bytes.


(* ===================================================================== *)
(** ** The field GF(2^8) of FIPS-197, section 4 *)
(* ===================================================================== *)

Module GF256.
Import Bytes.

(** Multiplication by x modulo x^8 + x^4 + x^3 + x + 1. *)
Definition xtime (b : byte) : byte :=
  let n := (2 * Byte.to_N b)%N in
  byte_of_N (if (256 <=? n)%N then N.lxor n 283 else n).

Fixpoint gmul_aux (fuel : nat) (a : byte) (b : N) : byte :=
  match fuel with
  | O => x00
  | S fuel' =>
      bxor (if N.odd b then a else x00) (gmul_aux fuel' (xtime a) (N.div2 b))
  end.

(** [gmul c a] is the product of [a] and [c] in the field. *)
Definition gmul (c a : byte) : byte := gmul_aux 8 a (Byte.to_N c).

Definition gsquare (a : byte) : byte := gmul a a.

(** The multiplicative inverse, as the 254th power; 0 is sent to 0. *)
Definition ginv (a : byte) : byte :=
  let a2 := gsquare a in
  let a4 := gsquare a2 in
  let a8 := gsquare a4 in
  let a16 := gsquare a8 in
  let a32 := gsquare a16 in
  let a64 := gsquare a32 in
  let a128 := gsquare a64 in
  gmul a128 (gmul a64 (gmul a32 (gmul a16 (gmul a8 (gmul a4 a2))))).

Definition rotl8 (b : byte) (k : N) : byte :=
  let n := Byte.to_N b in
  byte_of_N (N.lor (N.shiftl n k) (N.shiftr n (8 - k))).

Lemma xtime_bxor (a b : byte) : xtime (bxor a b) = bxor (xtime a) (xtime b).
Proof.
  apply Byte.byte_dec_bl.
  apply (forall_byte2_spec
           (fun a b => Byte.eqb (xtime (bxor a b)) (bxor (xtime a) (xtime b)))).
  vm_compute. reflexivity.
Qed.

Lemma gmul_aux_bxor (fuel : nat) :
  forall (a b : byte) (n : N),
    gmul_aux fuel (bxor a b) n = bxor (gmul_aux fuel a n) (gmul_aux fuel b n).
Proof.
  induction fuel as [|fuel IH]; intros a b n; simpl.
  - now rewrite bxor_0_l.
  - rewrite xtime_bxor, IH. destruct (N.odd n); aac_reflexivity.
Qed.

(** Multiplication by a constant is linear over xor. *)
Lemma gmul_bxor (c a b : byte) :
  gmul c (bxor a b) = bxor (gmul c a) (gmul c b).
Proof. apply gmul_aux_bxor. Qed.

Lemma gmul_xor4 (k a b c d : byte) :
  gmul k (xor4 a b c d) = xor4 (gmul k a) (gmul k b) (gmul k c) (gmul k d).
Proof. unfold xor4. now rewrite !gmul_bxor. Qed.

Lemma gmul_1 (a : byte) : gmul x01 a = a.
Proof. destruct a; vm_compute; reflexivity. Qed.

Lemma ginv_spec (a : byte) : a <> x00 -> gmul a (ginv a) = x01.
Proof. destruct a; intros H; try (vm_compute; reflexivity). now elim H. Qed.

End GF256.


(* ===================================================================== *)
(** ** AES-256 (FIPS-197): the block cipher behind 'aes-256-cbc' *)
(* ===================================================================== *)

Module AES256.
Import Bytes GF256.

(** A column of the state, rows 0 to 3. *)
Definition word : Type := (byte * byte * byte * byte)%type.

(** The 4x4 state, columns 0 to 3: sixteen bytes in input order. *)
Definition state : Type := (word * word * word * word)%type.

(** An AES-256 key: eight words, the first two round keys. *)
Definition key : Type := (state * state)%type.

Definition map_word (f : byte -> byte) (w : word) : word :=
  let '(a, b, c, d) := w in (f a, f b, f c, f d).

Definition map_state (f : word -> word) (s : state) : state :=
  let '(a, b, c, d) := s in (f a, f b, f c, f d).

Definition xor_word (v w : word) : word :=
  let '(a, b, c, d) := v in
  let '(a', b', c', d') := w in
  (bxor a a', bxor b b', bxor c c', bxor d d').

Definition xor_state (s t : state) : state :=
  let '(a, b, c, d) := s in
  let '(a', b', c', d') := t in
  (xor_word a a', xor_word b b', xor_word c c', xor_word d d').

Definition flatten_word (w : word) : list byte :=
  let '(a, b, c, d) := w in [a; b; c; d].

Definition flatten_state (s : state) : list byte :=
  let '(a, b, c, d) := s in
  flatten_word a ++ flatten_word b ++ flatten_word c ++ flatten_word d.

(** *** SubBytes *)

Definition affine (b : byte) : byte :=
  bxor (bxor (bxor (bxor (bxor b (rotl8 b 1)) (rotl8 b 2)) (rotl8 b 3))
             (rotl8 b 4)) x63.

Definition sbox_table : list byte :=
  Eval vm_compute in map (fun b => affine (ginv b)) all_bytes.

Definition sbox (b : byte) : byte := nth (Byte.to_nat b) sbox_table x00.

Definition inv_sbox_table : list byte :=
  Eval vm_compute in
    map (fun y => match find (fun x => Byte.eqb (sbox x) y) all_bytes with
                  | Some x => x
                  | None => x00
                  end) all_bytes.

Definition inv_sbox (b : byte) : byte := nth (Byte.to_nat b) inv_sbox_table x00.

Definition sub_bytes : state -> state := map_state (map_word sbox).
Definition inv_sub_bytes : state -> state := map_state (map_word inv_sbox).

(** *** ShiftRows: row r is rotated left by r columns *)

Definition shift_rows (s : state) : state :=
  let '((a0, a1, a2, a3), (b0, b1, b2, b3),
        (c0, c1, c2, c3), (d0, d1, d2, d3)) := s in
  ((a0, b1, c2, d3), (b0, c1, d2, a3), (c0, d1, a2, b3), (d0, a1, b2, c3)).

Definition inv_shift_rows (s : state) : state :=
  let '((a0, a1, a2, a3), (b0, b1, b2, b3),
        (c0, c1, c2, c3), (d0, d1, d2, d3)) := s in
  ((a0, d1, c2, b3), (b0, a1, d2, c3), (c0, b1, a2, d3), (d0, c1, b2, a3)).

(** *** MixColumns *)

Definition mix_column (w : word) : word :=
  let '(a, b, c, d) := w in
  (xor4 (gmul x02 a) (gmul x03 b) c d,
   xor4 a (gmul x02 b) (gmul x03 c) d,
   xor4 a b (gmul x02 c) (gmul x03 d),
   xor4 (gmul x03 a) b c (gmul x02 d)).

Definition inv_mix_column (w : word) : word :=
  let '(a, b, c, d) := w in
  (xor4 (gmul x0e a) (gmul x0b b) (gmul x0d c) (gmul x09 d),
   xor4 (gmul x09 a) (gmul x0e b) (gmul x0b c) (gmul x0d d),
   xor4 (gmul x0d a) (gmul x09 b) (gmul x0e c) (gmul x0b d),
   xor4 (gmul x0b a) (gmul x0d b) (gmul x09 c) (gmul x0e d)).

Definition mix_columns : state -> state := map_state mix_column.
Definition inv_mix_columns : state -> state := map_state inv_mix_column.

(** *** AddRoundKey *)

Definition add_round_key (k s : state) : state := xor_state s k.

(** *** Key expansion for Nk = 8 *)

Definition rot_word (w : word) : word :=
  let '(a, b, c, d) := w in (b, c, d, a).

Definition sub_word : word -> word := map_word sbox.

(** Eight consecutive words of the schedule from the eight before them. *)
Definition next_key (rcon : byte) (k : key) : key :=
  let '((w0, w1, w2, w3), (w4, w5, w6, w7)) := k in
  let v0 := xor_word w0 (xor_word (sub_word (rot_word w7)) (rcon, x00, x00, x00)) in
  let v1 := xor_word w1 v0 in
  let v2 := xor_word w2 v1 in
  let v3 := xor_word w3 v2 in
  let v4 := xor_word w4 (sub_word v3) in
  let v5 := xor_word w5 v4 in
  let v6 := xor_word w6 v5 in
  let v7 := xor_word w7 v6 in
  ((v0, v1, v2, v3), (v4, v5, v6, v7)).

Fixpoint expand (rcons : list byte) (k : key) : list state :=
  match rcons with
  | [] => [fst k]
  | rc :: rcons' => fst k :: snd k :: expand rcons' (next_key rc k)
  end.

(** The fifteen round keys of AES-256. *)
Definition key_expansion (k : key) : list state :=
  expand [x01; x02; x04; x08; x10; x20; x40] k.

(** *** Cipher and inverse cipher *)

Definition round (k s : state) : state :=
  add_round_key k (mix_columns (shift_rows (sub_bytes s))).

Definition final_round (k s : state) : state :=
  add_round_key k (shift_rows (sub_bytes s)).

Definition inv_round (k s : state) : state :=
  inv_sub_bytes (inv_shift_rows (inv_mix_columns (add_round_key k s))).

Definition inv_final_round (k s : state) : state :=
  inv_sub_bytes (inv_shift_rows (add_round_key k s)).

Fixpoint rounds (ks : list state) (s : state) : state :=
  match ks with
  | [] => s
  | k :: ks' =>
      match ks' with
      | [] => final_round k s
      | _ :: _ => rounds ks' (round k s)
      end
  end.

Fixpoint inv_rounds (ks : list state) (s : state) : state :=
  match ks with
  | [] => s
  | k :: ks' =>
      match ks' with
      | [] => inv_final_round k s
      | _ :: _ => inv_round k (inv_rounds ks' s)
      end
  end.

Definition cipher (ks : list state) (s : state) : state :=
  match ks with
  | [] => s
  | k0 :: ks' => rounds ks' (add_round_key k0 s)
  end.

Definition inv_cipher (ks : list state) (s : state) : state :=
  match ks with
  | [] => s
  | k0 :: ks' => add_round_key k0 (inv_rounds ks' s)
  end.

Definition encrypt_block (k : key) : state -> state := cipher (key_expansion k).
Definition decrypt_block (k : key) : state -> state := inv_cipher (key_expansion k).

(** Cuts a buffer into 16-byte blocks; what is left over has fewer than
    sixteen bytes. *)
Fixpoint to_blocks (l : list byte) : list state * list byte :=
  match l with
  | a0 :: a1 :: a2 :: a3 :: b0 :: b1 :: b2 :: b3 ::
    c0 :: c1 :: c2 :: c3 :: d0 :: d1 :: d2 :: d3 :: rest =>
      let '(bs, r) := to_blocks rest in
      (((a0, a1, a2, a3), (b0, b1, b2, b3),
        (c0, c1, c2, c3), (d0, d1, d2, d3)) :: bs, r)
  | _ => ([], l)
  end.

Definition flatten_blocks (bs : list state) : list byte :=
  flat_map flatten_state bs.

Definition key_of_bytes (l : list byte) : option key :=
  match to_blocks l with
  | ([a; b], []) => Some (a, b)
  | _ => None
  end.

Definition state_of_bytes (l : list byte) : option state :=
  match to_blocks l with
  | ([a], []) => Some a
  | _ => None
  end.


(** Evaluation of the cipher is left to [vm_compute]. *)
#[global] Arguments encrypt_block : simpl never.
#[global] Arguments decrypt_block : simpl never.
#[global] Arguments xor_state : simpl never.
#[global] Arguments flatten_state : simpl never.
#[global] Arguments sbox : simpl never.
#[global] Arguments inv_sbox : simpl never.

(** *** The inverse cipher undoes the cipher *)

Lemma inv_sbox_sbox (b : byte) : inv_sbox (sbox b) = b.
Proof. destruct b; vm_compute; reflexivity. Qed.

Lemma inv_sub_bytes_sub_bytes (s : state) : inv_sub_bytes (sub_bytes s) = s.
Proof.
  destruct s as [[[[[[a0 a1] a2] a3] [[[b0 b1] b2] b3]] [[[c0 c1] c2] c3]]
                   [[[d0 d1] d2] d3]].
  unfold inv_sub_bytes, sub_bytes, map_state, map_word.
  now rewrite !inv_sbox_sbox.
Qed.

Lemma inv_shift_rows_shift_rows (s : state) : inv_shift_rows (shift_rows s) = s.
Proof.
  destruct s as [[[[[[a0 a1] a2] a3] [[[b0 b1] b2] b3]] [[[c0 c1] c2] c3]]
                   [[[d0 d1] d2] d3]].
  reflexivity.
Qed.

Lemma xor_word_cancel (w k : word) : xor_word (xor_word w k) k = w.
Proof.
  destruct w as [[[a b] c] d], k as [[[a' b'] c'] d'].
  unfold xor_word. now rewrite !bxor_cancel_r.
Qed.

Lemma xor_word_cancel_l (w k : word) : xor_word k (xor_word k w) = w.
Proof.
  destruct w as [[[a b] c] d], k as [[[a' b'] c'] d'].
  unfold xor_word. now rewrite !bxor_cancel_l.
Qed.

Lemma xor_state_cancel (s k : state) : xor_state (xor_state s k) k = s.
Proof.
  destruct s as [[[a b] c] d], k as [[[a' b'] c'] d'].
  unfold xor_state. now rewrite !xor_word_cancel.
Qed.

Lemma xor_state_cancel_l (s k : state) : xor_state k (xor_state k s) = s.
Proof.
  destruct s as [[[a b] c] d], k as [[[a' b'] c'] d'].
  unfold xor_state. now rewrite !xor_word_cancel_l.
Qed.

Lemma add_round_key_involutive (k s : state) :
  add_round_key k (add_round_key k s) = s.
Proof. apply xor_state_cancel. Qed.

(** After distributing and transposing the sixteen products, each column of
    the sum depends on one input byte only: one column is the identity, the
    three others vanish (the product of the two circulant matrices is 1). *)
Ltac columns a b c d ea eb ec ed :=
  match goal with
  | |- xor4 ?A ?B ?C ?D = _ =>
      replace A with ea by (clear; byte_cases a);
      replace B with eb by (clear; byte_cases b);
      replace C with ec by (clear; byte_cases c);
      replace D with ed by (clear; byte_cases d);
      unfold xor4; rewrite ?bxor_0_l, ?bxor_0_r
  end.

Lemma inv_mix_column_mix_column (w : word) : inv_mix_column (mix_column w) = w.
Proof.
  destruct w as [[[a b] c] d]. unfold inv_mix_column, mix_column.
  f_equal; [f_equal; [f_equal|]|]; rewrite !gmul_xor4, xor4_transpose.
  - columns a b c d a x00 x00 x00. exact eq_refl.
  - columns a b c d x00 b x00 x00. exact eq_refl.
  - columns a b c d x00 x00 c x00. exact eq_refl.
  - columns a b c d x00 x00 x00 d. exact eq_refl.
Qed.

Lemma inv_mix_columns_mix_columns (s : state) :
  inv_mix_columns (mix_columns s) = s.
Proof.
  destruct s as [[[a b] c] d]. unfold inv_mix_columns, mix_columns, map_state.
  now rewrite !inv_mix_column_mix_column.
Qed.

Lemma inv_round_round (k s : state) : inv_round k (round k s) = s.
Proof.
  unfold inv_round, round.
  now rewrite add_round_key_involutive, inv_mix_columns_mix_columns,
    inv_shift_rows_shift_rows, inv_sub_bytes_sub_bytes.
Qed.

Lemma inv_final_round_final_round (k s : state) :
  inv_final_round k (final_round k s) = s.
Proof.
  unfold inv_final_round, final_round.
  now rewrite add_round_key_involutive, inv_shift_rows_shift_rows,
    inv_sub_bytes_sub_bytes.
Qed.

Lemma inv_rounds_rounds (ks : list state) :
  forall s, inv_rounds ks (rounds ks s) = s.
Proof.
  induction ks as [|k ks IH]; intros s; [reflexivity|].
  destruct ks as [|k' ks].
  - apply inv_final_round_final_round.
  - change (inv_round k (inv_rounds (k' :: ks) (rounds (k' :: ks) (round k s))) = s).
    now rewrite IH, inv_round_round.
Qed.

Lemma inv_cipher_cipher (ks : list state) (s : state) :
  inv_cipher ks (cipher ks s) = s.
Proof.
  destruct ks as [|k0 ks]; [reflexivity|]. unfold inv_cipher, cipher.
  now rewrite inv_rounds_rounds, add_round_key_involutive.
Qed.

(** AES-256 decryption is a left inverse of encryption, for every key. *)
Lemma decrypt_encrypt_block (k : key) (s : state) :
  decrypt_block k (encrypt_block k s) = s.
Proof. apply inv_cipher_cipher. Qed.

(** The known-answer test of FIPS-197, appendix C.3. *)
Lemma fips197_c3 :
  flatten_state
    (encrypt_block
       (((x00, x01, x02, x03), (x04, x05, x06, x07),
         (x08, x09, x0a, x0b), (x0c, x0d, x0e, x0f)),
        ((x10, x11, x12, x13), (x14, x15, x16, x17),
         (x18, x19, x1a, x1b), (x1c, x1d, x1e, x1f)))
       ((x00, x11, x22, x33), (x44, x55, x66, x77),
        (x88, x99, xaa, xbb), (xcc, xdd, xee, xff)))
  = [x8e; xa2; xb7; xca; x51; x67; x45; xbf;
     xea; xfc; x49; x90; x4b; x49; x60; x89].
Proof. vm_compute. reflexivity. Qed.

(** *** Cutting buffers into blocks *)

Lemma flatten_state_length (s : state) : List.length (flatten_state s) = 16.
Proof.
  destruct s as [[[[[[a0 a1] a2] a3] [[[b0 b1] b2] b3]] [[[c0 c1] c2] c3]]
                   [[[d0 d1] d2] d3]].
  reflexivity.
Qed.

Lemma to_blocks_flatten (s : state) (l : list byte) :
  to_blocks (flatten_state s ++ l) = (s :: fst (to_blocks l), snd (to_blocks l)).
Proof.
  destruct s as [[[[[[a0 a1] a2] a3] [[[b0 b1] b2] b3]] [[[c0 c1] c2] c3]]
                   [[[d0 d1] d2] d3]].
  simpl. now destruct (to_blocks l).
Qed.

Lemma to_blocks_flatten_blocks (bs : list state) (l : list byte) :
  to_blocks (flatten_blocks bs ++ l)
  = (bs ++ fst (to_blocks l), snd (to_blocks l)).
Proof.
  induction bs as [|b bs IH].
  - simpl. now destruct (to_blocks l).
  - unfold flatten_blocks in *. simpl flat_map.
    rewrite <- app_assoc, to_blocks_flatten, IH. reflexivity.
Qed.

Lemma to_blocks_short (l : list byte) :
  List.length l < 16 -> to_blocks l = ([], l).
Proof.
  do 16 (destruct l as [|? l]; [reflexivity|]). simpl. lia.
Qed.

Lemma to_blocks_spec (l : list byte) :
  l = flatten_blocks (fst (to_blocks l)) ++ snd (to_blocks l)
  /\ List.length (snd (to_blocks l)) < 16.
Proof.
  remember (List.length l) as n eqn:Hn. revert l Hn.
  induction n as [n IH] using lt_wf_ind. intros l Hn.
  do 16 (destruct l as [|? l]; [simpl; split; [reflexivity|lia]|]).
  simpl in Hn. destruct (IH (List.length l) ltac:(lia) l eq_refl) as [Hl Hr].
  simpl. destruct (to_blocks l) as [bs r]. simpl in *.
  split; [now rewrite Hl at 1|exact Hr].
Qed.

Lemma to_blocks_16 (l : list byte) :
  List.length l = 16 -> exists s, to_blocks l = ([s], []) /\ flatten_state s = l.
Proof.
  do 16 (destruct l as [|? l]; [discriminate|]).
  destruct l; [|discriminate]. intros _. eexists. split; reflexivity.
Qed.

Lemma state_of_bytes_16 (l : list byte) :
  List.length l = 16 -> exists s, state_of_bytes l = Some s /\ flatten_state s = l.
Proof.
  intros H. destruct (to_blocks_16 l H) as [s [Hs Hf]].
  exists s. unfold state_of_bytes. now rewrite Hs.
Qed.

Lemma state_of_bytes_Some (l : list byte) (s : state) :
  state_of_bytes l = Some s -> l = flatten_state s.
Proof.
  unfold state_of_bytes. intros H. destruct (to_blocks_spec l) as [Hl _].
  destruct (to_blocks l) as [[|a [|b bs]] [|r rs]]; try discriminate.
  injection H as <-. simpl in Hl. now rewrite !app_nil_r in Hl.
Qed.

Lemma key_of_bytes_32 (l : list byte) :
  List.length l = 32 -> exists k, key_of_bytes l = Some k.
Proof.
  do 32 (destruct l as [|? l]; [discriminate|]).
  destruct l; [|discriminate]. intros _. eexists. reflexivity.
Qed.

End AES256.


(* ===================================================================== *)
(** ** SHA-256 (FIPS-180-4): crypto.createHash('sha256') *)
(* ===================================================================== *)

Module SHA256.
Import Bytes.
Local Open Scope N_scope.

Definition w32 (n : N) : N := n mod 4294967296.
Definition add32 (a b : N) : N := w32 (a + b).
Definition not32 (a : N) : N := N.lxor a 0xffffffff.
Definition rotr32 (x n : N) : N :=
  N.lor (N.shiftr x n) (w32 (N.shiftl x (32 - n))).

Definition Ch (x y z : N) : N := N.lxor (N.land x y) (N.land (not32 x) z).
Definition Maj (x y z : N) : N :=
  N.lxor (N.lxor (N.land x y) (N.land x z)) (N.land y z).
Definition Sigma0 (x : N) : N :=
  N.lxor (N.lxor (rotr32 x 2) (rotr32 x 13)) (rotr32 x 22).
Definition Sigma1 (x : N) : N :=
  N.lxor (N.lxor (rotr32 x 6) (rotr32 x 11)) (rotr32 x 25).
Definition sigma0 (x : N) : N :=
  N.lxor (N.lxor (rotr32 x 7) (rotr32 x 18)) (N.shiftr x 3).
Definition sigma1 (x : N) : N :=
  N.lxor (N.lxor (rotr32 x 17) (rotr32 x 19)) (N.shiftr x 10).

(** The first primes, by trial division. *)
Definition is_prime (n : N) : bool :=
  (2 <=? n)
  && forallb (fun d => negb (n mod d =? 0))
             (map N.of_nat (seq 2 (N.to_nat (N.sqrt n) - 1))).

Definition primes_below (bound : nat) : list N :=
  filter is_prime (map N.of_nat (seq 0 bound)).

(** The integer cube root, one bit at a time. *)
Fixpoint cbrt_bits (bits : nat) (n root : N) : N :=
  match bits with
  | O => root
  | S bits' =>
      let candidate := root + 2 ^ N.of_nat bits' in
      cbrt_bits bits' n (if candidate * candidate * candidate <=? n
                         then candidate else root)
  end.

Definition cbrt (n : N) : N := cbrt_bits 40 n 0.

(** The round constants: the first 32 bits of the fractional parts of the
    cube roots of the first 64 primes. *)
Definition K : list N :=
  Eval vm_compute in
    map (fun p => w32 (cbrt (p * 2 ^ 96))) (primes_below 312).

(** The eight working variables, and the hash value between blocks. *)
Definition hash : Type := (N * N * N * N * N * N * N * N)%type.

(** The initial hash value: the first 32 bits of the fractional parts of the
    square roots of the first 8 primes. *)
Definition sqrt_frac (p : N) : N := w32 (N.sqrt (p * 2 ^ 64)).

Definition H0 : hash :=
  Eval vm_compute in
    (sqrt_frac 2, sqrt_frac 3, sqrt_frac 5, sqrt_frac 7,
     sqrt_frac 11, sqrt_frac 13, sqrt_frac 17, sqrt_frac 19).

(** Big-endian bytes of a 32-bit word, and back. *)
Definition bytes_of_word (w : N) : list byte :=
  [byte_of_N (N.shiftr w 24); byte_of_N (N.shiftr w 16);
   byte_of_N (N.shiftr w 8); byte_of_N w].

Fixpoint words_of_bytes (l : list byte) : list N :=
  match l with
  | a :: b :: c :: d :: rest =>
      (Byte.to_N a * 16777216 + Byte.to_N b * 65536
       + Byte.to_N c * 256 + Byte.to_N d)
      :: words_of_bytes rest
  | _ => []
  end.

(** Padding: a 1 bit, zeros, and the bit length on 64 bits, up to a multiple
    of 64 bytes. *)
Definition pad (msg : list byte) : list byte :=
  let len := N.of_nat (List.length msg) in
  let zeros := N.to_nat ((119 - len mod 64) mod 64) in
  let bits := len * 8 in
  msg ++ [x80] ++ repeat x00 zeros
      ++ bytes_of_word (N.shiftr bits 32) ++ bytes_of_word (w32 bits).

(** The message schedule, newest word first: [extend n w] adds [n] words. *)
Fixpoint extend (n : nat) (w : list N) : list N :=
  match n with
  | O => w
  | S n' =>
      let wt := add32 (add32 (sigma1 (nth 1 w 0)) (nth 6 w 0))
                      (add32 (sigma0 (nth 14 w 0)) (nth 15 w 0)) in
      extend n' (wt :: w)
  end.

Definition schedule (block : list N) : list N :=
  rev (extend 48 (rev block)).

Definition step (s : hash) (kw : N * N) : hash :=
  let '(a, b, c, d, e, f, g, h) := s in
  let '(k, w) := kw in
  let t1 := add32 (add32 (add32 h (Sigma1 e)) (add32 (Ch e f g) k)) w in
  let t2 := add32 (Sigma0 a) (Maj a b c) in
  (add32 t1 t2, a, b, c, add32 d t1, e, f, g).

Definition compress (s : hash) (block : list N) : hash :=
  let '(a, b, c, d, e, f, g, h) := s in
  let '(a', b', c', d', e', f', g', h') :=
    fold_left step (combine K (schedule block)) s in
  (add32 a a', add32 b b', add32 c c', add32 d d',
   add32 e e', add32 f f', add32 g g', add32 h h').

(** Processes the padded message sixteen words at a time. *)
Fixpoint blocks (fuel : nat) (s : hash) (ws : list N) : hash :=
  match fuel, ws with
  | S fuel', _ :: _ => blocks fuel' (compress s (firstn 16 ws)) (skipn 16 ws)
  | _, _ => s
  end.

Definition digest_words (s : hash) : list N :=
  let '(a, b, c, d, e, f, g, h) := s in [a; b; c; d; e; f; g; h].

(** [sha256 msg] is the 32-byte digest of [msg]. *)
Definition sha256 (msg : list byte) : list byte :=
  let ws := words_of_bytes (pad msg) in
  flat_map bytes_of_word (digest_words (blocks (List.length ws) H0 ws)).

#[global] Arguments sha256 : simpl never.

Lemma sha256_length (msg : list byte) : List.length (sha256 msg) = 32%nat.
Proof.
  unfold sha256.
  destruct (blocks _ H0 _) as [[[[[[[a b] c] d] e] f] g] h].
  reflexivity.
Qed.

(** The one-block test vector of FIPS-180-4: the digest of "abc". *)
Lemma sha256_abc :
  sha256 [x61; x62; x63]
  = [xba; x78; x16; xbf; x8f; x01; xcf; xea; x41; x41; x40; xde; x5d; xae;
     x22; x23; xb0; x03; x61; xa3; x96; x17; x7a; x9c; xb4; x10; xff; x61;
     xf2; x00; x15; xad].
Proof. vm_compute. reflexivity. Qed.

End SHA256.


(* ===================================================================== *)
(** ** JavaScript strings, exceptions and hexadecimal buffers *)
(* ===================================================================== *)

Module JS.
Import Bytes.

(** The errors Node raises in the code under study. *)
Inductive error : Type :=
| ERR_INVALID_ARG_TYPE              (* data is not a string or a buffer *)
| ERR_INVALID_ARG_VALUE             (* hex string of odd length *)
| ERR_CRYPTO_UNKNOWN_CIPHER
| ERR_CRYPTO_INVALID_KEYLEN
| ERR_CRYPTO_INVALID_IV
| ERR_OSSL_WRONG_FINAL_BLOCK_LENGTH
| ERR_OSSL_BAD_DECRYPT.

(** A computation that returns or throws. *)
Inductive result (A : Type) : Type :=
| Ok (a : A)
| Throw (e : error).
Arguments Ok {A} a.
Arguments Throw {A} e.

Definition bind {A B : Type} (r : result A) (k : A -> result B) : result B :=
  match r with
  | Ok a => k a
  | Throw e => Throw e
  end.

Definition is_ok {A : Type} (r : result A) : bool :=
  match r with Ok _ => true | Throw _ => false end.

(** [s.includes(c)] for a one-character needle. *)
Fixpoint includes (c : ascii) (s : string) : bool :=
  match s with
  | EmptyString => false
  | String d s' => Ascii.eqb d c || includes c s'
  end.

(** [s.split(c)] for a one-character separator: never empty. *)
Fixpoint split (c : ascii) (s : string) : list string :=
  match s with
  | EmptyString => [EmptyString]
  | String d s' =>
      if Ascii.eqb d c then EmptyString :: split c s'
      else match split c s' with
           | p :: ps => String d p :: ps
           | [] => [String d EmptyString]
           end
  end.

Fixpoint drop (n : nat) (s : string) : string :=
  match n, s with
  | S n', String _ s' => drop n' s'
  | _, _ => s
  end.

(** [s.slice(start)]: a negative [start] counts from the end.  It counts
    8-bit characters, which are the code units when the text is ASCII. *)
Definition slice (start : Z) (s : string) : string :=
  let len := Z.of_nat (String.length s) in
  let from := if (start <? 0)%Z then Z.max (len + start) 0 else Z.min start len in
  drop (Z.to_nat from) s.

(** The 'utf8' encoding and decoding of a text, which is given by its UTF-8
    form: the bytes are the 8-bit characters.  This is what Node does for a
    string without unpaired surrogates and for bytes that are UTF-8; what it
    does for the others (U+FFFD) is in [Unicode]. *)
Definition utf8_encode (s : string) : list byte := list_byte_of_string s.
Definition utf8_decode (l : list byte) : string := string_of_list_byte l.

(** ASCII text: every character is below 128. *)
Definition is_ascii (c : ascii) : bool := (N_of_ascii c <? 128)%N.

Fixpoint ascii_only (s : string) : bool :=
  match s with
  | EmptyString => true
  | String c s' => is_ascii c && ascii_only s'
  end.

Definition hex_digit (n : N) : ascii :=
  ascii_of_N (if (n <? 10)%N then 48 + n else 87 + n).

Definition hex_value (c : ascii) : option N :=
  let n := N_of_ascii c in
  if ((48 <=? n) && (n <=? 57))%N then Some (n - 48)%N
  else if ((97 <=? n) && (n <=? 102))%N then Some (n - 87)%N
  else if ((65 <=? n) && (n <=? 70))%N then Some (n - 55)%N
  else None.

(** [buf.toString('hex')]: two lower-case digits per byte. *)
Fixpoint to_hex (l : list byte) : string :=
  match l with
  | [] => EmptyString
  | b :: l' =>
      String (hex_digit (Byte.to_N b / 16))
             (String (hex_digit (Byte.to_N b mod 16)) (to_hex l'))
  end.

(** [Buffer.from(s, 'hex')]: decoding stops at the first pair that is not
    two hexadecimal digits; a trailing single digit is dropped. *)
Fixpoint from_hex (s : string) : list byte :=
  match s with
  | String c (String d s') =>
      match hex_value c, hex_value d with
      | Some h, Some l => byte_of_N (16 * h + l) :: from_hex s'
      | _, _ => []
      end
  | _ => []
  end.

(** A source of random bytes: a stream and how much of it was consumed. *)
Record rng : Type := { entropy : nat -> byte; cursor : nat }.

(** [crypto.randomBytes(n)]. *)
Definition randomBytes (n : nat) (g : rng) : list byte * rng :=
  (map (entropy g) (seq (cursor g) n),
   {| entropy := entropy g; cursor := cursor g + n |}).

Lemma from_hex_cons (c d : ascii) (s : string) :
  from_hex (String c (String d s))
  = match hex_value c, hex_value d with
    | Some h, Some l => byte_of_N (16 * h + l) :: from_hex s
    | _, _ => []
    end.
Proof. reflexivity. Qed.

Lemma hex_digits_of_byte (b : byte) :
  hex_value (hex_digit (Byte.to_N b / 16)) = Some (Byte.to_N b / 16)%N
  /\ hex_value (hex_digit (Byte.to_N b mod 16)) = Some (Byte.to_N b mod 16)%N
  /\ byte_of_N (16 * (Byte.to_N b / 16) + Byte.to_N b mod 16) = b.
Proof. destruct b; vm_compute; repeat split; reflexivity. Qed.

Lemma hex_pair (b : byte) (s : string) :
  from_hex (String (hex_digit (Byte.to_N b / 16))
                   (String (hex_digit (Byte.to_N b mod 16)) s))
  = b :: from_hex s.
Proof.
  rewrite from_hex_cons.
  destruct (hex_digits_of_byte b) as [-> [-> ->]]. reflexivity.
Qed.

Lemma from_hex_to_hex (l : list byte) : from_hex (to_hex l) = l.
Proof.
  induction l as [|b l IH]; [reflexivity|].
  simpl to_hex. rewrite hex_pair. now rewrite IH.
Qed.

Lemma to_hex_app (l l' : list byte) :
  to_hex (l ++ l') = (to_hex l ++ to_hex l')%string.
Proof. induction l as [|b l IH]; simpl; [reflexivity|now rewrite IH]. Qed.

Lemma to_hex_length (l : list byte) :
  String.length (to_hex l) = 2 * List.length l.
Proof. induction l as [|b l IH]; simpl; [reflexivity|rewrite IH; lia]. Qed.

Lemma to_hex_even (l : list byte) : Nat.odd (String.length (to_hex l)) = false.
Proof.
  rewrite to_hex_length, <- Nat.negb_even, Nat.even_mul. reflexivity.
Qed.

Lemma hex_digit_not_colon (b : byte) :
  Ascii.eqb (hex_digit (Byte.to_N b / 16)) ":" = false
  /\ Ascii.eqb (hex_digit (Byte.to_N b mod 16)) ":" = false.
Proof. destruct b; vm_compute; split; reflexivity. Qed.

Lemma to_hex_no_colon (l : list byte) : includes ":" (to_hex l) = false.
Proof.
  induction l as [|b l IH]; [reflexivity|]. simpl.
  destruct (hex_digit_not_colon b) as [-> ->]. exact IH.
Qed.

Lemma split_no_sep (c : ascii) (s : string) :
  includes c s = false -> split c s = [s].
Proof.
  induction s as [|d s IH]; [reflexivity|]. simpl.
  destruct (Ascii.eqb d c); [discriminate|]. simpl. intros H.
  now rewrite (IH H).
Qed.

Lemma split_at_sep (c : ascii) (p q : string) :
  includes c p = false ->
  split c (p ++ String c q)%string = p :: split c q.
Proof.
  induction p as [|d p IH]; simpl.
  - intros _. now rewrite Ascii.eqb_refl.
  - destruct (Ascii.eqb d c); [discriminate|]. simpl. intros H.
    now rewrite (IH H).
Qed.

Lemma includes_app (c : ascii) (p q : string) :
  includes c (p ++ q)%string = includes c p || includes c q.
Proof.
  induction p as [|d p IH]; simpl; [reflexivity|].
  now rewrite IH, orb_assoc.
Qed.

Lemma utf8_decode_encode (s : string) : utf8_decode (utf8_encode s) = s.
Proof. apply string_of_list_byte_of_string. Qed.

Lemma utf8_decode_app (l l' : list byte) :
  utf8_decode (l ++ l') = (utf8_decode l ++ utf8_decode l')%string.
Proof.
  unfold utf8_decode, string_of_list_byte. rewrite map_app.
  induction (map ascii_of_byte l) as [|c cs IH]; simpl; [reflexivity|].
  now rewrite IH.
Qed.

Lemma randomBytes_length (n : nat) (g : rng) :
  List.length (fst (randomBytes n g)) = n.
Proof. unfold randomBytes. simpl. now rewrite length_map, length_seq. Qed.

Lemma drop_length (n : nat) (s : string) :
  String.length (drop n s) = String.length s - n.
Proof.
  revert s. induction n as [|n IH]; intros s; simpl.
  - lia.
  - destruct s as [|c s]; simpl; [reflexivity|apply IH].
Qed.

End JS.

Notation "x <- r ;; k" := (JS.bind r (fun x => k))
  (at level 61, r at next level, right associativity).
Notation "' p <- r ;; k" := (JS.bind r (fun p => k))
  (at level 61, p pattern, r at next level, right associativity).


(* ===================================================================== *)
(** ** Node's crypto module: createHash, createCipheriv, createDecipheriv *)
(* ===================================================================== *)

Module Crypto.
Import Bytes AES256 JS.

(** The running state of a cipher: the chaining block (the IV, then the last
    ciphertext block) and the bytes waiting for a full block. *)
Record Cipher : Type :=
  { c_key : key; c_chain : state; c_buf : list byte }.

(** A decipher also holds back the last decrypted block, which may carry the
    padding. *)
Record Decipher : Type :=
  { d_key : key; d_chain : state; d_buf : list byte; d_held : option state }.

Definition parse_key_iv (algorithm : string) (k iv : list byte)
  : result (key * state) :=
  if negb (String.eqb algorithm "aes-256-cbc") then Throw ERR_CRYPTO_UNKNOWN_CIPHER
  else match key_of_bytes k with
       | None => Throw ERR_CRYPTO_INVALID_KEYLEN
       | Some k' =>
           match state_of_bytes iv with
           | None => Throw ERR_CRYPTO_INVALID_IV
           | Some v => Ok (k', v)
           end
       end.

Definition createCipheriv (algorithm : string) (k iv : list byte)
  : result Cipher :=
  '(k', v) <- parse_key_iv algorithm k iv ;;
  Ok {| c_key := k'; c_chain := v; c_buf := [] |}.

Definition createDecipheriv (algorithm : string) (k iv : list byte)
  : result Decipher :=
  '(k', v) <- parse_key_iv algorithm k iv ;;
  Ok {| d_key := k'; d_chain := v; d_buf := []; d_held := None |}.

(** CBC: each block is xored with the previous ciphertext block. *)
Fixpoint cbc_encrypt (k : key) (chain : state) (bs : list state)
  : list state * state :=
  match bs with
  | [] => ([], chain)
  | b :: bs' =>
      let c := encrypt_block k (xor_state b chain) in
      let '(cs, chain') := cbc_encrypt k c bs' in
      (c :: cs, chain')
  end.

Fixpoint cbc_decrypt (k : key) (chain : state) (cs : list state)
  : list state * state :=
  match cs with
  | [] => ([], chain)
  | c :: cs' =>
      let '(bs, chain') := cbc_decrypt k c cs' in
      (xor_state (decrypt_block k c) chain :: bs, chain')
  end.

Definition byte_of_nat (n : nat) : byte :=
  match Byte.of_nat n with Some b => b | None => x00 end.

(** PKCS#7: n bytes of value n, with 1 <= n <= 16. *)
Definition padding (buffered : nat) : list byte :=
  let n := 16 - buffered in repeat (byte_of_nat n) n.

Definition unpad (block : list byte) : result (list byte) :=
  let n := Byte.to_nat (last block x00) in
  if (n =? 0) || (16 <? n) then Throw ERR_OSSL_BAD_DECRYPT
  else if forallb (fun b => Byte.to_nat b =? n) (skipn (16 - n) block)
       then Ok (firstn (16 - n) block)
       else Throw ERR_OSSL_BAD_DECRYPT.

(** A block that ends with a PKCS#7 padding: after [body], [n] bytes of
    value [n], for an [n] from 1 to 16. *)
Definition padded (block body : list byte) (n : nat) : Prop :=
  1 <= n <= 16 /\ block = body ++ repeat (byte_of_nat n) n.

(** [cipher.update(data)]: encrypts the full blocks, keeps the rest. *)
Definition cipher_update (c : Cipher) (data : list byte) : list byte * Cipher :=
  let '(bs, rest) := to_blocks (c_buf c ++ data) in
  let '(cs, chain) := cbc_encrypt (c_key c) (c_chain c) bs in
  (flatten_blocks cs, {| c_key := c_key c; c_chain := chain; c_buf := rest |}).

(** [cipher.final()]: pads what is left and encrypts it. *)
Definition cipher_final (c : Cipher) : list byte :=
  let '(bs, _) := to_blocks (c_buf c ++ padding (List.length (c_buf c))) in
  flatten_blocks (fst (cbc_encrypt (c_key c) (c_chain c) bs)).

(** [decipher.update(data)]: decrypts the full blocks; when the data ends on
    a block boundary the last decrypted block is held back for [final]. *)
Definition decipher_update (d : Decipher) (data : list byte)
  : list byte * Decipher :=
  let '(cs, rest) := to_blocks (d_buf d ++ data) in
  let '(bs, chain) := cbc_decrypt (d_key d) (d_chain d) cs in
  let all := match d_held d with Some h => h :: bs | None => bs end in
  match rest, rev all with
  | [], h :: before =>
      (flatten_blocks (rev before),
       {| d_key := d_key d; d_chain := chain; d_buf := []; d_held := Some h |})
  | _, _ =>
      (flatten_blocks all,
       {| d_key := d_key d; d_chain := chain; d_buf := rest; d_held := None |})
  end.

(** [decipher.final()]: fails unless exactly one block is held back and it
    ends with a valid padding. *)
Definition decipher_final (d : Decipher) : result (list byte) :=
  match d_buf d, d_held d with
  | [], Some h => unpad (flatten_state h)
  | _, _ => Throw ERR_OSSL_WRONG_FINAL_BLOCK_LENGTH
  end.

(** [cipher.update(data, 'utf8', 'hex')] and [cipher.final('hex')]. *)
Definition cipher_update_utf8_hex (c : Cipher) (data : string) : string * Cipher :=
  let '(out, c') := cipher_update c (utf8_encode data) in (to_hex out, c').

Definition cipher_final_hex (c : Cipher) : string := to_hex (cipher_final c).

(** [decipher.update(data, 'hex', 'utf8')] and [decipher.final('utf8')].
    [data] may be undefined, which is a type error; Node refuses a
    hexadecimal string of odd length before decoding it. *)
Definition decipher_update_hex_utf8 (d : Decipher) (data : option string)
  : result (string * Decipher) :=
  match data with
  | None => Throw ERR_INVALID_ARG_TYPE
  | Some s =>
      if Nat.odd (String.length s) then Throw ERR_INVALID_ARG_VALUE
      else let '(out, d') := decipher_update d (from_hex s) in
           Ok (utf8_decode out, d')
  end.

Definition decipher_final_utf8 (d : Decipher) : result string :=
  out <- decipher_final d ;; Ok (utf8_decode out).

(** AES-256-CBC decryption of a whole buffer, in one step: the reference
    that the [update]/[final] protocol is compared with. *)
Definition aes_256_cbc_decrypt (k iv ct : list byte) : result (list byte) :=
  '(k', v) <- parse_key_iv "aes-256-cbc" k iv ;;
  match to_blocks ct with
  | (cs, []) =>
      match rev (fst (cbc_decrypt k' v cs)) with
      | [] => Throw ERR_OSSL_WRONG_FINAL_BLOCK_LENGTH
      | h :: before =>
          tail <- unpad (flatten_state h) ;;
          Ok (flatten_blocks (rev before) ++ tail)
      end
  | (_, _ :: _) => Throw ERR_OSSL_WRONG_FINAL_BLOCK_LENGTH
  end.

#[global] Arguments byte_of_nat : simpl never.

Lemma cbc_decrypt_encrypt (k : key) (bs : list state) :
  forall chain,
    cbc_decrypt k chain (fst (cbc_encrypt k chain bs))
    = (bs, snd (cbc_encrypt k chain bs)).
Proof.
  induction bs as [|b bs IH]; intros chain; [reflexivity|].
  simpl. specialize (IH (encrypt_block k (xor_state b chain))).
  destruct (cbc_encrypt k (encrypt_block k (xor_state b chain)) bs) as [cs ch].
  simpl in *. rewrite IH.
  now rewrite decrypt_encrypt_block, xor_state_cancel.
Qed.

Lemma cbc_encrypt_app (k : key) (bs bs' : list state) :
  forall chain,
    cbc_encrypt k chain (bs ++ bs')
    = (fst (cbc_encrypt k chain bs)
         ++ fst (cbc_encrypt k (snd (cbc_encrypt k chain bs)) bs'),
       snd (cbc_encrypt k (snd (cbc_encrypt k chain bs)) bs')).
Proof.
  induction bs as [|b bs IH]; intros chain; simpl.
  - now destruct (cbc_encrypt k chain bs').
  - rewrite IH.
    destruct (cbc_encrypt k (encrypt_block k (xor_state b chain)) bs) as [cs ch].
    reflexivity.
Qed.

Lemma to_nat_byte_of_nat (n : nat) : n <= 255 -> Byte.to_nat (byte_of_nat n) = n.
Proof.
  intros H. unfold byte_of_nat.
  destruct (Byte.of_nat n) as [b|] eqn:E.
  - now apply Byte.to_of_nat.
  - apply Byte.of_nat_None_iff in E. lia.
Qed.

Lemma padding_length (m : nat) : List.length (padding m) = 16 - m.
Proof. unfold padding. apply repeat_length. Qed.

Lemma unpad_padding (r : list byte) :
  List.length r < 16 -> unpad (r ++ padding (List.length r)) = Ok r.
Proof.
  intros H. unfold unpad, padding.
  set (n := 16 - List.length r). assert (Hn : 1 <= n <= 16) by lia.
  assert (Hlast : last (r ++ repeat (byte_of_nat n) n) x00 = byte_of_nat n).
  { destruct n as [|n]; [lia|].
    replace (repeat (byte_of_nat (S n)) (S n))
      with (repeat (byte_of_nat (S n)) n ++ [byte_of_nat (S n)])
      by (rewrite <- repeat_cons; reflexivity).
    rewrite app_assoc. apply last_last. }
  rewrite Hlast, to_nat_byte_of_nat by lia.
  replace (n =? 0) with false by (symmetry; apply Nat.eqb_neq; lia).
  replace (16 <? n) with false by (symmetry; apply Nat.ltb_ge; lia).
  cbn [orb].
  replace (16 - n) with (List.length r + 0) by lia.
  rewrite skipn_app, firstn_app.
  replace (List.length r + 0 - List.length r) with 0 by lia.
  rewrite skipn_all2, firstn_all2 by lia.
  cbn [skipn firstn app]. rewrite app_nil_r.
  replace (forallb _ _) with true; [reflexivity|].
  symmetry. apply forallb_forall. intros b Hb.
  apply repeat_spec in Hb. subst b.
  rewrite to_nat_byte_of_nat by lia. apply Nat.eqb_refl.
Qed.

Lemma unpad_padded (block body : list byte) (n : nat) :
  List.length block = 16 -> padded block body n -> unpad block = Ok body.
Proof.
  intros L [Hn ->]. rewrite length_app, repeat_length in L.
  replace n with (16 - List.length body) by lia.
  apply (unpad_padding body). lia.
Qed.

Lemma byte_of_to_nat (b : byte) : byte_of_nat (Byte.to_nat b) = b.
Proof. unfold byte_of_nat. now rewrite Byte.of_to_nat. Qed.

Lemma all_equal_repeat (n : nat) (l : list byte) :
  forallb (fun b => Byte.to_nat b =? n) l = true ->
  l = repeat (byte_of_nat n) (List.length l).
Proof.
  induction l as [|b l IH]; [reflexivity|].
  cbn [forallb List.length repeat]. intros H. apply andb_prop in H.
  destruct H as [Hb Hl]. apply Nat.eqb_eq in Hb.
  rewrite <- (IH Hl), <- Hb. now rewrite byte_of_to_nat.
Qed.

(** [unpad] returns on the blocks that end with a padding only, and its
    error is ERR_OSSL_BAD_DECRYPT. *)
Lemma unpad_not_padded (block : list byte) :
  List.length block = 16 ->
  (forall body n, ~ padded block body n) ->
  unpad block = Throw ERR_OSSL_BAD_DECRYPT.
Proof.
  intros L H. unfold unpad.
  set (n := Byte.to_nat (last block x00)).
  destruct ((n =? 0) || (16 <? n)) eqn:E; [reflexivity|].
  apply orb_false_elim in E. destruct E as [E0 E16].
  apply Nat.eqb_neq in E0. apply Nat.ltb_ge in E16.
  destruct (forallb _ (skipn (16 - n) block)) eqn:F; [|reflexivity].
  exfalso. apply (H (firstn (16 - n) block) n). split; [lia|].
  apply all_equal_repeat in F. rewrite length_skipn, L in F.
  replace (16 - (16 - n)) with n in F by lia.
  rewrite <- F. symmetry. apply firstn_skipn.
Qed.

Lemma cipher_update_fresh (k : key) (v : state) (data : list byte) :
  cipher_update {| c_key := k; c_chain := v; c_buf := [] |} data
  = (flatten_blocks (fst (cbc_encrypt k v (fst (to_blocks data)))),
     {| c_key := k;
        c_chain := snd (cbc_encrypt k v (fst (to_blocks data)));
        c_buf := snd (to_blocks data) |}).
Proof.
  unfold cipher_update. cbn [c_buf c_key c_chain app].
  destruct (to_blocks data) as [bs rest]. cbn [fst snd].
  now destruct (cbc_encrypt k v bs).
Qed.

Lemma cipher_final_short (k : key) (chain : state) (rest : list byte) :
  List.length rest < 16 ->
  exists p,
    flatten_state p = rest ++ padding (List.length rest)
    /\ cipher_final {| c_key := k; c_chain := chain; c_buf := rest |}
       = flatten_blocks (fst (cbc_encrypt k chain [p])).
Proof.
  intros H.
  destruct (to_blocks_16 (rest ++ padding (List.length rest))) as [p [Hp Hflat]].
  { rewrite length_app, padding_length. lia. }
  exists p. split; [exact Hflat|].
  unfold cipher_final. cbn [c_buf c_key c_chain]. now rewrite Hp.
Qed.

Lemma flatten_blocks_app (bs bs' : list state) :
  flatten_blocks (bs ++ bs') = flatten_blocks bs ++ flatten_blocks bs'.
Proof. apply flat_map_app. Qed.

Lemma decipher_update_fresh (k : key) (v : state) (cs : list state) :
  forall (bs : list state) (p chain : state),
    cbc_decrypt k v cs = (bs ++ [p], chain) ->
    decipher_update {| d_key := k; d_chain := v; d_buf := []; d_held := None |}
                    (flatten_blocks cs)
    = (flatten_blocks bs,
       {| d_key := k; d_chain := chain; d_buf := []; d_held := Some p |}).
Proof.
  intros bs p chain H. unfold decipher_update.
  cbn [d_buf d_key d_chain d_held app].
  rewrite <- (app_nil_r (flatten_blocks cs)), to_blocks_flatten_blocks.
  cbn [to_blocks fst snd]. rewrite app_nil_r, H.
  rewrite rev_app_distr. cbn [rev app]. now rewrite rev_involutive.
Qed.

(** What [update] and [final] write for a fresh cipher is the CBC
    encryption of the padded data: a fresh decipher fed with it returns the
    data. *)
Lemma decipher_cipher (k : key) (v : state) (data : list byte) :
  let c0 := {| c_key := k; c_chain := v; c_buf := [] |} in
  let d0 := {| d_key := k; d_chain := v; d_buf := []; d_held := None |} in
  exists tail,
    decipher_final
      (snd (decipher_update d0
              (fst (cipher_update c0 data)
                 ++ cipher_final (snd (cipher_update c0 data)))))
    = Ok tail
    /\ fst (decipher_update d0
              (fst (cipher_update c0 data)
                 ++ cipher_final (snd (cipher_update c0 data))))
         ++ tail = data.
Proof.
  cbv zeta. rewrite cipher_update_fresh. cbn [fst snd].
  destruct (to_blocks_spec data) as [Hdata Hrest].
  destruct (to_blocks data) as [bs rest]. cbn [fst snd] in *.
  destruct (cipher_final_short k (snd (cbc_encrypt k v bs)) rest Hrest)
    as [p [Hp Hfin]].
  rewrite Hfin, <- flatten_blocks_app.
  pose proof (cbc_decrypt_encrypt k (bs ++ [p]) v) as Hdec.
  rewrite cbc_encrypt_app in Hdec. cbn [fst snd] in Hdec.
  rewrite (decipher_update_fresh _ _ _ _ _ _ Hdec). cbn [fst snd].
  exists rest. split.
  - unfold decipher_final. cbn [d_buf d_held].
    rewrite Hp. apply unpad_padding. exact Hrest.
  - symmetry. exact Hdata.
Qed.

Lemma parse_key_iv_ok (k iv : list byte) :
  List.length k = 32 -> List.length iv = 16 ->
  exists k' v,
    parse_key_iv "aes-256-cbc" k iv = Ok (k', v) /\ flatten_state v = iv.
Proof.
  intros Hk Hiv. unfold parse_key_iv. rewrite String.eqb_refl. cbn [negb].
  destruct (key_of_bytes_32 k Hk) as [k' ->].
  destruct (state_of_bytes_16 iv Hiv) as [v [-> Hv]].
  now exists k', v.
Qed.

Lemma flatten_blocks_length (bs : list state) :
  List.length (flatten_blocks bs) = 16 * List.length bs.
Proof.
  induction bs as [|b bs IH]; [reflexivity|].
  unfold flatten_blocks in *. cbn [flat_map List.length].
  rewrite length_app, flatten_state_length, IH. lia.
Qed.

Lemma to_blocks_length (l : list byte) :
  List.length l
  = 16 * List.length (fst (to_blocks l)) + List.length (snd (to_blocks l))
  /\ List.length (snd (to_blocks l)) < 16.
Proof.
  destruct (to_blocks_spec l) as [H1 H2]. split; [|exact H2].
  rewrite H1 at 1. now rewrite length_app, flatten_blocks_length.
Qed.

Lemma state_of_bytes_None (l : list byte) :
  List.length l <> 16 -> state_of_bytes l = None.
Proof.
  intros H. destruct (state_of_bytes l) as [s|] eqn:E; [|reflexivity].
  apply state_of_bytes_Some in E. subst l.
  now rewrite flatten_state_length in H.
Qed.

Lemma cbc_decrypt_length (k : key) (cs : list state) :
  forall chain, List.length (fst (cbc_decrypt k chain cs)) = List.length cs.
Proof.
  induction cs as [|c cs IH]; intros chain; [reflexivity|].
  cbn [cbc_decrypt]. specialize (IH c).
  destruct (cbc_decrypt k c cs) as [bs ch]. cbn [fst List.length] in *.
  now rewrite IH.
Qed.

(** The streaming protocol on a fresh decipher computes the one-step
    decryption. *)
Lemma decipher_one_step (k : key) (v : state) (ct : list byte) :
  let d0 := {| d_key := k; d_chain := v; d_buf := []; d_held := None |} in
  (tail <- decipher_final (snd (decipher_update d0 ct)) ;;
   Ok (fst (decipher_update d0 ct) ++ tail))
  = match to_blocks ct with
    | (cs, []) =>
        match rev (fst (cbc_decrypt k v cs)) with
        | [] => Throw ERR_OSSL_WRONG_FINAL_BLOCK_LENGTH
        | h :: before =>
            tail <- unpad (flatten_state h) ;;
            Ok (flatten_blocks (rev before) ++ tail)
        end
    | (_, _ :: _) => Throw ERR_OSSL_WRONG_FINAL_BLOCK_LENGTH
    end.
Proof.
  cbv zeta. unfold decipher_update. cbn [d_buf d_key d_chain d_held app].
  destruct (to_blocks ct) as [cs [|r rest]];
    destruct (cbc_decrypt k v cs) as [bs chain]; cbn [fst].
  - destruct (rev bs) as [|h before]; reflexivity.
  - reflexivity.
Qed.

End Crypto.


(* ===================================================================== *)
(** ** utils/encryption.ts *)
(* ===================================================================== *)

Module Encryption.
Import Bytes AES256 JS Crypto.
Local Open Scope string_scope.

(** [process.env.ENCRYPTION_KEY || 'temporary-key-for-development-use']:
    an unset or empty variable gives the development key. *)
Definition KEY_STRING (env : option string) : string :=
  match env with
  | Some (String c s) => String c s
  | _ => "temporary-key-for-development-use"
  end.

Definition ENCRYPTION_KEY (env : option string) : list byte :=
  SHA256.sha256 (utf8_encode (KEY_STRING env)).

Definition ALGORITHM : string := "aes-256-cbc".

Definition encryptSSN (env : option string) (ssn : string) (g : rng)
  : result string * rng :=
  let '(iv, g') := randomBytes 16 g in
  (cipher <- createCipheriv ALGORITHM (ENCRYPTION_KEY env) iv ;;
   let '(encrypted, cipher') := cipher_update_utf8_hex cipher ssn in
   let encrypted := encrypted ++ cipher_final_hex cipher' in
   Ok (to_hex iv ++ ":" ++ encrypted),
   g').

Definition decryptSSN (env : option string) (encryptedSSN : string)
  : result string :=
  let parts := split ":" encryptedSSN in
  let iv := from_hex (nth 0 parts "") in
  let encryptedText := nth_error parts 1 in
  decipher <- createDecipheriv ALGORITHM (ENCRYPTION_KEY env) iv ;;
  '(decrypted, decipher') <- decipher_update_hex_utf8 decipher encryptedText ;;
  tail <- decipher_final_utf8 decipher' ;;
  Ok (decrypted ++ tail).

Definition maskSSN (env : option string) (ssn : string) : result string :=
  decrypted <- (if includes ":" ssn then decryptSSN env ssn else Ok ssn) ;;
  Ok ("***-**-" ++ slice (-4) decrypted).

(** The last [n] characters of a string (all of it when it is shorter). *)
Definition last_chars (n : nat) (s : string) : string :=
  drop (String.length s - n) s.

(** [replace_at n c s] writes [c] over the character of index [n]. *)
Fixpoint replace_at (n : nat) (c : ascii) (s : string) : string :=
  match s, n with
  | EmptyString, _ => EmptyString
  | String _ s', O => String c s'
  | String d s', S n' => String d (replace_at n' c s')
  end.

(** An entropy stream that starts with the given bytes. *)
Definition stream_of (l : list byte) : rng :=
  {| entropy := fun n => nth n l x00; cursor := 0 |}.

Definition sample_iv : list byte :=
  [xff; x2c; xbe; x80; x47; x8d; xf7; x1f; x7a; x23; x4f; xe6; x22; x5f; x25; xec].

Definition sample_stored : string :=
  "ff2cbe80478df71f7a234fe6225f25ec:a356e18a3c16ee188c098ff3d35961d7".

(** [sample_stored] with the fourth hexadecimal character of the ciphertext
    changed from 6 to 7. *)
Definition sample_tampered : string := replace_at 36 "7" sample_stored.

Definition sample_garbled : list byte :=
  [x04; x46; x29; x36; x1f; x6e; x36; x57; x57; x36; x23; x6f; x5d; x30; x6d].


(** [sample_stored] with its last hexadecimal character changed from 7 to
    6, with its last two characters cut off, and with its last three
    characters cut off. *)
Definition sample_bad_padding : string := replace_at 64 "6" sample_stored.

Definition sample_truncated : string := substring 0 63 sample_stored.

Definition sample_odd : string := substring 0 62 sample_stored.

(** An entropy stream that counts: byte n is n modulo 256. *)
Definition counting_stream : rng :=
  {| entropy := fun n => byte_of_nat (n mod 256); cursor := 0 |}.

Lemma ENCRYPTION_KEY_length (env : option string) :
  List.length (ENCRYPTION_KEY env) = 32.
Proof. apply SHA256.sha256_length. Qed.

(** The stored string written for the IV [iv]: the hexadecimal IV, a colon
    and the hexadecimal ciphertext; decryptSSN reads the plaintext back. *)
Lemma encrypt_decrypt (env : option string) (ssn : string) (g : rng) :
  exists ct : list byte,
    fst (encryptSSN env ssn g)
    = Ok (to_hex (fst (randomBytes 16 g)) ++ ":" ++ to_hex ct)
    /\ decryptSSN env (to_hex (fst (randomBytes 16 g)) ++ ":" ++ to_hex ct)
       = Ok ssn.
Proof.
  pose proof (randomBytes_length 16 g) as Hiv.
  unfold encryptSSN, decryptSSN.
  destruct (randomBytes 16 g) as [iv g']. cbn [fst] in *.
  destruct (parse_key_iv_ok _ iv (ENCRYPTION_KEY_length env) Hiv)
    as [k [v [Hkv Hv]]].
  unfold createCipheriv, createDecipheriv, ALGORITHM.
  destruct (decipher_cipher k v (utf8_encode ssn)) as [tail [Hfin Hdata]].
  cbv zeta in Hfin, Hdata.
  set (c0 := {| c_key := k; c_chain := v; c_buf := [] |}) in *.
  set (d0 := {| d_key := k; d_chain := v; d_buf := []; d_held := None |}) in *.
  exists (fst (cipher_update c0 (utf8_encode ssn))
            ++ cipher_final (snd (cipher_update c0 (utf8_encode ssn))))%list.
  rewrite Hkv. cbn [bind]. fold c0.
  unfold cipher_update_utf8_hex, cipher_final_hex.
  destruct (cipher_update c0 (utf8_encode ssn)) as [out c1]. cbn [fst snd] in *.
  split.
  - now rewrite to_hex_app.
  - change (to_hex iv ++ ":" ++ to_hex (out ++ cipher_final c1)%list)
      with (to_hex iv ++ String ":" (to_hex (out ++ cipher_final c1)%list)).
    rewrite split_at_sep by apply to_hex_no_colon.
    rewrite split_no_sep by apply to_hex_no_colon.
    cbn [nth nth_error]. rewrite from_hex_to_hex, Hkv. cbn [bind]. fold d0.
    unfold decipher_update_hex_utf8. rewrite to_hex_even, from_hex_to_hex.
    destruct (decipher_update d0 (out ++ cipher_final c1)%list) as [plain d1].
    cbn [fst snd bind] in *.
    unfold decipher_final_utf8. rewrite Hfin. cbn [bind].
    now rewrite <- utf8_decode_app, Hdata, utf8_decode_encode.
Qed.
Lemma slice_last_chars (s : string) : slice (-4) s = last_chars 4 s.
Proof.
  unfold slice, last_chars. cbn [Z.ltb Z.compare].
  f_equal. lia.
Qed.

Lemma drop_split (n : nat) (s : string) :
  exists prefix, s = prefix ++ drop n s.
Proof.
  revert s. induction n as [|n IH]; intros s.
  - now exists "".
  - destruct s as [|c s]; [now exists ""|].
    destruct (IH s) as [p Hp]. exists (String c p). cbn [drop append].
    now rewrite <- Hp.
Qed.

Lemma drop_all (n : nat) (s : string) : n = 0 -> drop n s = s.
Proof. now intros ->. Qed.

Lemma maskSSN_plain (env : option string) (s : string) :
  includes ":" s = false -> maskSSN env s = Ok ("***-**-" ++ last_chars 4 s).
Proof.
  intros H. unfold maskSSN. rewrite H. cbn [bind].
  now rewrite slice_last_chars.
Qed.

Lemma stored_includes_colon (iv ct : list byte) :
  includes ":" (to_hex iv ++ ":" ++ to_hex ct) = true.
Proof.
  rewrite includes_app, to_hex_no_colon. reflexivity.
Qed.

Lemma stored_iv_injective (iv iv' ct ct' : list byte) :
  to_hex iv ++ ":" ++ to_hex ct = to_hex iv' ++ ":" ++ to_hex ct' -> iv = iv'.
Proof.
  intros H. apply (f_equal (split ":")) in H.
  change (to_hex iv ++ ":" ++ to_hex ct)
    with (to_hex iv ++ String ":" (to_hex ct)) in H.
  change (to_hex iv' ++ ":" ++ to_hex ct')
    with (to_hex iv' ++ String ":" (to_hex ct')) in H.
  rewrite !split_at_sep in H by apply to_hex_no_colon.
  injection H as H _. apply (f_equal from_hex) in H.
  now rewrite !from_hex_to_hex in H.
Qed.

Lemma decryptSSN_one_step (env : option string) (s ivh cth : string)
      (rest : list string) :
  split ":" s = ivh :: cth :: rest ->
  Nat.odd (String.length cth) = false ->
  decryptSSN env s
  = (p <- aes_256_cbc_decrypt (ENCRYPTION_KEY env) (from_hex ivh) (from_hex cth) ;;
     Ok (utf8_decode p)).
Proof.
  intros Hs Hodd. unfold decryptSSN, aes_256_cbc_decrypt, createDecipheriv, ALGORITHM.
  rewrite Hs. cbn [nth nth_error].
  destruct (parse_key_iv "aes-256-cbc" (ENCRYPTION_KEY env) (from_hex ivh))
    as [[k v]|e]; [|reflexivity].
  cbn [bind]. unfold decipher_update_hex_utf8. rewrite Hodd.
  rewrite <- decipher_one_step. cbv zeta.
  destruct (decipher_update _ (from_hex cth)) as [out d1]. cbn [bind fst snd].
  unfold decipher_final_utf8.
  destruct (decipher_final d1) as [tail|e]; [|reflexivity].
  cbn [bind]. now rewrite utf8_decode_app.
Qed.

Lemma decryptSSN_blocks (env : option string) (s ivh cth : string)
      (rest : list string) (k : key) (v : state) (blocks before : list state)
      (final : state) :
  split ":" s = ivh :: cth :: rest ->
  Nat.odd (String.length cth) = false ->
  key_of_bytes (ENCRYPTION_KEY env) = Some k ->
  state_of_bytes (from_hex ivh) = Some v ->
  from_hex cth = flatten_blocks blocks ->
  fst (cbc_decrypt k v blocks) = (before ++ [final])%list ->
  decryptSSN env s
  = (tail <- unpad (flatten_state final) ;;
     Ok (utf8_decode (flatten_blocks before ++ tail))).
Proof.
  intros Hs Hodd Hk Hv Hct Hp.
  rewrite (decryptSSN_one_step env s ivh cth rest Hs Hodd).
  unfold aes_256_cbc_decrypt, parse_key_iv. rewrite String.eqb_refl.
  cbn [negb]. rewrite Hk, Hv. cbn [bind].
  rewrite Hct, <- (app_nil_r (flatten_blocks blocks)), to_blocks_flatten_blocks.
  cbn [to_blocks fst snd]. rewrite app_nil_r, Hp, rev_app_distr.
  cbn [rev app]. rewrite rev_involutive.
  now destruct (unpad (flatten_state final)).
Qed.

Lemma decryptSSN_odd (env : option string) (s ivh cth : string)
      (rest : list string) :
  split ":" s = ivh :: cth :: rest ->
  List.length (from_hex ivh) = 16 ->
  Nat.odd (String.length cth) = true ->
  decryptSSN env s = Throw ERR_INVALID_ARG_VALUE.
Proof.
  intros Hs Hiv Hodd. unfold decryptSSN, createDecipheriv, ALGORITHM.
  rewrite Hs. cbn [nth nth_error].
  destruct (parse_key_iv_ok _ _ (ENCRYPTION_KEY_length env) Hiv)
    as [k [v [-> _]]].
  cbn [bind]. unfold decipher_update_hex_utf8. now rewrite Hodd.
Qed.

Lemma decryptSSN_no_separator (env : option string) (s : string) :
  includes ":" s = false ->
  List.length (from_hex s) = 16 ->
  decryptSSN env s = Throw ERR_INVALID_ARG_TYPE.
Proof.
  intros H Hiv. unfold decryptSSN, createDecipheriv, ALGORITHM.
  rewrite (split_no_sep _ _ H). cbn [nth nth_error].
  destruct (parse_key_iv_ok _ _ (ENCRYPTION_KEY_length env) Hiv)
    as [k [v [-> _]]].
  reflexivity.
Qed.

Lemma decryptSSN_bad_length (env : option string) (s ivh cth : string)
      (rest : list string) :
  split ":" s = ivh :: cth :: rest ->
  List.length (from_hex ivh) = 16 ->
  Nat.odd (String.length cth) = false ->
  List.length (from_hex cth) = 0 \/ List.length (from_hex cth) mod 16 <> 0 ->
  decryptSSN env s = Throw ERR_OSSL_WRONG_FINAL_BLOCK_LENGTH.
Proof.
  intros Hs Hiv Hodd Hlen.
  rewrite (decryptSSN_one_step env s ivh cth rest Hs Hodd).
  unfold aes_256_cbc_decrypt.
  destruct (parse_key_iv_ok _ _ (ENCRYPTION_KEY_length env) Hiv)
    as [k [v [-> _]]].
  cbn [bind].
  destruct (to_blocks_length (from_hex cth)) as [Hl Hr].
  pose proof (cbc_decrypt_length k (fst (to_blocks (from_hex cth))) v) as Hd.
  destruct (to_blocks (from_hex cth)) as [cs [|r rs]]; cbn [fst snd] in *;
    [|reflexivity].
  destruct cs as [|c cs].
  - reflexivity.
  - exfalso. cbn [List.length] in Hl.
    destruct Hlen as [H0|Hm]; [lia|].
    apply Hm. rewrite Hl, Nat.add_0_r, Nat.mul_comm. apply Nat.Div0.mod_mul.
Qed.

Lemma flatten_state_16 (p : state) : List.length (flatten_state p) = 16.
Proof. apply flatten_state_length. Qed.

(** C2 (amended). On a stored string of ASCII characters, decryptSSN splits
    on ':' and takes the first part as the hexadecimal IV and the second as
    the hexadecimal ciphertext.  It throws ERR_INVALID_ARG_TYPE when there
    is no separator and the whole string is a 16-byte IV (without a
    separator it always throws),
    ERR_CRYPTO_INVALID_IV when the IV part does not decode to 16 bytes,
    ERR_INVALID_ARG_VALUE when the ciphertext part has an odd number of
    characters, ERR_OSSL_WRONG_FINAL_BLOCK_LENGTH when the ciphertext is not
    a positive whole number of 16-byte blocks, and ERR_OSSL_BAD_DECRYPT when
    the last block of the AES-256-CBC decryption does not end with a PKCS#7
    padding.  When it does, and the bytes before the padding are ASCII,
    decryptSSN returns them as a string, whatever they are.  One stored
    string is given for each of the errors. *)
Theorem decryptSSN_failure_modes (env : option string) (s : string) :
  ascii_only s = true ->
  (includes ":" s = false ->
   is_ok (decryptSSN env s) = false
   /\ (List.length (from_hex s) = 16 ->
       decryptSSN env s = Throw ERR_INVALID_ARG_TYPE))
  /\ (List.length (from_hex (nth 0 (split ":" s) "")) <> 16 ->
      decryptSSN env s = Throw ERR_CRYPTO_INVALID_IV)
  /\ (forall ivh cth rest,
        split ":" s = ivh :: cth :: rest ->
        List.length (from_hex ivh) = 16 ->
        (Nat.odd (String.length cth) = true ->
         decryptSSN env s = Throw ERR_INVALID_ARG_VALUE)
        /\ (Nat.odd (String.length cth) = false ->
            (List.length (from_hex cth) = 0
             \/ List.length (from_hex cth) mod 16 <> 0 ->
             decryptSSN env s = Throw ERR_OSSL_WRONG_FINAL_BLOCK_LENGTH)
            /\ (forall k v blocks before final,
                  key_of_bytes (ENCRYPTION_KEY env) = Some k ->
                  state_of_bytes (from_hex ivh) = Some v ->
                  from_hex cth = flatten_blocks blocks ->
                  fst (cbc_decrypt k v blocks) = (before ++ [final])%list ->
                  ((forall body n, ~ padded (flatten_state final) body n) ->
                   decryptSSN env s = Throw ERR_OSSL_BAD_DECRYPT)
                  /\ (forall body n,
                        padded (flatten_state final) body n ->
                        ascii_only (utf8_decode (flatten_blocks before ++ body))
                        = true ->
                        decryptSSN env s
                        = Ok (utf8_decode (flatten_blocks before ++ body))))))
  /\ decryptSSN None sample_bad_padding = Throw ERR_OSSL_BAD_DECRYPT
  /\ decryptSSN None sample_truncated = Throw ERR_OSSL_WRONG_FINAL_BLOCK_LENGTH
  /\ decryptSSN None sample_odd = Throw ERR_INVALID_ARG_VALUE
  /\ decryptSSN None "123456789" = Throw ERR_CRYPTO_INVALID_IV.
Proof.
  intros _.
  refine (conj _ (conj _ (conj _ (conj _ (conj _ (conj _ _))))));
    [| | |vm_compute; reflexivity|vm_compute; reflexivity
     |vm_compute; reflexivity|vm_compute; reflexivity].
  - intros H. split; [|now apply decryptSSN_no_separator].
    unfold decryptSSN. rewrite (split_no_sep _ _ H). cbn [nth nth_error].
    destruct (createDecipheriv _ _ _) as [d|e]; reflexivity.
  - intros H. unfold decryptSSN, createDecipheriv, parse_key_iv, ALGORITHM.
    rewrite String.eqb_refl. cbn [negb].
    destruct (key_of_bytes_32 _ (ENCRYPTION_KEY_length env)) as [k ->].
    now rewrite (state_of_bytes_None _ H).
  - intros ivh cth rest Hs Hiv. split.
    + now apply (decryptSSN_odd env s ivh cth rest).
    + intros Hodd. split.
      * now apply (decryptSSN_bad_length env s ivh cth rest).
      * intros k v blocks before final Hk Hv Hct Hp.
        rewrite (decryptSSN_blocks env s ivh cth rest k v blocks before final
                   Hs Hodd Hk Hv Hct Hp).
        split.
        -- intros H. now rewrite (unpad_not_padded _ (flatten_state_16 final) H).
        -- intros body n H _.
           now rewrite (unpad_padded _ body n (flatten_state_16 final) H).
Qed.

Lemma encryptSSN_rng (env : option string) (P : string) (g : rng) :
  snd (encryptSSN env P g) = snd (randomBytes 16 g).
Proof. reflexivity. Qed.

Lemma last_chars_min (n : nat) (s : string) :
  last_chars (Nat.min n (String.length s)) s = last_chars n s.
Proof. unfold last_chars. f_equal. lia. Qed.

Lemma last_chars_length (n : nat) (s : string) :
  String.length (last_chars n s) = Nat.min n (String.length s).
Proof. unfold last_chars. rewrite drop_length. lia. Qed.

Lemma last_chars_short (n : nat) (s : string) :
  String.length s <= n -> last_chars n s = s.
Proof.
  intros H. unfold last_chars.
  replace (String.length s - n) with 0 by lia. reflexivity.
Qed.

(** C2 (counterexample). The stored string that encryptSSN writes for
    "123456789" under the development key and the IV [sample_iv], with one
    hexadecimal character of its ciphertext changed, is decrypted without
    any error to a different string. *)
Lemma tampered_ciphertext_is_accepted :
  fst (encryptSSN None "123456789" (stream_of sample_iv)) = Ok sample_stored
  /\ sample_tampered
     = "ff2cbe80478df71f7a234fe6225f25ec:a357e18a3c16ee188c098ff3d35961d7"
  /\ decryptSSN None sample_stored = Ok "123456789"
  /\ decryptSSN None sample_tampered = Ok (utf8_decode sample_garbled)
  /\ utf8_decode sample_garbled <> "123456789".
Proof. vm_compute. repeat split; discriminate. Qed.

(** C9. For an ASCII plaintext without ':', masking the stored string
    written by encryptSSN and masking the plaintext itself both succeed with
    the same result: "***-**-" followed by the last four characters of the
    plaintext, that is by the end [shown] of the plaintext of length
    min(4, length). *)
Theorem mask_of_stored_is_mask_of_plain
        (env : option string) (P : string) (g : rng) :
  ascii_only P = true ->
  includes ":" P = false ->
  exists stored hidden shown,
    fst (encryptSSN env P g) = Ok stored
    /\ P = hidden ++ shown
    /\ String.length shown = Nat.min 4 (String.length P)
    /\ maskSSN env stored = Ok ("***-**-" ++ shown)
    /\ maskSSN env P = Ok ("***-**-" ++ shown).
Proof.
  intros _ HP. destruct (encrypt_decrypt env P g) as [ct [Henc Hdec]].
  destruct (drop_split (String.length P - 4) P) as [hidden Hh].
  eexists. exists hidden, (last_chars 4 P).
  split; [exact Henc|]. split; [exact Hh|].
  split; [apply last_chars_length|].
  split; [|apply (maskSSN_plain env P HP)].
  unfold maskSSN. rewrite stored_includes_colon, Hdec. cbn [bind].
  now rewrite slice_last_chars.
Qed.

(** C10. On an ASCII string without ':' maskSSN returns "***-**-" followed
    by the last min(4, length) characters of the string: a string of at most
    four characters stays entirely visible, and the empty string gives
    "***-**-". *)
Theorem mask_of_legacy_plaintext (env : option string) (s : string) :
  ascii_only s = true ->
  includes ":" s = false ->
  maskSSN env s
  = Ok ("***-**-" ++ last_chars (Nat.min 4 (String.length s)) s)
  /\ String.length (last_chars (Nat.min 4 (String.length s)) s)
     = Nat.min 4 (String.length s)
  /\ (exists hidden, s = hidden ++ last_chars (Nat.min 4 (String.length s)) s)
  /\ (String.length s <= 4 -> maskSSN env s = Ok ("***-**-" ++ s))
  /\ maskSSN env "" = Ok "***-**-".
Proof.
  intros _ H. rewrite (maskSSN_plain env s H), last_chars_min.
  repeat split.
  - apply last_chars_length.
  - apply drop_split.
  - intros Hlen. now rewrite (last_chars_short 4 s Hlen).
Qed.

Lemma decryptSSN_failure_modes_witness :
  ascii_only sample_stored = true
  /\ (forall body n,
        padded [x31; x32; x33; x34; x35; x36; x37; x38; x39;
                x07; x07; x07; x07; x07; x07; x07] body n ->
        ascii_only (utf8_decode body) = true ->
        decryptSSN None sample_stored = Ok (utf8_decode body)).
Proof.
  split; [reflexivity|]. intros body n.
  destruct (proj1 (proj2 (proj2
              (decryptSSN_failure_modes None sample_stored eq_refl)))
              "ff2cbe80478df71f7a234fe6225f25ec"
              "a356e18a3c16ee188c098ff3d35961d7" [] eq_refl eq_refl)
    as [_ H1].
  destruct (H1 eq_refl) as [_ H2].
  edestruct (fun k v final =>
               H2 k v (fst (to_blocks
                              (from_hex "a356e18a3c16ee188c098ff3d35961d7")))
                  [] final) as [_ H3];
    [vm_compute; reflexivity|vm_compute; reflexivity|vm_compute; reflexivity
    |vm_compute; reflexivity|].
  exact (H3 body n).
Defined.

Lemma mask_of_stored_is_mask_of_plain_witness :
  ascii_only "123456789" = true
  /\ includes ":" "123456789" = false
  /\ exists stored hidden,
       fst (encryptSSN None "123456789" counting_stream) = Ok stored
       /\ "123456789" = hidden ++ "6789"
       /\ maskSSN None stored = Ok "***-**-6789"
       /\ maskSSN None "123456789" = Ok "***-**-6789".
Proof.
  split; [reflexivity|split; [reflexivity|]].
  destruct (mask_of_stored_is_mask_of_plain
              None "123456789" counting_stream eq_refl eq_refl)
    as [stored [hidden [shown [E [S [L [M1 M2]]]]]]].
  exists stored, hidden.
  assert (Hs : shown = "6789").
  { change (maskSSN None "123456789") with (Ok "***-**-6789") in M2.
    injection M2 as M2. now rewrite <- M2. }
  rewrite Hs in S, M1, M2.
  split; [exact E|split; [exact S|split; [exact M1|exact M2]]].
Defined.

Lemma mask_of_legacy_plaintext_witness :
  ascii_only "12" = true
  /\ includes ":" "12" = false
  /\ maskSSN None "12" = Ok "***-**-12".
Proof.
  split; [reflexivity|split; [reflexivity|]].
  exact (proj1 (proj2 (proj2 (proj2
           (mask_of_legacy_plaintext None "12" eq_refl eq_refl))))
           (le_S 2 3 (le_S 2 2 (le_n 2)))).
Defined.

End Encryption.


(* ===================================================================== *)
(** ** JavaScript strings as sequences of UTF-16 code units, and their
       'utf8' encoding *)
(* ===================================================================== *)

Module Unicode.
Import Bytes.
Local Open Scope N_scope.

(** A JavaScript string: its code units, each below 65536.  A code unit
    from D800 to DBFF followed by one from DC00 to DFFF is a surrogate pair
    and stands for one code point from 10000 to 10FFFF; any other code unit
    from D800 to DFFF is an unpaired surrogate. *)
Definition string16 : Type := list N.

Definition is_high_surrogate (u : N) : bool := (0xD800 <=? u) && (u <=? 0xDBFF).
Definition is_low_surrogate (u : N) : bool := (0xDC00 <=? u) && (u <=? 0xDFFF).

(** A string without unpaired surrogates. *)
Fixpoint well_formed (s : string16) : bool :=
  match s with
  | [] => true
  | u :: s' =>
      if is_high_surrogate u
      then match s' with
           | l :: s'' => is_low_surrogate l && well_formed s''
           | [] => false
           end
      else negb (is_low_surrogate u) && (u <? 0x10000) && well_formed s'
  end.

(** The code units of a text of 8-bit characters. *)
Definition of_string (s : string) : string16 :=
  map N_of_ascii (list_ascii_of_string s).

(** The UTF-8 form of a code point. *)
Definition utf8_of_code_point (cp : N) : list byte :=
  if cp <? 0x80 then [byte_of_N cp]
  else if cp <? 0x800
  then [byte_of_N (0xC0 + cp / 64); byte_of_N (0x80 + cp mod 64)]
  else if cp <? 0x10000
  then [byte_of_N (0xE0 + cp / 4096); byte_of_N (0x80 + (cp / 64) mod 64);
        byte_of_N (0x80 + cp mod 64)]
  else [byte_of_N (0xF0 + cp / 262144); byte_of_N (0x80 + (cp / 4096) mod 64);
        byte_of_N (0x80 + (cp / 64) mod 64); byte_of_N (0x80 + cp mod 64)].

(** U+FFFD, the replacement character, in UTF-8. *)
Definition replacement : list byte := [xef; xbf; xbd].

(** [Buffer.from(s, 'utf8')], and what a cipher reads of a string given as
    'utf8': a surrogate pair is written as its code point, an unpaired
    surrogate as U+FFFD. *)
Fixpoint encode (s : string16) : list byte :=
  match s with
  | [] => []
  | u :: s' =>
      if is_high_surrogate u
      then match s' with
           | l :: s'' =>
               if is_low_surrogate l
               then utf8_of_code_point
                      (0x10000 + (u - 0xD800) * 1024 + (l - 0xDC00))
                    ++ encode s''
               else replacement ++ encode s'
           | [] => replacement
           end
      else if is_low_surrogate u then replacement ++ encode s'
      else utf8_of_code_point u ++ encode s'
  end.

(** The state of the UTF-8 decoder (the one of the WHATWG Encoding
    standard, which V8 and Node follow): how many bytes the current character
    still needs, the code point read so far, and the range the next byte has
    to be in. *)
Record decoder : Type :=
  { needed : nat; code_point : N; lower : N; upper : N }.

Definition start : decoder :=
  {| needed := 0; code_point := 0; lower := 0x80; upper := 0xBF |}.

Definition units_of_code_point (cp : N) : list N :=
  if cp <? 0x10000 then [cp]
  else [0xD800 + (cp - 0x10000) / 1024; 0xDC00 + (cp - 0x10000) mod 1024].

(** A byte read when no character is under way. *)
Definition lead (b : N) : list N * decoder :=
  if b <? 0x80 then ([b], start)
  else if (0xC2 <=? b) && (b <=? 0xDF)
  then ([], {| needed := 1; code_point := b - 0xC0; lower := 0x80; upper := 0xBF |})
  else if (0xE0 <=? b) && (b <=? 0xEF)
  then ([], {| needed := 2; code_point := b - 0xE0;
               lower := if b =? 0xE0 then 0xA0 else 0x80;
               upper := if b =? 0xED then 0x9F else 0xBF |})
  else if (0xF0 <=? b) && (b <=? 0xF4)
  then ([], {| needed := 3; code_point := b - 0xF0;
               lower := if b =? 0xF0 then 0x90 else 0x80;
               upper := if b =? 0xF4 then 0x8F else 0xBF |})
  else ([0xFFFD], start).

(** One byte: a byte outside the expected range ends the character under
    way with U+FFFD and is read again as a first byte. *)
Definition step (d : decoder) (b : N) : list N * decoder :=
  match needed d with
  | O => lead b
  | S n =>
      if (lower d <=? b) && (b <=? upper d)
      then let cp := code_point d * 64 + (b - 0x80) in
           match n with
           | O => (units_of_code_point cp, start)
           | S _ => ([], {| needed := n; code_point := cp;
                            lower := 0x80; upper := 0xBF |})
           end
      else let '(out, d') := lead b in (0xFFFD :: out, d')
  end.

Fixpoint run (d : decoder) (bytes : list byte) : list N * decoder :=
  match bytes with
  | [] => ([], d)
  | b :: rest =>
      let '(out, d') := step d (Byte.to_N b) in
      let '(out', d'') := run d' rest in
      (out ++ out', d'')
  end.

(** At the end of the bytes a character under way gives U+FFFD. *)
Definition flush (d : decoder) : list N :=
  match needed d with O => [] | S _ => [0xFFFD] end.

(** [buf.toString('utf8')], and the text a decipher writes as 'utf8' over
    its [update] and [final] together. *)
Definition decode (bytes : list byte) : string16 :=
  let '(out, d) := run start bytes in out ++ flush d.

Lemma to_N_byte_of_N (n : N) : n < 256 -> Byte.to_N (byte_of_N n) = n.
Proof.
  intros H. unfold byte_of_N. rewrite N.mod_small by exact H.
  destruct (Byte.of_N n) as [b|] eqn:E.
  - now apply Byte.to_of_N.
  - apply Byte.of_N_None_iff in E. lia.
Qed.

Lemma run_app (a b : list byte) :
  forall d,
    run d (a ++ b)
    = (fst (run d a) ++ fst (run (snd (run d a)) b),
       snd (run (snd (run d a)) b)).
Proof.
  induction a as [|x a IH]; intros d.
  - cbn [app run fst snd]. now destruct (run d b).
  - cbn [app run]. destruct (step d (Byte.to_N x)) as [o d1].
    rewrite IH. destruct (run d1 a) as [o1 d2]. cbn [fst snd].
    destruct (run d2 b) as [o2 d3]. cbn [fst snd]. now rewrite app_assoc.
Qed.

Ltac arith :=
  zify; Z.to_euclidean_division_equations; lia.

(** Settles the tests of the goal: by arithmetic where the hypotheses decide
    them, by cases otherwise. *)
Ltac test1 :=
  match goal with
  | |- context [(?a <? ?b)] =>
      first [ replace (a <? b) with true by (symmetry; apply N.ltb_lt; arith)
            | replace (a <? b) with false by (symmetry; apply N.ltb_ge; arith)
            | destruct (N.ltb_spec a b) ]
  | |- context [(?a <=? ?b)] =>
      first [ replace (a <=? b) with true by (symmetry; apply N.leb_le; arith)
            | replace (a <=? b) with false by (symmetry; apply N.leb_gt; arith)
            | destruct (N.leb_spec a b) ]
  | |- context [(?a =? ?b)] =>
      first [ replace (a =? b) with true by (symmetry; apply N.eqb_eq; arith)
            | replace (a =? b) with false by (symmetry; apply N.eqb_neq; arith)
            | destruct (N.eqb_spec a b) ]
  end.

Ltac tests := repeat test1; cbn [andb orb negb].

(** A code point that is not a surrogate is read back from its UTF-8
    form. *)
Lemma run_code_point (cp : N) :
  cp < 0x110000 -> (cp < 0xD800 \/ 0xDFFF < cp) ->
  run start (utf8_of_code_point cp) = (units_of_code_point cp, start).
Proof.
  intros H S. unfold utf8_of_code_point.
  destruct (N.ltb_spec cp 0x80) as [C1|C1];
    [|destruct (N.ltb_spec cp 0x800) as [C2|C2];
      [|destruct (N.ltb_spec cp 0x10000) as [C3|C3]]];
    cbn [run]; rewrite !to_N_byte_of_N by arith;
    unfold step at 1, start at 1; cbn [needed]; unfold lead; tests;
    repeat (unfold step at 1; cbn [needed lower upper code_point]; tests);
    unfold units_of_code_point; tests; cbn [app]; repeat f_equal; arith.
Qed.

Lemma units_of_pair (u l : N) :
  is_high_surrogate u = true -> is_low_surrogate l = true ->
  units_of_code_point (0x10000 + (u - 0xD800) * 1024 + (l - 0xDC00)) = [u; l].
Proof.
  unfold is_high_surrogate, is_low_surrogate, units_of_code_point.
  intros Hu Hl. apply andb_prop in Hu, Hl.
  rewrite !N.leb_le in Hu, Hl.
  destruct (N.ltb_spec (0x10000 + (u - 0xD800) * 1024 + (l - 0xDC00)) 0x10000);
    [exfalso; lia|].
  f_equal; [|f_equal]; arith.
Qed.

Lemma run_well_formed (n : nat) :
  forall s : string16,
    (List.length s <= n)%nat -> well_formed s = true ->
    run start (encode s) = (s, start).
Proof.
  induction n as [|n IH]; intros s Hn Hs.
  - destruct s; [reflexivity|cbn in Hn; lia].
  - destruct s as [|u s']; [reflexivity|].
    cbn [well_formed encode] in *.
    destruct (is_high_surrogate u) eqn:Hu.
    + destruct s' as [|l s'']; [discriminate|].
      apply andb_prop in Hs. destruct Hs as [Hl Hs]. rewrite Hl.
      rewrite run_app, run_code_point.
      * cbn [fst snd]. rewrite IH by (cbn [List.length] in Hn; lia || exact Hs).
        cbn [fst snd]. now rewrite (units_of_pair u l Hu Hl).
      * unfold is_high_surrogate, is_low_surrogate in Hu, Hl.
        apply andb_prop in Hu, Hl. rewrite !N.leb_le in Hu, Hl. lia.
      * unfold is_high_surrogate, is_low_surrogate in Hu, Hl.
        apply andb_prop in Hu, Hl. rewrite !N.leb_le in Hu, Hl. lia.
    + apply andb_prop in Hs. destruct Hs as [Hs Hs'].
      apply andb_prop in Hs. destruct Hs as [Hl Hr].
      apply negb_true_iff in Hl. rewrite Hl. apply N.ltb_lt in Hr.
      rewrite run_app, run_code_point.
      * cbn [fst snd]. rewrite IH by (cbn [List.length] in Hn; lia || exact Hs').
        cbn [fst snd]. unfold units_of_code_point.
        now replace (u <? 0x10000) with true by (symmetry; now apply N.ltb_lt).
      * lia.
      * unfold is_high_surrogate, is_low_surrogate in Hu, Hl.
        apply andb_false_iff in Hu, Hl. rewrite !N.leb_gt in Hu, Hl. lia.
Qed.

(** A string without unpaired surrogates is read back from its UTF-8
    form. *)
Lemma decode_encode (s : string16) :
  well_formed s = true -> decode (encode s) = s.
Proof.
  intros H. unfold decode.
  rewrite (run_well_formed (List.length s) s (le_n _) H).
  cbn [flush needed start]. apply app_nil_r.
Qed.

(** The text of 8-bit characters below 128 has no surrogate. *)
Lemma well_formed_of_string (s : string) : well_formed (of_string s) = true.
Proof.
  unfold of_string. induction s as [|c s IH]; [reflexivity|].
  cbn [list_ascii_of_string map well_formed].
  assert (H : N_of_ascii c < 256) by apply N_ascii_bounded.
  unfold is_high_surrogate, is_low_surrogate.
  replace (0xD800 <=? N_of_ascii c) with false by (symmetry; apply N.leb_gt; lia).
  replace (0xDC00 <=? N_of_ascii c) with false by (symmetry; apply N.leb_gt; lia).
  cbn [andb negb].
  replace (N_of_ascii c <? 0x10000) with true by (symmetry; apply N.ltb_lt; lia).
  exact IH.
Qed.

End Unicode.


(* ===================================================================== *)
(** ** utils/encryption.ts on JavaScript strings: the plaintext as code
       units *)
(* ===================================================================== *)

Module Strings16.
Import Bytes JS Crypto Unicode.
Local Open Scope string_scope.

(** The UTF-8 form of a JavaScript string, as a text of 8-bit characters:
    the bytes that 'utf8' writes for it. *)
Definition utf8_form (s : string16) : string :=
  string_of_list_byte (Unicode.encode s).

(** The JavaScript string that 'utf8' reads from the bytes of a text of
    8-bit characters. *)
Definition text (s : string) : string16 :=
  Unicode.decode (list_byte_of_string s).

(** encryptSSN on a JavaScript string: [cipher.update(ssn, 'utf8', 'hex')]
    reads the UTF-8 form of [ssn], and on that form [Encryption.encryptSSN]
    is written.  The stored string is hexadecimal digits and a colon. *)
Definition encryptSSN (env : option string) (ssn : string16) (g : rng)
  : result string * rng :=
  Encryption.encryptSSN env (utf8_form ssn) g.

(** decryptSSN with its result as a JavaScript string:
    [decipher.update(encryptedText, 'hex', 'utf8')] and
    [decipher.final('utf8')] write the decrypted bytes as 'utf8'. *)
Definition decryptSSN (env : option string) (encryptedSSN : string)
  : result string16 :=
  decrypted <- Encryption.decryptSSN env encryptedSSN ;;
  Ok (text decrypted).

Lemma text_utf8_form (s : string16) :
  well_formed s = true -> text (utf8_form s) = s.
Proof.
  intros H. unfold text, utf8_form.
  rewrite list_byte_of_string_of_list_byte. now apply decode_encode.
Qed.

(** The bytes a cipher reads of the UTF-8 form are those of the string. *)
Lemma utf8_form_bytes (s : string16) :
  utf8_encode (utf8_form s) = Unicode.encode s.
Proof. apply list_byte_of_string_of_list_byte. Qed.

(** The text of decrypted bytes is what 'utf8' reads of them. *)
Lemma text_utf8_decode (l : list byte) : text (utf8_decode l) = Unicode.decode l.
Proof.
  unfold text, utf8_decode. now rewrite list_byte_of_string_of_list_byte.
Qed.

Lemma Ok_inj {A : Type} (a b : A) : Ok a = Ok b -> a = b.
Proof. intros H. now injection H. Qed.

(** What encryptSSN stores for a string, and what decryptSSN reads of it:
    the text of the UTF-8 form. *)
Lemma encrypt_decrypt16 (env : option string) (P : string16) (g : rng) :
  exists ct : list byte,
    fst (encryptSSN env P g)
    = Ok (to_hex (fst (randomBytes 16 g)) ++ ":" ++ to_hex ct)
    /\ decryptSSN env (to_hex (fst (randomBytes 16 g)) ++ ":" ++ to_hex ct)
       = Ok (text (utf8_form P)).
Proof.
  destruct (Encryption.encrypt_decrypt env (utf8_form P) g) as [ct [E D]].
  exists ct. split; [exact E|]. unfold decryptSSN. now rewrite D.
Qed.

(** C1 (amended). For every key source, every plaintext without unpaired
    surrogates and every state of the random source, encryptSSN returns a
    stored string, and decryptSSN of that string under the same key returns
    the plaintext: decrypt(encrypt(P,K),K) = P whatever IV is drawn. *)
Theorem round_trip_without_unpaired_surrogates
        (env : option string) (P : string16) (g : rng) :
  well_formed P = true ->
  exists stored,
    fst (encryptSSN env P g) = Ok stored /\ decryptSSN env stored = Ok P.
Proof.
  intros H. destruct (encrypt_decrypt16 env P g) as [ct [E D]].
  eexists. split; [exact E|]. now rewrite D, (text_utf8_form P H).
Qed.

Lemma round_trip_without_unpaired_surrogates_witness :
  well_formed (of_string "123456789") = true
  /\ exists stored,
       fst (encryptSSN None (of_string "123456789") Encryption.counting_stream)
       = Ok stored
       /\ decryptSSN None stored = Ok (of_string "123456789").
Proof.
  split; [reflexivity|].
  exact (round_trip_without_unpaired_surrogates
           None (of_string "123456789") Encryption.counting_stream eq_refl).
Defined.

(** C1 (counterexample). The string of the single code unit D800, an
    unpaired surrogate, is written as U+FFFD in UTF-8: what decryptSSN
    returns for its stored string is the string of the code unit FFFD, not
    the plaintext. *)
Lemma unpaired_surrogate_is_not_read_back :
  Unicode.encode [0xD800%N] = [xef; xbf; xbd]
  /\ (exists stored,
        fst (encryptSSN None [0xD800%N] Encryption.counting_stream) = Ok stored
        /\ decryptSSN None stored = Ok [0xFFFD%N])
  /\ [0xFFFD%N] <> [0xD800%N].
Proof.
  split; [reflexivity|split; [|discriminate]].
  destruct (encrypt_decrypt16 None [0xD800%N] Encryption.counting_stream)
    as [ct [E D]].
  eexists. split; [exact E|]. rewrite D. reflexivity.
Qed.

(** C6 (amended). Each call of encryptSSN reads sixteen fresh bytes of the
    random source as its IV and returns hex(IV) ++ ":" ++ hex(ciphertext);
    when the IVs of two successive calls on the same plaintext differ, the
    two stored strings differ; and for a plaintext without unpaired
    surrogates both decrypt to the plaintext. *)
Theorem fresh_iv_gives_distinct_stored_strings
        (env : option string) (P : string16) (g : rng) :
  fst (randomBytes 16 g) <> fst (randomBytes 16 (snd (encryptSSN env P g))) ->
  exists ct1 ct2 : list byte,
    let iv1 := fst (randomBytes 16 g) in
    let iv2 := fst (randomBytes 16 (snd (encryptSSN env P g))) in
    fst (encryptSSN env P g) = Ok (to_hex iv1 ++ ":" ++ to_hex ct1)
    /\ fst (encryptSSN env P (snd (encryptSSN env P g)))
       = Ok (to_hex iv2 ++ ":" ++ to_hex ct2)
    /\ List.length iv1 = 16 /\ List.length iv2 = 16
    /\ cursor (snd (encryptSSN env P g)) = cursor g + 16
    /\ to_hex iv1 ++ ":" ++ to_hex ct1 <> to_hex iv2 ++ ":" ++ to_hex ct2
    /\ (well_formed P = true ->
        decryptSSN env (to_hex iv1 ++ ":" ++ to_hex ct1) = Ok P
        /\ decryptSSN env (to_hex iv2 ++ ":" ++ to_hex ct2) = Ok P).
Proof.
  intros Hiv.
  destruct (encrypt_decrypt16 env P g) as [ct1 [He1 Hd1]].
  destruct (encrypt_decrypt16 env P (snd (encryptSSN env P g)))
    as [ct2 [He2 Hd2]].
  exists ct1, ct2. cbv zeta.
  refine (conj He1 (conj He2 (conj _ (conj _ (conj _ (conj _ _)))))).
  - apply randomBytes_length.
  - apply randomBytes_length.
  - reflexivity.
  - intros H. apply Hiv. exact (Encryption.stored_iv_injective _ _ _ _ H).
  - intros W. now rewrite Hd1, Hd2, (text_utf8_form P W).
Qed.

Lemma counting_stream_ivs_differ (P : string16) :
  fst (randomBytes 16 Encryption.counting_stream)
  <> fst (randomBytes 16 (snd (encryptSSN None P Encryption.counting_stream))).
Proof. vm_compute. discriminate. Qed.

Lemma fresh_iv_gives_distinct_stored_strings_witness :
  fst (randomBytes 16 Encryption.counting_stream)
  <> fst (randomBytes 16
            (snd (encryptSSN None (of_string "123456789")
                    Encryption.counting_stream)))
  /\ well_formed (of_string "123456789") = true
  /\ exists stored1 stored2 : string,
       fst (encryptSSN None (of_string "123456789") Encryption.counting_stream)
       = Ok stored1
       /\ fst (encryptSSN None (of_string "123456789")
                 (snd (encryptSSN None (of_string "123456789")
                         Encryption.counting_stream)))
          = Ok stored2
       /\ stored1 <> stored2
       /\ decryptSSN None stored1 = Ok (of_string "123456789")
       /\ decryptSSN None stored2 = Ok (of_string "123456789").
Proof.
  split; [apply counting_stream_ivs_differ|split; [reflexivity|]].
  destruct (fresh_iv_gives_distinct_stored_strings
              None (of_string "123456789") Encryption.counting_stream
              (counting_stream_ivs_differ (of_string "123456789")))
    as [ct1 [ct2 [E1 [E2 [_ [_ [_ [N D]]]]]]]].
  destruct (D eq_refl) as [D1 D2].
  eexists. eexists.
  split; [exact E1|split; [exact E2|split; [exact N|split; [exact D1|exact D2]]]].
Defined.

(** C6 (counterexample). Two successive calls of encryptSSN on the string
    of the single code unit DFFF, an unpaired surrogate, return different
    stored strings, and both decrypt to the string of the code unit FFFD,
    not to the plaintext. *)
Lemma both_calls_on_an_unpaired_surrogate_decrypt_to_another_string :
  exists ct1 ct2 : list byte,
    let P := [0xDFFF%N] in
    let g := Encryption.counting_stream in
    let iv1 := fst (randomBytes 16 g) in
    let iv2 := fst (randomBytes 16 (snd (encryptSSN None P g))) in
    fst (encryptSSN None P g) = Ok (to_hex iv1 ++ ":" ++ to_hex ct1)
    /\ fst (encryptSSN None P (snd (encryptSSN None P g)))
       = Ok (to_hex iv2 ++ ":" ++ to_hex ct2)
    /\ to_hex iv1 ++ ":" ++ to_hex ct1 <> to_hex iv2 ++ ":" ++ to_hex ct2
    /\ decryptSSN None (to_hex iv1 ++ ":" ++ to_hex ct1) = Ok [0xFFFD%N]
    /\ decryptSSN None (to_hex iv2 ++ ":" ++ to_hex ct2) = Ok [0xFFFD%N]
    /\ [0xFFFD%N] <> P.
Proof.
  destruct (encrypt_decrypt16 None [0xDFFF%N] Encryption.counting_stream)
    as [ct1 [He1 Hd1]].
  destruct (encrypt_decrypt16 None [0xDFFF%N]
              (snd (encryptSSN None [0xDFFF%N] Encryption.counting_stream)))
    as [ct2 [He2 Hd2]].
  exists ct1, ct2. cbv zeta.
  refine (conj He1 (conj He2 (conj _ (conj Hd1 (conj Hd2 _))))).
  - intros H. apply (counting_stream_ivs_differ [0xDFFF%N]).
    exact (Encryption.stored_iv_injective _ _ _ _ H).
  - discriminate.
Qed.

(** X23. Two plaintexts without unpaired surrogates never share a stored
    string: if they differ, so do the strings that encryptSSN returns for
    them, in whatever states of the random source (even when the IVs are
    the same). *)
Theorem different_plaintexts_give_different_stored_strings
        (env : option string) (P P' : string16) (g g' : rng)
        (stored stored' : string) :
  well_formed P = true -> well_formed P' = true -> P <> P' ->
  fst (encryptSSN env P g) = Ok stored ->
  fst (encryptSSN env P' g') = Ok stored' ->
  stored <> stored'.
Proof.
  intros W W' N H H' S. subst stored'. apply N.
  destruct (encrypt_decrypt16 env P g) as [ct [E D]].
  destruct (encrypt_decrypt16 env P' g') as [ct' [E' D']].
  rewrite E in H. apply Ok_inj in H. rewrite H in D.
  rewrite E' in H'. apply Ok_inj in H'. rewrite H' in D'.
  rewrite D in D'. apply Ok_inj in D'.
  now rewrite (text_utf8_form P W), (text_utf8_form P' W') in D'.
Qed.

Lemma different_plaintexts_give_different_stored_strings_witness :
  of_string "123456789" <> of_string "987654321"
  /\ exists stored stored' : string,
       fst (encryptSSN None (of_string "123456789") Encryption.counting_stream)
       = Ok stored
       /\ fst (encryptSSN None (of_string "987654321") Encryption.counting_stream)
          = Ok stored'
       /\ stored <> stored'.
Proof.
  assert (N : of_string "123456789" <> of_string "987654321") by discriminate.
  split; [exact N|].
  destruct (encrypt_decrypt16 None (of_string "123456789")
              Encryption.counting_stream) as [ct [E _]].
  destruct (encrypt_decrypt16 None (of_string "987654321")
              Encryption.counting_stream) as [ct' [E' _]].
  eexists. eexists. split; [exact E|split; [exact E'|]].
  exact (different_plaintexts_give_different_stored_strings
           None (of_string "123456789") (of_string "987654321")
           Encryption.counting_stream Encryption.counting_stream _ _
           eq_refl eq_refl N E E').
Defined.

End Strings16.


(* ===================================================================== *)
(** ** components/FundingModal.tsx: the account-number and routing-number
       validators *)
(* ===================================================================== *)

Module Funding.
Local Open Scope string_scope.

Inductive FundingType : Type := card | bank.

(** What a react-hook-form validator returns: [true] or an error message. *)
Inductive Validation : Type :=
| valid
| invalid (message : string).

Definition is_valid (v : Validation) : bool :=
  match v with valid => true | invalid _ => false end.

(** *** Regular expressions *)

Definition in_range (lo hi c : ascii) : bool :=
  ((nat_of_ascii lo <=? nat_of_ascii c) && (nat_of_ascii c <=? nat_of_ascii hi))%nat.

(** [\d]: an ASCII digit. *)
Definition is_digit (c : ascii) : bool := in_range "0" "9" c.

(** [\s], for the ASCII range: tab, line feed, vertical tab, form feed,
    carriage return and space.  (JavaScript's [\s] also has U+00A0, U+FEFF
    and the other Unicode spaces, which are not ASCII.) *)
Definition is_space (c : ascii) : bool :=
  in_range "009" "013" c || Ascii.eqb c " ".

Fixpoint filter_string (keep : ascii -> bool) (s : string) : string :=
  match s with
  | EmptyString => EmptyString
  | String c s' =>
      if keep c then String c (filter_string keep s') else filter_string keep s'
  end.

Fixpoint all_chars (p : ascii -> bool) (s : string) : bool :=
  match s with
  | EmptyString => true
  | String c s' => p c && all_chars p s'
  end.

(** [value.replace(/[\s-]/g, '')]. *)
Definition remove_spaces_and_hyphens (value : string) : string :=
  filter_string (fun c => negb (is_space c || Ascii.eqb c "-")) value.

(** [/^\d{lo,hi}$/.test(s)]. *)
Definition digits_between (lo hi : nat) (s : string) : bool :=
  all_chars is_digit s
  && ((lo <=? String.length s) && (String.length s <=? hi))%nat.

(** A character class [[lo-hi]]; a literal character is the class [[c-c]]. *)
Definition class : Type := (ascii * ascii)%type.
Definition lit (c : ascii) : class := (c, c).
Definition digit_class : class := ("0", "9")%char.

(** [/^c1c2...cn/.test(s)] for a sequence of character classes. *)
Fixpoint starts_with (pattern : list class) (s : string) : bool :=
  match pattern, s with
  | [], _ => true
  | _ :: _, EmptyString => false
  | (lo, hi) :: pattern', String c s' =>
      in_range lo hi c && starts_with pattern' s'
  end.

(** *** validFormat *)

(** [parseInt(c)] and [Number(c)] on a character that passed [\d]. *)
Definition digit_value (c : ascii) : Z := Z.of_nat (nat_of_ascii c) - 48.

(** One turn of the Luhn loop, on [sum] and [isEven]. *)
Definition luhn_step (st : Z * bool) (c : ascii) : Z * bool :=
  let '(sum, isEven) := st in
  let digit := digit_value c in
  let digit :=
    if isEven
    then (let digit := digit * 2 in if digit >? 9 then digit - 9 else digit)%Z
    else digit in
  ((sum + digit)%Z, negb isEven).

(** The loop [for (i = cleaned.length - 1; i >= 0; i--)]. *)
Definition luhn_sum (cleaned : string) : Z :=
  fst (fold_left luhn_step (rev (list_ascii_of_string cleaned)) (0%Z, false)).

Definition validFormat (fundingType : FundingType) (value : string) : Validation :=
  match fundingType with
  | card =>
      let cleaned := remove_spaces_and_hyphens value in
      if negb (digits_between 13 19 cleaned)
      then invalid "Card number must be 13-19 digits"
      else if negb (luhn_sum cleaned mod 10 =? 0)%Z
           then invalid "Invalid card number"
           else valid
  | bank =>
      if negb (digits_between 4 17 value)
      then invalid "Account number must be 4-17 digits"
      else valid
  end.

(** *** validCardType *)

Definition validCardType (fundingType : FundingType) (value : string) : Validation :=
  match fundingType with
  | bank => valid
  | card =>
      let cleaned := remove_spaces_and_hyphens value in
      (* Visa: starts with 4 *)
      if starts_with [lit "4"] cleaned then valid
      (* Mastercard: starts with 51-55 or 2221-2720 *)
      else if starts_with [lit "5"; ("1", "5")%char] cleaned then valid
      else if starts_with [lit "2"; lit "2"; ("2", "9")%char; digit_class] cleaned
              || starts_with [lit "2"; ("3", "6")%char; digit_class; digit_class] cleaned
              || starts_with [lit "2"; lit "7"; ("0", "1")%char; digit_class] cleaned
              || starts_with [lit "2"; lit "7"; lit "2"; lit "0"] cleaned
           then valid
      (* American Express: starts with 34 or 37 *)
      else if starts_with [lit "3"; lit "4"] cleaned
              || starts_with [lit "3"; lit "7"] cleaned
           then valid
      (* Discover: starts with 6011, 622126-622925, 644-649, 65 *)
      else if starts_with [lit "6"; lit "0"; lit "1"; lit "1"] cleaned then valid
      else if starts_with [lit "6"; lit "2"; lit "2"; lit "1"; lit "2"; ("6", "9")%char]
                          cleaned then valid
      else if starts_with [lit "6"; lit "2"; lit "2"; lit "9"; ("0", "1")%char; digit_class]
                          cleaned then valid
      else if starts_with [lit "6"; lit "2"; lit "2"; ("2", "8")%char; digit_class; digit_class]
                          cleaned then valid
      else if starts_with [lit "6"; lit "2"; lit "2"; lit "9"; lit "2"; ("0", "5")%char]
                          cleaned then valid
      else if starts_with [lit "6"; lit "4"; ("4", "9")%char] cleaned then valid
      else if starts_with [lit "6"; lit "5"] cleaned then valid
      else invalid "Card type not supported. We accept Visa, Mastercard, Amex, and Discover"
  end.

(** The accountNumber field is accepted when every validator returns true. *)
Definition accountNumber_accepted (fundingType : FundingType) (value : string) : bool :=
  is_valid (validFormat fundingType value)
  && is_valid (validCardType fundingType value).

(** *** validRoutingNumber *)

(** [digits[i]] of [value.split('').map(Number)]. *)
Definition digit_at (value : string) (i : nat) : Z :=
  match String.get i value with
  | Some c => digit_value c
  | None => 0
  end.

(** The optional routingNumber field: [None] is [undefined]; [!value] holds
    of [undefined] and of the empty string. *)
Definition validRoutingNumber (fundingType : FundingType) (value : option string)
  : Validation :=
  match fundingType with
  | card => valid
  | bank =>
      match value with
      | None => invalid "Routing number is required for bank transfers"
      | Some value =>
          if String.eqb value ""
          then invalid "Routing number is required for bank transfers"
          else if negb (digits_between 9 9 value)
          then invalid "Routing number must be exactly 9 digits"
          else
            let digits := digit_at value in
            let checksum :=
              (3 * (digits 0%nat + digits 3%nat + digits 6%nat)
               + 7 * (digits 1%nat + digits 4%nat + digits 7%nat)
               + 1 * (digits 2%nat + digits 5%nat + digits 8%nat))%Z in
            if negb (checksum mod 10 =? 0)%Z
            then invalid "Invalid routing number"
            else valid
      end
  end.

(** *** The specification's checks, in its own words *)

(** The digits of a string, left to right. *)
Definition digits_of (s : string) : list Z :=
  map digit_value (list_ascii_of_string s).

(** The digits of a string that consists of ASCII digits only. *)
Definition digit_string (s : string) : option (list Z) :=
  if all_chars is_digit s then Some (digits_of s) else None.

(** The Luhn sum of the specification: going from the rightmost digit
    (position 0) leftwards, every digit at an odd position is doubled, 9 is
    subtracted from a doubled digit that exceeds 9, and all are summed. *)
Definition luhn_term (position : nat) (d : Z) : Z :=
  if Nat.odd position then (if 2 * d >? 9 then 2 * d - 9 else 2 * d)%Z else d.

Fixpoint luhn_terms (position : nat) (from_right : list Z) : Z :=
  match from_right with
  | [] => 0
  | d :: ds => luhn_term position d + luhn_terms (S position) ds
  end%Z.

Definition luhn_spec_sum (digits : list Z) : Z := luhn_terms 0 (rev digits).

(** The specification's card brands and its prefix table. *)
Inductive Brand : Type := Visa | Mastercard | Amex | Discover | Unknown.

(** The number written by the first [n] characters, when they are digits. *)
Definition prefix_number (n : nat) (s : string) : option Z :=
  let p := substring 0 n s in
  if all_chars is_digit p && (String.length p =? n)%nat
  then Some (fold_left (fun acc d => 10 * acc + d)%Z (digits_of p) 0%Z)
  else None.

Definition prefix_in (n : nat) (lo hi : Z) (s : string) : bool :=
  match prefix_number n s with
  | Some v => ((lo <=? v) && (v <=? hi))%Z
  | None => false
  end.

Definition classifyCard_spec (digits : string) : Brand :=
  if prefix_in 1 4 4 digits then Visa
  else if prefix_in 2 51 55 digits || prefix_in 4 2221 2720 digits
       then Mastercard
  else if prefix_in 2 34 34 digits || prefix_in 2 37 37 digits then Amex
  else if prefix_in 4 6011 6011 digits || prefix_in 6 622126 622925 digits
          || prefix_in 3 644 649 digits || prefix_in 2 65 65 digits
       then Discover
  else Unknown.

Lemma fold_luhn_step (l : list ascii) :
  forall (sum : Z) (position : nat),
    fst (fold_left luhn_step l (sum, Nat.odd position))
    = (sum + luhn_terms position (map digit_value l))%Z.
Proof.
  induction l as [|c l IH]; intros sum position.
  - cbn. lia.
  - cbn [fold_left map luhn_terms]. unfold luhn_step at 2.
    rewrite Nat.negb_odd, <- Nat.odd_succ, IH.
    unfold luhn_term. rewrite (Z.mul_comm (digit_value c) 2).
    destruct (Nat.odd position); [|lia].
    destruct (2 * digit_value c >? 9)%Z; lia.
Qed.

(** The loop of validFormat computes the Luhn sum of the specification. *)
Lemma luhn_sum_spec (cleaned : string) :
  luhn_sum cleaned = luhn_spec_sum (digits_of cleaned).
Proof.
  unfold luhn_sum, luhn_spec_sum, digits_of.
  change (0%Z, false) with (0%Z, Nat.odd 0).
  now rewrite fold_luhn_step, map_rev.
Qed.

Lemma digits_between_spec (lo hi : nat) (s : string) :
  digits_between lo hi s = true
  <-> all_chars is_digit s = true /\ lo <= String.length s <= hi.
Proof.
  unfold digits_between.
  rewrite !andb_true_iff, !Nat.leb_le. tauto.
Qed.

(** C7 (counterexample). A card number written with spaces contains
    characters that are not digits, and validFormat accepts it. *)
Lemma spaced_card_number_is_accepted :
  all_chars is_digit "4532 0151 1283 0366" = false
  /\ validFormat card "4532 0151 1283 0366" = valid.
Proof. split; vm_compute; reflexivity. Qed.

(** C7 (amended). On an ASCII value, validFormat accepts a card number
    exactly when, once white space and hyphens are removed, it consists of
    13 to 19 digits whose Luhn sum is divisible by 10; any other character
    makes it invalid, with a message of its own; "4532015112830366" is valid
    and "4532015112830367" is not. *)
Theorem validFormat_card_spec (value : string) :
  JS.ascii_only value = true ->
  (validFormat card value = valid
   <-> all_chars is_digit (remove_spaces_and_hyphens value) = true
       /\ 13 <= String.length (remove_spaces_and_hyphens value) <= 19
       /\ (luhn_spec_sum (digits_of (remove_spaces_and_hyphens value)) mod 10 = 0)%Z)
  /\ (all_chars is_digit (remove_spaces_and_hyphens value) = false ->
      validFormat card value = invalid "Card number must be 13-19 digits")
  /\ validFormat card "4532015112830366" = valid
  /\ validFormat card "4532015112830367" = invalid "Invalid card number".
Proof.
  intros _.
  split; [|split; [|split; vm_compute; reflexivity]].
  - unfold validFormat. rewrite <- luhn_sum_spec.
    destruct (digits_between 13 19 (remove_spaces_and_hyphens value)) eqn:E;
      cbn [negb].
    + apply digits_between_spec in E. destruct E as [E1 E2].
      destruct (luhn_sum (remove_spaces_and_hyphens value) mod 10 =? 0)%Z eqn:L;
        cbn [negb].
      * apply Z.eqb_eq in L. tauto.
      * apply Z.eqb_neq in L. split; [discriminate|tauto].
    + split; [discriminate|]. intros [H1 [H2 _]].
      assert (digits_between 13 19 (remove_spaces_and_hyphens value) = true)
        by (apply digits_between_spec; tauto).
      congruence.
  - intros H. unfold validFormat, digits_between. now rewrite H.
Qed.

Lemma validFormat_card_spec_witness :
  JS.ascii_only "4532-0151 1283x0366" = true
  /\ all_chars is_digit (remove_spaces_and_hyphens "4532-0151 1283x0366") = false
  /\ validFormat card "4532-0151 1283x0366"
     = invalid "Card number must be 13-19 digits".
Proof.
  split; [reflexivity|split; [reflexivity|]].
  exact (proj1 (proj2 (validFormat_card_spec "4532-0151 1283x0366" eq_refl))
           eq_refl).
Defined.

Lemma digit_string_9 (v : string) (d0 d1 d2 d3 d4 d5 d6 d7 d8 : Z) :
  digit_string v = Some [d0; d1; d2; d3; d4; d5; d6; d7; d8] ->
  digits_between 9 9 v = true
  /\ String.eqb v "" = false
  /\ digit_at v 0 = d0 /\ digit_at v 1 = d1 /\ digit_at v 2 = d2
  /\ digit_at v 3 = d3 /\ digit_at v 4 = d4 /\ digit_at v 5 = d5
  /\ digit_at v 6 = d6 /\ digit_at v 7 = d7 /\ digit_at v 8 = d8.
Proof.
  unfold digit_string, digits_between.
  destruct (all_chars is_digit v) eqn:E; [|discriminate].
  do 9 (destruct v as [|? v]; [discriminate|]).
  destruct v; [|discriminate].
  intros H. cbn in H. injection H as <- <- <- <- <- <- <- <- <-.
  repeat split.
Qed.

Lemma digits_between_9 (v : string) :
  digits_between 9 9 v = true ->
  digit_string v
  = Some [digit_at v 0; digit_at v 1; digit_at v 2; digit_at v 3; digit_at v 4;
          digit_at v 5; digit_at v 6; digit_at v 7; digit_at v 8].
Proof.
  intros H. apply digits_between_spec in H. destruct H as [H1 H2].
  unfold digit_string. rewrite H1. clear H1.
  do 9 (destruct v as [|? v]; [cbn in H2; lia|]).
  destruct v; [reflexivity|cbn in H2; lia].
Qed.

(** C8. For a bank transfer, validRoutingNumber accepts a value exactly when
    it consists of nine ASCII digits d0..d8 with
    3(d0+d3+d6) + 7(d1+d4+d7) + (d2+d5+d8) divisible by 10; "021000021" is
    accepted and "123456789" is not. *)
Theorem validRoutingNumber_spec (value : string) :
  (validRoutingNumber bank (Some value) = valid
   <-> exists d0 d1 d2 d3 d4 d5 d6 d7 d8 : Z,
         digit_string value = Some [d0; d1; d2; d3; d4; d5; d6; d7; d8]
         /\ ((3 * (d0 + d3 + d6) + 7 * (d1 + d4 + d7) + 1 * (d2 + d5 + d8))
               mod 10 = 0)%Z)
  /\ validRoutingNumber bank (Some "021000021") = valid
  /\ validRoutingNumber bank (Some "123456789") = invalid "Invalid routing number".
Proof.
  split; [|split; vm_compute; reflexivity].
  unfold validRoutingNumber. split.
  - destruct (String.eqb value ""); [discriminate|].
    destruct (digits_between 9 9 value) eqn:E; cbn [negb]; [|discriminate].
    cbv zeta.
    match goal with
    | |- context [(?c mod 10 =? 0)%Z] => destruct (c mod 10 =? 0)%Z eqn:L
    end; cbn [negb]; [|discriminate].
    intros _. apply Z.eqb_eq in L.
    do 9 eexists. split; [apply (digits_between_9 value E)|exact L].
  - intros [d0 [d1 [d2 [d3 [d4 [d5 [d6 [d7 [d8 [Hd Hsum]]]]]]]]]].
    apply digit_string_9 in Hd.
    destruct Hd as [-> [-> [<- [<- [<- [<- [<- [<- [<- [<- <-]]]]]]]]]].
    cbn [negb]. cbv zeta.
    apply Z.eqb_eq in Hsum. now rewrite Hsum.
Qed.

(** C3. The prefix tests of validCardType differ from the ranges the
    specification (and the code's own comments) give: a number starting with
    2220, outside 2221-2720, is accepted, and a number starting with 622130,
    inside 622126-622925, is refused although its Luhn sum is right; a number
    with a right Luhn sum and the unknown prefix 99 is refused. *)
Theorem card_prefix_tests_miss_the_stated_ranges :
  (classifyCard_spec "2220000000000000" = Unknown
   /\ accountNumber_accepted card "2220000000000000" = true)
  /\ (classifyCard_spec "6221300000000004" = Discover
      /\ validFormat card "6221300000000004" = valid
      /\ accountNumber_accepted card "6221300000000004" = false)
  /\ (classifyCard_spec "9900000000000002" = Unknown
      /\ validFormat card "9900000000000002" = valid
      /\ accountNumber_accepted card "9900000000000002" = false).
Proof. vm_compute. repeat split. Qed.

End Funding.


(* ===================================================================== *)
(** ** The date-of-birth checks of the signup form and of the signup router *)
(* ===================================================================== *)

Module Signup.
Local Open Scope Z_scope.

(** A JavaScript number in this code is an integer or NaN. *)
Definition number : Type := option Z.
Definition NaN : number := None.

Definition sub (a b : number) : number :=
  match a, b with
  | Some x, Some y => Some (x - y)
  | _, _ => NaN
  end.

(** Comparisons with NaN are false. *)
Definition lt (a b : number) : bool :=
  match a, b with
  | Some x, Some y => x <? y
  | _, _ => false
  end.

Definition gt (a b : number) : bool := lt b a.

Definition strict_eq (a b : number) : bool :=
  match a, b with
  | Some x, Some y => x =? y
  | _, _ => false
  end.

(** A [Date] object, seen through the methods the code calls: its time
    value and its local year, month (0 to 11) and day of the month.  The
    date made from a string that does not parse is [Invalid_Date]. *)
Inductive Date : Type :=
| Invalid_Date
| Valid_Date (time fullYear month date : Z).

Definition valueOf (d : Date) : number :=
  match d with Valid_Date t _ _ _ => Some t | Invalid_Date => NaN end.
Definition getFullYear (d : Date) : number :=
  match d with Valid_Date _ y _ _ => Some y | Invalid_Date => NaN end.
Definition getMonth (d : Date) : number :=
  match d with Valid_Date _ _ m _ => Some m | Invalid_Date => NaN end.
Definition getDate (d : Date) : number :=
  match d with Valid_Date _ _ _ n => Some n | Invalid_Date => NaN end.

(** [exactAge]: the difference of the years, less one before the birthday. *)
Definition exactAge (dob today : Date) : number :=
  let age := sub (getFullYear today) (getFullYear dob) in
  let monthDiff := sub (getMonth today) (getMonth dob) in
  let dayDiff := sub (getDate today) (getDate dob) in
  if lt monthDiff (Some 0) || (strict_eq monthDiff (Some 0) && lt dayDiff (Some 0))
  then sub age (Some 1)
  else age.

(** The refinement of [dateOfBirth] in the signup router, where [dob] is
    [new Date(date)] and [today] is [new Date()]. *)
Definition dateOfBirth_refine (dob today : Date) : bool :=
  (* Check if future date *)
  if gt (valueOf dob) (valueOf today) then false
  else
    let age := sub (getFullYear today) (getFullYear dob) in
    let exactAge := exactAge dob today in
    (* Must be at least 18 *)
    if lt exactAge (Some 18) then false
    (* Reasonable age check *)
    else if gt age (Some 120) then false
    else true.

(** The three rules of the signup form: [true] for accepted. *)
Definition notFuture (selectedDate today : Date) : bool :=
  if gt (valueOf selectedDate) (valueOf today) then false else true.

Definition minimumAge (selectedDate today : Date) : bool :=
  if lt (exactAge selectedDate today) (Some 18) then false else true.

Definition reasonable (selectedDate today : Date) : bool :=
  let age := sub (getFullYear today) (getFullYear selectedDate) in
  if gt age (Some 120) then false else true.

(** *** The calendar, to speak of "one day later" *)

Definition is_leap (y : Z) : bool :=
  ((y mod 4 =? 0) && negb (y mod 100 =? 0)) || (y mod 400 =? 0).

(** The number of days of month [m] (0 to 11) of year [y]. *)
Definition days_in_month (y m : Z) : Z :=
  if m =? 1 then (if is_leap y then 29 else 28)
  else if (m =? 3) || (m =? 5) || (m =? 8) || (m =? 10) then 30
  else 31.

Definition calendar_day (y m d : Z) : Prop :=
  0 <= m <= 11 /\ 1 <= d <= days_in_month y m.

(** The day after the day [d] of month [m] of year [y]. *)
Definition next_day (y m d : Z) : Z * Z * Z :=
  if d <? days_in_month y m then (y, m, d + 1)
  else if m <? 11 then (y, m + 1, 1)
  else (y + 1, 0, 1).

(** The specification's age: the difference of the years, less one when the
    reference month and day come before the birth month and day. *)
Definition age_spec (yb mb db yt mt dt : Z) : Z :=
  yt - yb - (if (mt <? mb) || ((mt =? mb) && (dt <? db)) then 1 else 0).

Ltac compare_cases :=
  repeat match goal with
         | |- context [(?a <? ?b)%Z] => destruct (Z.ltb_spec a b)
         | |- context [(?a =? ?b)%Z] => destruct (Z.eqb_spec a b)
         | H : context [(?a <? ?b)%Z] |- _ => destruct (Z.ltb_spec a b)
         | H : context [(?a =? ?b)%Z] |- _ => destruct (Z.eqb_spec a b)
         end;
  cbn [orb andb negb] in *.

Lemma exactAge_spec (tb yb mb db tt yt mt dt : Z) :
  exactAge (Valid_Date tb yb mb db) (Valid_Date tt yt mt dt)
  = Some (age_spec yb mb db yt mt dt).
Proof.
  unfold exactAge, age_spec. cbn [getFullYear getMonth getDate sub lt strict_eq].
  compare_cases; f_equal; lia.
Qed.

Lemma dateOfBirth_refine_spec (tb yb mb db tt yt mt dt : Z) :
  dateOfBirth_refine (Valid_Date tb yb mb db) (Valid_Date tt yt mt dt)
  = (tb <=? tt) && (18 <=? age_spec yb mb db yt mt dt) && (yt - yb <=? 120).
Proof.
  unfold dateOfBirth_refine. rewrite exactAge_spec.
  cbn [valueOf getFullYear sub gt lt].
  generalize (age_spec yb mb db yt mt dt). intros a.
  destruct (Z.leb_spec tb tt), (Z.leb_spec 18 a), (Z.leb_spec (yt - yb) 120);
    compare_cases; try reflexivity; lia.
Qed.

(** C4. A birth date that does not parse gives an invalid Date, and every
    comparison with NaN is false: the router's refinement and the three rules
    of the form accept it, instead of returning a definite "invalid".  The
    funding validators do separate a malformed value from a checksum failure
    by their messages. *)
Theorem unparseable_birth_date_is_accepted (today : Date) :
  dateOfBirth_refine Invalid_Date today = true
  /\ notFuture Invalid_Date today = true
  /\ minimumAge Invalid_Date today = true
  /\ reasonable Invalid_Date today = true
  /\ Funding.validFormat Funding.card "4532-0151"
     = Funding.invalid "Card number must be 13-19 digits"
  /\ Funding.validFormat Funding.card "4532015112830367"
     = Funding.invalid "Invalid card number"
  /\ Funding.validRoutingNumber Funding.bank (Some "12345678x"%string)
     = Funding.invalid "Routing number must be exactly 9 digits"
  /\ Funding.validRoutingNumber Funding.bank (Some "123456789"%string)
     = Funding.invalid "Invalid routing number".
Proof. destruct today; repeat split. Qed.

(** C5 (counterexample). A birth date of 1 January 1900 is before the
    reference date 3 November 2025 and the computed age, 125, is at least 18,
    yet the check refuses it. *)
Lemma age_over_120_is_refused :
  let dob := Valid_Date (-2208988800000) 1900 0 1 in
  let today := Valid_Date 1762128000000 2025 10 3 in
  lt (valueOf today) (valueOf dob) = false
  /\ exactAge dob today = Some 125
  /\ dateOfBirth_refine dob today = false.
Proof. repeat split. Qed.

(** C5 (amended). For valid dates the check computes the age as the
    difference of the years, less one exactly when the reference (month, day)
    is before the birth (month, day); for a birth date that is not after the
    reference date it accepts if and only if this age is at least 18 and the
    difference of the years is at most 120; it refuses every birth date after
    the reference date; it accepts a birth date exactly 18 years before the
    reference date and refuses the day after that one.  The minimumAge rule
    of the form, taken alone, accepts if and only if the age is at least 18. *)
Theorem age_check_spec (tb yb mb db tt yt mt dt : Z) :
  let dob := Valid_Date tb yb mb db in
  let today := Valid_Date tt yt mt dt in
  exactAge dob today = Some (age_spec yb mb db yt mt dt)
  /\ (tb <= tt ->
      (dateOfBirth_refine dob today = true
       <-> 18 <= age_spec yb mb db yt mt dt /\ yt - yb <= 120))
  /\ (tt < tb -> dateOfBirth_refine dob today = false)
  /\ (tb <= tt -> yb = yt - 18 -> mb = mt -> db = dt ->
      dateOfBirth_refine dob today = true)
  /\ (calendar_day (yt - 18) mt dt ->
      (yb, mb, db) = next_day (yt - 18) mt dt ->
      dateOfBirth_refine dob today = false)
  /\ (minimumAge dob today = true <-> 18 <= age_spec yb mb db yt mt dt).
Proof.
  cbv zeta. split; [apply exactAge_spec|].
  rewrite dateOfBirth_refine_spec. unfold minimumAge. rewrite exactAge_spec.
  cbn [lt]. refine (conj _ (conj _ (conj _ (conj _ _)))).
  - intros H. apply Z.leb_le in H. rewrite H. cbn [andb].
    rewrite andb_true_iff, !Z.leb_le. tauto.
  - intros H. apply Z.leb_gt in H. now rewrite H.
  - intros H -> -> ->. unfold age_spec. apply Z.leb_le in H. rewrite H.
    rewrite Z.ltb_irrefl, Z.eqb_refl, Z.ltb_irrefl. cbn [orb andb].
    replace (yt - (yt - 18) - 0) with 18 by lia.
    replace (yt - (yt - 18)) with 18 by lia. reflexivity.
  - intros _ Hnext. unfold next_day in Hnext. unfold age_spec.
    destruct (dt <? days_in_month (yt - 18) mt) eqn:E1;
      [|destruct (mt <? 11) eqn:E2]; injection Hnext as -> -> ->.
    + rewrite Z.ltb_irrefl, Z.eqb_refl.
      replace (dt <? dt + 1) with true by (symmetry; apply Z.ltb_lt; lia).
      cbn [orb andb].
      replace (18 <=? yt - (yt - 18) - 1) with false
        by (symmetry; apply Z.leb_gt; lia).
      now rewrite andb_false_r.
    + replace (mt <? mt + 1) with true by (symmetry; apply Z.ltb_lt; lia).
      cbn [orb].
      replace (18 <=? yt - (yt - 18) - 1) with false
        by (symmetry; apply Z.leb_gt; lia).
      now rewrite andb_false_r.
    + apply Z.ltb_ge in E2.
      replace (mt <? 0) with false by (symmetry; apply Z.ltb_ge; lia).
      replace (mt =? 0) with false by (symmetry; apply Z.eqb_neq; lia).
      cbn [orb andb].
      replace (18 <=? yt - (yt - 18 + 1) - 0) with false
        by (symmetry; apply Z.leb_gt; lia).
      now rewrite andb_false_r.
  - generalize (age_spec yb mb db yt mt dt). intros a.
    destruct (Z.ltb_spec a 18); split; intros; try lia; try discriminate;
      reflexivity.
Qed.

End Signup.

From Stdlib Require Import Btauto.

(* ===================================================================== *)
(** ** More on utils/encryption.ts: the shape of what is stored, what
       decryptSSN reads of it, and what maskSSN shows *)
(* ===================================================================== *)

Module StoredFormat.
Import Bytes AES256 JS Crypto Encryption.
Local Open Scope string_scope.

(** Bytes that are ASCII characters: decoding them as 'utf8' gives the
    characters themselves. *)
Definition ascii_text (l : list byte) : bool :=
  forallb (fun b => (Byte.to_N b <? 128)%N) l.

(** Byte-wise xor of two buffers, up to the shorter one. *)
Fixpoint xor_bytes (a b : list byte) : list byte :=
  match a, b with
  | x :: a', y :: b' => bxor x y :: xor_bytes a' b'
  | _, _ => []
  end.

Lemma utf8_encode_length (s : string) :
  List.length (utf8_encode s) = String.length s.
Proof.
  unfold utf8_encode, list_byte_of_string.
  rewrite length_map. induction s as [|c s IH]; [reflexivity|].
  cbn [list_ascii_of_string List.length String.length]. now rewrite IH.
Qed.

Lemma append_length (s t : string) :
  String.length (s ++ t) = String.length s + String.length t.
Proof. induction s as [|c s IH]; cbn; [reflexivity|now rewrite IH]. Qed.

Lemma cbc_encrypt_length (k : key) (bs : list state) :
  forall chain, List.length (fst (cbc_encrypt k chain bs)) = List.length bs.
Proof.
  induction bs as [|b bs IH]; intros chain; [reflexivity|].
  cbn [cbc_encrypt].
  specialize (IH (encrypt_block k (xor_state b chain))).
  destruct (cbc_encrypt k (encrypt_block k (xor_state b chain)) bs) as [cs ch].
  cbn [fst List.length] in *. now rewrite IH.
Qed.

(** What a fresh cipher writes has one block more than the data has full
    blocks. *)
Lemma ciphertext_length (k : key) (v : state) (data : list byte) :
  let c0 := {| c_key := k; c_chain := v; c_buf := [] |} in
  List.length (fst (cipher_update c0 data)
                 ++ cipher_final (snd (cipher_update c0 data)))%list
  = 16 * (List.length data / 16 + 1).
Proof.
  cbv zeta. rewrite cipher_update_fresh. cbn [fst snd].
  destruct (to_blocks_length data) as [Hlen Hrest].
  destruct (to_blocks data) as [bs rest]. cbn [fst snd] in *.
  destruct (cipher_final_short k (snd (cbc_encrypt k v bs)) rest Hrest)
    as [p [_ ->]].
  rewrite length_app, !flatten_blocks_length, !cbc_encrypt_length.
  cbn [List.length].
  assert (List.length data / 16 = List.length bs) as ->.
  { rewrite Hlen, Nat.mul_comm, Nat.div_add_l by lia.
    rewrite (Nat.div_small _ 16 Hrest). lia. }
  lia.
Qed.

Lemma encryptSSN_stored_form (env : option string) (P : string) (g : rng) :
  exists ct : list byte,
    fst (encryptSSN env P g)
    = Ok (to_hex (fst (randomBytes 16 g)) ++ ":" ++ to_hex ct)
    /\ List.length ct = 16 * (String.length P / 16 + 1).
Proof.
  pose proof (randomBytes_length 16 g) as Hiv.
  unfold encryptSSN.
  destruct (randomBytes 16 g) as [iv g']. cbn [fst] in *.
  destruct (parse_key_iv_ok _ iv (ENCRYPTION_KEY_length env) Hiv)
    as [k [v [Hkv Hv]]].
  unfold createCipheriv, ALGORITHM. rewrite Hkv. cbn [bind].
  pose proof (ciphertext_length k v (utf8_encode P)) as Hlen. cbv zeta in Hlen.
  unfold cipher_update_utf8_hex, cipher_final_hex.
  destruct (cipher_update _ (utf8_encode P)) as [out c1]. cbn [fst snd] in *.
  exists (out ++ cipher_final c1)%list. split.
  - now rewrite to_hex_app.
  - now rewrite Hlen, utf8_encode_length.
Qed.


Lemma split_nonempty (c : ascii) (s : string) : split c s <> [].
Proof.
  destruct s as [|d s]; cbn [split]; [discriminate|].
  destruct (Ascii.eqb d c); [discriminate|].
  destruct (split c s); discriminate.
Qed.

Lemma split_app (c : ascii) (a b : string) :
  split c (a ++ String c b) = (split c a ++ split c b)%list.
Proof.
  induction a as [|d a IH]; cbn [append split].
  - now rewrite Ascii.eqb_refl.
  - destruct (Ascii.eqb d c); [now rewrite IH|].
    rewrite IH. pose proof (split_nonempty c a) as Hne.
    destruct (split c a) as [|p ps]; [now elim Hne|reflexivity].
Qed.

Lemma split_two (c : ascii) (s : string) :
  includes c s = true -> exists p q rest, split c s = p :: q :: rest.
Proof.
  induction s as [|d s IH]; cbn [includes split]; [discriminate|].
  destruct (Ascii.eqb d c); cbn [orb].
  - intros _. pose proof (split_nonempty c s) as Hne.
    destruct (split c s) as [|q rest]; [now elim Hne|]. now exists "", q, rest.
  - intros H. destruct (IH H) as [p [q [rest ->]]]. now exists (String d p), q, rest.
Qed.

Lemma decryptSSN_parts (env : option string) (s s' : string) :
  nth 0 (split ":" s) "" = nth 0 (split ":" s') "" ->
  nth_error (split ":" s) 1 = nth_error (split ":" s') 1 ->
  decryptSSN env s = decryptSSN env s'.
Proof. intros H0 H1. unfold decryptSSN. now rewrite H0, H1. Qed.

(** X2. decryptSSN reads the text before the first ':' and the text between
    the first and the second ':' only: whatever is appended after a further
    ':' changes nothing, neither the result nor the error. *)
Theorem text_after_second_colon_is_ignored
        (env : option string) (s junk : string) :
  includes ":" s = true ->
  decryptSSN env (s ++ ":" ++ junk) = decryptSSN env s.
Proof.
  intros H. apply decryptSSN_parts;
    change (s ++ ":" ++ junk) with (s ++ String ":" junk);
    rewrite split_app; destruct (split_two _ _ H) as [p [q [rest ->]]];
    reflexivity.
Qed.

Lemma text_after_second_colon_is_ignored_witness :
  includes ":" sample_stored = true
  /\ decryptSSN None (sample_stored ++ ":" ++ "anything") = decryptSSN None sample_stored.
Proof.
  split; [reflexivity|].
  exact (text_after_second_colon_is_ignored None sample_stored "anything" eq_refl).
Defined.

Lemma decryptSSN_bad_iv (env : option string) (s : string) :
  List.length (from_hex (nth 0 (split ":" s) "")) <> 16 ->
  decryptSSN env s = Throw ERR_CRYPTO_INVALID_IV.
Proof.
  intros H. unfold decryptSSN, createDecipheriv, parse_key_iv, ALGORITHM.
  rewrite String.eqb_refl. cbn [negb].
  destruct (key_of_bytes_32 _ (ENCRYPTION_KEY_length env)) as [k ->].
  now rewrite (state_of_bytes_None _ H).
Qed.

(** X3. maskSSN never shows more than four characters: whenever it returns
    an ASCII string for an ASCII value, the result is "***-**-" followed by
    at most four characters. *)
Theorem mask_shows_at_most_four (env : option string) (s m : string) :
  ascii_only s = true ->
  maskSSN env s = Ok m ->
  ascii_only m = true ->
  exists shown, m = "***-**-" ++ shown /\ String.length shown <= 4.
Proof.
  intros _. unfold maskSSN.
  destruct (if includes ":" s then decryptSSN env s else Ok s) as [d|e];
    cbn [bind]; [|discriminate].
  intros H _. injection H as <-. exists (slice (-4) d). split; [reflexivity|].
  rewrite slice_last_chars, last_chars_length. lia.
Qed.

Lemma mask_shows_at_most_four_witness :
  ascii_only sample_stored = true
  /\ maskSSN None sample_stored = Ok "***-**-6789"
  /\ ascii_only "***-**-6789" = true
  /\ exists shown, "***-**-6789" = "***-**-" ++ shown /\ String.length shown <= 4.
Proof.
  assert (H : maskSSN None sample_stored = Ok "***-**-6789")
    by (vm_compute; reflexivity).
  split; [reflexivity|split; [exact H|split; [reflexivity|]]].
  exact (mask_shows_at_most_four None sample_stored "***-**-6789"
           eq_refl H eq_refl).
Defined.

(** X4. A value that contains ':' is taken for a stored string: when what
    precedes its first ':' is not the hexadecimal form of 16 bytes, maskSSN
    throws the error of createDecipheriv instead of masking the value as
    legacy plaintext. *)
Theorem mask_of_text_with_colon_throws (env : option string) (s : string) :
  includes ":" s = true ->
  List.length (from_hex (nth 0 (split ":" s) "")) <> 16 ->
  maskSSN env s = Throw ERR_CRYPTO_INVALID_IV.
Proof.
  intros Hc Hiv. unfold maskSSN. rewrite Hc.
  now rewrite (decryptSSN_bad_iv env s Hiv).
Qed.

Lemma mask_of_text_with_colon_throws_witness :
  includes ":" "123:45:6789" = true
  /\ List.length (from_hex (nth 0 (split ":" "123:45:6789") "")) <> 16
  /\ maskSSN None "123:45:6789" = Throw ERR_CRYPTO_INVALID_IV.
Proof.
  assert (H : List.length (from_hex (nth 0 (split ":" "123:45:6789") "")) <> 16)
    by (vm_compute; discriminate).
  split; [reflexivity|split; [exact H|]].
  exact (mask_of_text_with_colon_throws None "123:45:6789" eq_refl H).
Defined.


(** *** The IV is not authenticated *)

Lemma bxor_swap (p v m : byte) : bxor (bxor p v) (bxor v m) = bxor p m.
Proof. now rewrite <- bxor_assoc, bxor_cancel_l. Qed.

Lemma xor_word_swap (p v m : word) :
  xor_word (xor_word p v) (xor_word v m) = xor_word p m.
Proof.
  destruct p as [[[p0 p1] p2] p3], v as [[[v0 v1] v2] v3],
           m as [[[m0 m1] m2] m3].
  unfold xor_word. now rewrite !bxor_swap.
Qed.

Lemma xor_state_swap (p v m : state) :
  xor_state (xor_state p v) (xor_state v m) = xor_state p m.
Proof.
  destruct p as [[[p0 p1] p2] p3], v as [[[v0 v1] v2] v3],
           m as [[[m0 m1] m2] m3].
  unfold xor_state. now rewrite !xor_word_swap.
Qed.

Lemma flatten_xor_state (a b : state) :
  flatten_state (xor_state a b) = xor_bytes (flatten_state a) (flatten_state b).
Proof.
  destruct a as [[[[[[a0 a1] a2] a3] [[[a4 a5] a6] a7]] [[[a8 a9] a10] a11]]
                   [[[a12 a13] a14] a15]],
           b as [[[[[[b0 b1] b2] b3] [[[b4 b5] b6] b7]] [[[b8 b9] b10] b11]]
                   [[[b12 b13] b14] b15]].
  reflexivity.
Qed.

Lemma flatten_state_inj (a b : state) :
  flatten_state a = flatten_state b -> a = b.
Proof.
  intros H. pose proof (to_blocks_flatten a []) as Ha.
  pose proof (to_blocks_flatten b []) as Hb.
  rewrite H in Ha. rewrite Ha in Hb. now injection Hb.
Qed.

Lemma xor_bytes_length (a b : list byte) :
  List.length (xor_bytes a b) = Nat.min (List.length a) (List.length b).
Proof.
  revert b. induction a as [|x a IH]; intros [|y b]; cbn [xor_bytes List.length];
    try reflexivity.
  now rewrite IH.
Qed.

Lemma xor_bytes_app (a a' b b' : list byte) :
  List.length a = List.length b ->
  xor_bytes (a ++ a') (b ++ b') = (xor_bytes a b ++ xor_bytes a' b')%list.
Proof.
  revert b. induction a as [|x a IH]; intros [|y b] H; try discriminate.
  - reflexivity.
  - cbn [app xor_bytes]. injection H as H. now rewrite (IH b H).
Qed.

Lemma xor_bytes_zeros (a : list byte) (n : nat) :
  List.length a = n -> xor_bytes a (repeat x00 n) = a.
Proof.
  revert n. induction a as [|x a IH]; intros [|n] H; try discriminate.
  - reflexivity.
  - cbn [repeat xor_bytes]. injection H as H. now rewrite bxor_0_r, (IH n H).
Qed.

Lemma parse_key_iv_inv (kb iv : list byte) (k : key) (v : state) :
  parse_key_iv "aes-256-cbc" kb iv = Ok (k, v) ->
  key_of_bytes kb = Some k /\ state_of_bytes iv = Some v.
Proof.
  unfold parse_key_iv. rewrite String.eqb_refl. cbn [negb].
  destruct (key_of_bytes kb) as [k'|]; [|discriminate].
  destruct (state_of_bytes iv) as [v'|]; [|discriminate].
  intros H. injection H as -> ->. now split.
Qed.

Lemma parse_key_iv_intro (kb iv : list byte) (k : key) (v : state) :
  key_of_bytes kb = Some k -> state_of_bytes iv = Some v ->
  parse_key_iv "aes-256-cbc" kb iv = Ok (k, v).
Proof.
  intros Hk Hv. unfold parse_key_iv. rewrite String.eqb_refl. cbn [negb].
  now rewrite Hk, Hv.
Qed.

Lemma state_of_bytes_flatten (v : state) : state_of_bytes (flatten_state v) = Some v.
Proof.
  destruct (state_of_bytes_16 _ (flatten_state_length v)) as [v' [H Hf]].
  apply flatten_state_inj in Hf. now subst v'.
Qed.

(** X5. The IV of a stored string is not protected.  For a plaintext
    shorter than one block, xoring the IV with a mask that touches only the
    first length(P) bytes gives a stored string that decryptSSN accepts
    without error, and its result is the plaintext xored with the mask
    (taken to be ASCII text, which the decoding leaves as it is). *)
Theorem iv_change_rewrites_plaintext
        (env : option string) (P : string) (g : rng) (mask : list byte) :
  String.length P < 16 ->
  List.length mask = String.length P ->
  ascii_text (xor_bytes (utf8_encode P) mask) = true ->
  exists ct : list byte,
    fst (encryptSSN env P g)
    = Ok (to_hex (fst (randomBytes 16 g)) ++ ":" ++ to_hex ct)
    /\ decryptSSN env
         (to_hex (xor_bytes (fst (randomBytes 16 g))
                            (mask ++ repeat x00 (16 - String.length P)))
            ++ ":" ++ to_hex ct)
       = Ok (utf8_decode (xor_bytes (utf8_encode P) mask)).
Proof.
  intros HP Hmask _. rewrite <- (utf8_encode_length P) in *.
  set (data := utf8_encode P) in *.
  pose proof (randomBytes_length 16 g) as Hiv.
  unfold encryptSSN, decryptSSN.
  destruct (randomBytes 16 g) as [iv g']. cbn [fst] in *.
  destruct (parse_key_iv_ok _ iv (ENCRYPTION_KEY_length env) Hiv)
    as [k [v [Hkv Hv]]].
  set (full := (mask ++ repeat x00 (16 - List.length data))%list).
  assert (Hfull : List.length full = 16)
    by (unfold full; rewrite length_app, repeat_length; lia).
  destruct (state_of_bytes_16 full Hfull) as [vm [_ Hvm]].
  assert (Hkv' : parse_key_iv "aes-256-cbc" (ENCRYPTION_KEY env) (xor_bytes iv full)
                 = Ok (k, xor_state v vm)).
  { apply parse_key_iv_intro; [exact (proj1 (parse_key_iv_inv _ _ _ _ Hkv))|].
    rewrite <- Hv, <- Hvm, <- flatten_xor_state. apply state_of_bytes_flatten. }
  rename HP into Hdata.
  unfold createCipheriv, createDecipheriv, ALGORITHM. rewrite Hkv. cbn [bind].
  unfold cipher_update_utf8_hex, cipher_final_hex. fold data.
  rewrite cipher_update_fresh, (to_blocks_short data Hdata).
  cbn [fst snd cbc_encrypt flatten_blocks flat_map].
  destruct (cipher_final_short k v data Hdata) as [p [Hp ->]].
  cbn [cbc_encrypt fst].
  set (c := encrypt_block k (xor_state p v)).
  exists (flatten_blocks [c]). split; [reflexivity|].
  change (to_hex (xor_bytes iv full) ++ ":" ++ to_hex (flatten_blocks [c]))
    with (to_hex (xor_bytes iv full) ++ String ":" (to_hex (flatten_blocks [c]))).
  rewrite split_at_sep by apply to_hex_no_colon.
  rewrite split_no_sep by apply to_hex_no_colon.
  cbn [nth nth_error]. rewrite from_hex_to_hex, Hkv'. cbn [bind].
  unfold decipher_update_hex_utf8. rewrite to_hex_even, from_hex_to_hex.
  assert (Hdec : cbc_decrypt k (xor_state v vm) ([] ++ [c])%list
                 = (([] ++ [xor_state p vm])%list, c)).
  { cbn [app cbc_decrypt]. unfold c.
    now rewrite decrypt_encrypt_block, xor_state_swap. }
  pose proof (decipher_update_fresh k (xor_state v vm) _ [] _ _ Hdec) as Hupd.
  cbn [app] in Hupd. rewrite Hupd.
  cbn [bind flatten_blocks flat_map]. unfold decipher_final_utf8, decipher_final.
  cbn [d_buf d_held].
  rewrite flatten_xor_state, Hp, Hvm. unfold full.
  rewrite xor_bytes_app by (now symmetry).
  unfold padding at 1.
  rewrite (xor_bytes_zeros _ _ (repeat_length _ _)).
  assert (Hx : List.length (xor_bytes data mask) = List.length data)
    by (rewrite xor_bytes_length; lia).
  fold (padding (List.length data)). rewrite <- Hx.
  rewrite unpad_padding by lia. reflexivity.
Qed.

Lemma iv_change_rewrites_plaintext_witness :
  String.length "123456789" < 16
  /\ List.length [x00; x00; x00; x00; x00; x00; x00; x00; x01]
     = String.length "123456789"
  /\ utf8_decode (xor_bytes (utf8_encode "123456789")
                             [x00; x00; x00; x00; x00; x00; x00; x00; x01])
     = "123456788"
  /\ exists ct : list byte,
       fst (encryptSSN None "123456789" counting_stream)
       = Ok (to_hex (fst (randomBytes 16 counting_stream)) ++ ":" ++ to_hex ct)
       /\ decryptSSN None
            (to_hex (xor_bytes (fst (randomBytes 16 counting_stream))
                               ([x00; x00; x00; x00; x00; x00; x00; x00; x01]
                                  ++ repeat x00 (16 - String.length "123456789")))
               ++ ":" ++ to_hex ct)
          = Ok (utf8_decode
                  (xor_bytes (utf8_encode "123456789")
                             [x00; x00; x00; x00; x00; x00; x00; x00; x01])).
Proof.
  assert (H1 : String.length "123456789" < 16) by (cbn; lia).
  split; [exact H1|split; [reflexivity|split; [reflexivity|]]].
  exact (iv_change_rewrites_plaintext None "123456789" counting_stream
           [x00; x00; x00; x00; x00; x00; x00; x00; x01] H1 eq_refl eq_refl).
Defined.


End StoredFormat.

(* ===================================================================== *)
(** ** More on components/FundingModal.tsx: what the checksums detect and
       which prefixes validCardType accepts *)
(* ===================================================================== *)

Module Checksums.
Import Funding.
Local Open Scope string_scope.

(** The character of a digit value. *)
Definition digit_char (d : nat) : ascii := ascii_of_nat (48 + d).

(** *** Characters and cleaning *)

Lemma is_digit_spec (c : ascii) :
  is_digit c = true <-> 48 <= nat_of_ascii c <= 57.
Proof.
  unfold is_digit, in_range.
  change (nat_of_ascii "0") with 48. change (nat_of_ascii "9") with 57.
  rewrite andb_true_iff, !Nat.leb_le. tauto.
Qed.

Lemma digit_value_range (c : ascii) :
  is_digit c = true -> (0 <= digit_value c <= 9)%Z.
Proof. intros H. apply is_digit_spec in H. unfold digit_value. lia. Qed.

Lemma digit_value_inj (c c' : ascii) :
  digit_value c = digit_value c' -> c = c'.
Proof.
  unfold digit_value. intros H.
  rewrite <- (ascii_nat_embedding c), <- (ascii_nat_embedding c').
  f_equal. lia.
Qed.

Lemma digit_is_kept (c : ascii) :
  is_digit c = true -> negb (is_space c || Ascii.eqb c "-") = true.
Proof.
  intros H. apply is_digit_spec in H.
  unfold is_space, in_range.
  change (nat_of_ascii "009") with 9. change (nat_of_ascii "013") with 13.
  replace (nat_of_ascii c <=? 13)%nat with false by (symmetry; apply Nat.leb_gt; lia).
  rewrite andb_false_r. cbn [orb].
  destruct (Ascii.eqb_spec c " ") as [->|_]; [cbn in H; lia|].
  destruct (Ascii.eqb_spec c "-") as [->|_]; [cbn in H; lia|].
  reflexivity.
Qed.

Lemma filter_string_app (keep : ascii -> bool) (a b : string) :
  filter_string keep (a ++ b) = filter_string keep a ++ filter_string keep b.
Proof.
  induction a as [|c a IH]; [reflexivity|]. cbn [append filter_string].
  destruct (keep c); [cbn [append]|]; now rewrite IH.
Qed.

Lemma clean_around_digit (a b : string) (c : ascii) :
  is_digit c = true ->
  remove_spaces_and_hyphens (a ++ String c b)
  = remove_spaces_and_hyphens a ++ String c (remove_spaces_and_hyphens b).
Proof.
  intros H. unfold remove_spaces_and_hyphens.
  rewrite filter_string_app. cbn [filter_string].
  now rewrite (digit_is_kept c H).
Qed.

Lemma all_chars_app (p : ascii -> bool) (a b : string) :
  all_chars p (a ++ b) = all_chars p a && all_chars p b.
Proof.
  induction a as [|c a IH]; [reflexivity|]. cbn [append all_chars].
  now rewrite IH, andb_assoc.
Qed.

Lemma digits_of_app (a b : string) :
  digits_of (a ++ b) = (digits_of a ++ digits_of b)%list.
Proof.
  unfold digits_of. rewrite <- map_app. f_equal.
  induction a as [|c a IH]; [reflexivity|]. cbn. now rewrite IH.
Qed.

(** *** The Luhn sum of a number around one of its digits *)

Lemma luhn_terms_app (l l' : list Z) :
  forall position,
    luhn_terms position (l ++ l')
    = (luhn_terms position l + luhn_terms (position + List.length l) l')%Z.
Proof.
  induction l as [|d l IH]; intros position.
  - cbn [app luhn_terms List.length]. rewrite Nat.add_0_r. lia.
  - cbn [app luhn_terms List.length]. rewrite IH.
    replace (S position + List.length l) with (position + S (List.length l)) by lia.
    lia.
Qed.

Lemma digits_of_length (s : string) :
  List.length (digits_of s) = String.length s.
Proof.
  unfold digits_of. rewrite length_map.
  induction s as [|x s IH]; cbn; [reflexivity|now rewrite IH].
Qed.

Lemma luhn_sum_around (a b : string) (c : ascii) :
  luhn_sum (a ++ String c b)
  = (luhn_terms 0 (rev (digits_of b))
     + luhn_term (String.length b) (digit_value c)
     + luhn_terms (S (String.length b)) (rev (digits_of a)))%Z.
Proof.
  rewrite luhn_sum_spec. unfold luhn_spec_sum.
  rewrite digits_of_app. change (digits_of (String c b))
    with (digit_value c :: digits_of b).
  rewrite rev_app_distr. cbn [rev]. rewrite <- app_assoc. cbn [app].
  rewrite luhn_terms_app. cbn [luhn_terms].
  rewrite !length_rev, !digits_of_length.
  cbn [Nat.add]. lia.
Qed.

(** A digit and its Luhn term determine each other. *)
Lemma luhn_term_range (position : nat) (d : Z) :
  (0 <= d <= 9 -> 0 <= luhn_term position d <= 9)%Z.
Proof.
  intros H. unfold luhn_term.
  destruct (Nat.odd position); [|lia].
  destruct (Z.gtb_spec (2 * d) 9); lia.
Qed.

Lemma luhn_term_inj (position : nat) (d d' : Z) :
  (0 <= d <= 9)%Z -> (0 <= d' <= 9)%Z ->
  luhn_term position d = luhn_term position d' -> d = d'.
Proof.
  intros H H'. unfold luhn_term.
  destruct (Nat.odd position); [|lia].
  destruct (Z.gtb_spec (2 * d) 9), (Z.gtb_spec (2 * d') 9); lia.
Qed.

Lemma validFormat_card_cases (value : string) :
  validFormat card value
  = if negb (digits_between 13 19 (remove_spaces_and_hyphens value))
    then invalid "Card number must be 13-19 digits"
    else if negb (luhn_sum (remove_spaces_and_hyphens value) mod 10 =? 0)%Z
         then invalid "Invalid card number"
         else valid.
Proof. reflexivity. Qed.

Lemma digits_between_swap (lo hi : nat) (a b : string) (c c' : ascii) :
  is_digit c = true -> is_digit c' = true ->
  digits_between lo hi (a ++ String c b) = digits_between lo hi (a ++ String c' b).
Proof.
  intros H H'. unfold digits_between.
  rewrite !all_chars_app, !StoredFormat.append_length. cbn [all_chars String.length].
  now rewrite H, H'.
Qed.

(** X6. The Luhn check of validFormat detects every single wrong digit: in
    an accepted card number, replacing any one digit by a different digit
    gives a number that is refused with "Invalid card number". *)
Theorem luhn_detects_one_wrong_digit (a b : string) (c c' : ascii) :
  is_digit c = true -> is_digit c' = true -> c <> c' ->
  validFormat card (a ++ String c b) = valid ->
  validFormat card (a ++ String c' b) = invalid "Invalid card number".
Proof.
  intros Hc Hc' Hneq. rewrite !validFormat_card_cases.
  rewrite !clean_around_digit by assumption.
  rewrite (digits_between_swap 13 19 _ _ c c' Hc Hc').
  destruct (digits_between 13 19 _); cbn [negb]; [|discriminate].
  rewrite !luhn_sum_around.
  set (A := luhn_terms 0 _). set (B := luhn_terms (S _) _).
  set (n := String.length (remove_spaces_and_hyphens b)).
  pose proof (luhn_term_range n _ (digit_value_range c Hc)) as R.
  pose proof (luhn_term_range n _ (digit_value_range c' Hc')) as R'.
  destruct (Z.eqb_spec ((A + luhn_term n (digit_value c) + B) mod 10) 0) as [E|E];
    cbn [negb]; [intros _|discriminate].
  destruct (Z.eqb_spec ((A + luhn_term n (digit_value c') + B) mod 10) 0) as [E'|E'];
    cbn [negb]; [exfalso|reflexivity].
  apply Hneq, digit_value_inj.
  apply (luhn_term_inj n); try (apply digit_value_range; assumption).
  clearbody A B.
  generalize dependent (luhn_term n (digit_value c)).
  generalize dependent (luhn_term n (digit_value c')). intros t' R' E' t R E.
  pose proof (Z.div_mod (A + t + B) 10 ltac:(lia)).
  pose proof (Z.div_mod (A + t' + B) 10 ltac:(lia)). lia.
Qed.

Lemma luhn_detects_one_wrong_digit_witness :
  is_digit "6" = true /\ is_digit "7" = true /\ "6"%char <> "7"%char
  /\ validFormat card ("453201511283036" ++ String "6" "") = valid
  /\ validFormat card ("453201511283036" ++ String "7" "")
     = invalid "Invalid card number".
Proof.
  assert (N : "6"%char <> "7"%char) by discriminate.
  split; [reflexivity|split; [reflexivity|split; [exact N|split; [reflexivity|]]]].
  exact (luhn_detects_one_wrong_digit "453201511283036" "" "6" "7"
           eq_refl eq_refl N eq_refl).
Defined.

Lemma clean_digits (s : string) :
  all_chars is_digit s = true -> remove_spaces_and_hyphens s = s.
Proof.
  unfold remove_spaces_and_hyphens.
  induction s as [|c s IH]; [reflexivity|]. cbn [all_chars filter_string].
  intros H. apply andb_prop in H. destruct H as [Hc Hs].
  now rewrite (digit_is_kept c Hc), (IH Hs).
Qed.

Lemma digit_char_spec (d : nat) :
  d < 10 -> is_digit (digit_char d) = true
            /\ digit_value (digit_char d) = Z.of_nat d.
Proof.
  intros H. unfold digit_char.
  assert (E : nat_of_ascii (ascii_of_nat (48 + d)) = 48 + d)
    by (apply nat_ascii_embedding; lia).
  split.
  - apply is_digit_spec. lia.
  - unfold digit_value. lia.
Qed.

(** X7. Every string of 12 to 18 digits has exactly one check digit: one
    and only one digit that, appended to it, gives a card number validFormat
    accepts. *)
Theorem luhn_check_digit_exists_and_is_unique (body : string) :
  all_chars is_digit body = true ->
  12 <= String.length body <= 18 ->
  exists c,
    is_digit c = true
    /\ validFormat card (body ++ String c "") = valid
    /\ forall c', is_digit c' = true ->
                  validFormat card (body ++ String c' "") = valid -> c' = c.
Proof.
  intros Hbody Hlen.
  set (B := luhn_terms 1 (rev (digits_of body))).
  assert (Hcases : forall c, is_digit c = true ->
            validFormat card (body ++ String c "")
            = if negb ((digit_value c + B) mod 10 =? 0)%Z
              then invalid "Invalid card number" else valid).
  { intros c Hc. rewrite validFormat_card_cases.
    rewrite clean_digits
      by (rewrite all_chars_app, Hbody; cbn [all_chars]; now rewrite Hc).
    replace (digits_between 13 19 (body ++ String c "")) with true.
    2:{ symmetry. apply digits_between_spec.
        rewrite all_chars_app, Hbody, StoredFormat.append_length. cbn [all_chars String.length].
        rewrite Hc. split; [reflexivity|lia]. }
    cbn [negb]. rewrite luhn_sum_around.
    cbn [digits_of list_ascii_of_string map rev luhn_terms String.length].
    unfold luhn_term. cbn [Nat.odd Nat.even]. fold B.
    now replace (0 + digit_value c + B)%Z with (digit_value c + B)%Z by lia. }
  set (d := Z.to_nat ((- B) mod 10)).
  assert (Hd : d < 10) by (unfold d; pose proof (Z.mod_pos_bound (- B) 10); lia).
  destruct (digit_char_spec d Hd) as [Hdig Hval].
  exists (digit_char d). split; [exact Hdig|split].
  - rewrite (Hcases _ Hdig), Hval.
    replace ((Z.of_nat d + B) mod 10 =? 0)%Z with true; [reflexivity|].
    symmetry. apply Z.eqb_eq. unfold d.
    rewrite Z2Nat.id by (pose proof (Z.mod_pos_bound (- B) 10); lia).
    rewrite Zplus_mod_idemp_l. replace (- B + B)%Z with 0%Z by lia. reflexivity.
  - intros c' Hc'. rewrite (Hcases _ Hc').
    destruct (Z.eqb_spec ((digit_value c' + B) mod 10) 0) as [E|E];
      cbn [negb]; [intros _|discriminate].
    apply digit_value_inj. rewrite Hval.
    pose proof (digit_value_range c' Hc') as R. unfold d.
    rewrite Z2Nat.id by (pose proof (Z.mod_pos_bound (- B) 10); lia).
    pose proof (Z.mod_pos_bound (- B) 10 ltac:(lia)).
    pose proof (Z.div_mod (- B) 10 ltac:(lia)).
    pose proof (Z.div_mod (digit_value c' + B) 10 ltac:(lia)). lia.
Qed.

Lemma luhn_check_digit_exists_and_is_unique_witness :
  all_chars is_digit "453201511283036" = true
  /\ 12 <= String.length "453201511283036" <= 18
  /\ exists c,
       is_digit c = true
       /\ validFormat card ("453201511283036" ++ String c "") = valid
       /\ forall c', is_digit c' = true ->
                     validFormat card ("453201511283036" ++ String c' "") = valid ->
                     c' = c.
Proof.
  assert (H : 12 <= String.length "453201511283036" <= 18) by (cbn; lia).
  split; [reflexivity|split; [exact H|]].
  exact (luhn_check_digit_exists_and_is_unique "453201511283036" eq_refl H).
Defined.

(** X8. Spaces and hyphens do not matter to the card validators: adding or
    removing one anywhere in the value changes the answer of neither
    validFormat nor validCardType. *)
Theorem separators_do_not_matter (a b : string) (c : ascii) :
  is_space c || Ascii.eqb c "-" = true ->
  validFormat card (a ++ String c b) = validFormat card (a ++ b)
  /\ validCardType card (a ++ String c b) = validCardType card (a ++ b).
Proof.
  intros H.
  assert (E : remove_spaces_and_hyphens (a ++ String c b)
              = remove_spaces_and_hyphens (a ++ b)).
  { unfold remove_spaces_and_hyphens. rewrite !filter_string_app.
    cbn [filter_string]. now rewrite H. }
  unfold validFormat, validCardType. rewrite E. split; reflexivity.
Qed.

Lemma separators_do_not_matter_witness :
  is_space " " || Ascii.eqb " " "-" = true
  /\ validFormat card ("4532" ++ String " " "015112830366")
     = validFormat card ("4532" ++ "015112830366")
  /\ validCardType card ("4532" ++ String " " "015112830366")
     = validCardType card ("4532" ++ "015112830366").
Proof.
  split; [reflexivity|].
  exact (separators_do_not_matter "4532" "015112830366" " " eq_refl).
Defined.


(** *** Transposed digits *)

Lemma luhn_sum_around_two (a b : string) (c1 c2 : ascii) :
  luhn_sum (a ++ String c1 (String c2 b))
  = (luhn_terms 0 (rev (digits_of b))
     + luhn_term (String.length b) (digit_value c2)
     + luhn_term (S (String.length b)) (digit_value c1)
     + luhn_terms (S (S (String.length b))) (rev (digits_of a)))%Z.
Proof.
  rewrite luhn_sum_around.
  change (digits_of (String c2 b)) with (digit_value c2 :: digits_of b).
  cbn [rev String.length]. rewrite luhn_terms_app.
  cbn [luhn_terms Nat.add]. rewrite length_rev, digits_of_length. lia.
Qed.

Lemma digits_between_swap_two (lo hi : nat) (a b : string) (c1 c2 : ascii) :
  digits_between lo hi (a ++ String c1 (String c2 b))
  = digits_between lo hi (a ++ String c2 (String c1 b)).
Proof.
  unfold digits_between.
  rewrite !all_chars_app, !StoredFormat.append_length. cbn [all_chars String.length].
  now destruct (is_digit c1), (is_digit c2).
Qed.

Lemma clean_around_two_digits (a b : string) (c1 c2 : ascii) :
  is_digit c1 = true -> is_digit c2 = true ->
  remove_spaces_and_hyphens (a ++ String c1 (String c2 b))
  = remove_spaces_and_hyphens a
    ++ String c1 (String c2 (remove_spaces_and_hyphens b)).
Proof.
  intros H1 H2. rewrite clean_around_digit by assumption. f_equal. f_equal.
  exact (clean_around_digit "" b c2 H2).
Qed.

Lemma digit_value_0 (c : ascii) : digit_value c = 0%Z <-> c = "0"%char.
Proof.
  split; [intros H; now apply digit_value_inj|now intros ->].
Qed.

Lemma digit_value_9 (c : ascii) : digit_value c = 9%Z <-> c = "9"%char.
Proof.
  split; [intros H; now apply digit_value_inj|now intros ->].
Qed.

(** The two orders of a pair of neighbouring digits give the same Luhn
    terms, modulo 10, only for equal digits and for the pair 0, 9. *)
Lemma luhn_pair (n : nat) (d1 d2 : Z) :
  (0 <= d1 <= 9)%Z -> (0 <= d2 <= 9)%Z ->
  ((luhn_term n d2 + luhn_term (S n) d1
    - (luhn_term n d1 + luhn_term (S n) d2)) mod 10 = 0)%Z
  <-> (d1 = d2 \/ (d1 = 0 /\ d2 = 9) \/ (d1 = 9 /\ d2 = 0))%Z.
Proof.
  intros R1 R2. unfold luhn_term. rewrite Nat.odd_succ, <- Nat.negb_odd.
  destruct (Nat.odd n); cbn [negb];
    destruct (Z.gtb_spec (2 * d1) 9), (Z.gtb_spec (2 * d2) 9);
    Z.div_mod_to_equations; lia.
Qed.

(** X9. Two neighbouring digits of an accepted card number written in the
    wrong order: the Luhn check of validFormat refuses the number, unless
    the two digits are equal or are 0 and 9, in which case it is accepted. *)
Theorem luhn_misses_only_the_swap_of_0_and_9 (a b : string) (c1 c2 : ascii) :
  is_digit c1 = true -> is_digit c2 = true ->
  validFormat card (a ++ String c1 (String c2 b)) = valid ->
  validFormat card (a ++ String c2 (String c1 b))
  = if Ascii.eqb c1 c2
       || (Ascii.eqb c1 "0" && Ascii.eqb c2 "9")
       || (Ascii.eqb c1 "9" && Ascii.eqb c2 "0")
    then valid
    else invalid "Invalid card number".
Proof.
  intros H1 H2. rewrite !validFormat_card_cases.
  rewrite !clean_around_two_digits by assumption.
  rewrite (digits_between_swap_two 13 19 _ _ c1 c2).
  destruct (digits_between 13 19 _); cbn [negb]; [|discriminate].
  rewrite !luhn_sum_around_two.
  set (A := luhn_terms 0 _). set (B := luhn_terms (S (S _)) _).
  set (n := String.length (remove_spaces_and_hyphens b)).
  pose proof (digit_value_range c1 H1) as R1.
  pose proof (digit_value_range c2 H2) as R2.
  pose proof (luhn_pair n _ _ R1 R2) as P.
  rewrite digit_value_0, digit_value_9 in P.
  rewrite digit_value_0, digit_value_9 in P.
  assert (Q : Ascii.eqb c1 c2
              || (Ascii.eqb c1 "0" && Ascii.eqb c2 "9")
              || (Ascii.eqb c1 "9" && Ascii.eqb c2 "0") = true
              <-> (digit_value c1 = digit_value c2
                   \/ (c1 = "0" /\ c2 = "9") \/ (c1 = "9" /\ c2 = "0"))%char).
  { rewrite !orb_true_iff, !andb_true_iff, !Ascii.eqb_eq.
    split; [intros [[->|H]|H]; tauto|].
    intros [H|H]; [left; left; now apply digit_value_inj|tauto]. }
  rewrite <- Q in P. clear Q.
  destruct (Ascii.eqb c1 c2 || _ || _).
  - destruct P as [_ P]. specialize (P eq_refl).
    clearbody A B. revert P.
    generalize (luhn_term n (digit_value c1)), (luhn_term n (digit_value c2)),
      (luhn_term (S n) (digit_value c1)), (luhn_term (S n) (digit_value c2)).
    intros t1 t2 u1 u2 P.
    destruct (Z.eqb_spec ((A + t2 + u1 + B) mod 10) 0) as [E|E];
      cbn [negb]; [intros _|discriminate].
    destruct (Z.eqb_spec ((A + t1 + u2 + B) mod 10) 0) as [E'|E'];
      cbn [negb]; [reflexivity|exfalso].
    apply E'. revert P E. Z.div_mod_to_equations. lia.
  - destruct P as [P _].
    clearbody A B. revert P.
    generalize (luhn_term n (digit_value c1)), (luhn_term n (digit_value c2)),
      (luhn_term (S n) (digit_value c1)), (luhn_term (S n) (digit_value c2)).
    intros t1 t2 u1 u2 P.
    destruct (Z.eqb_spec ((A + t2 + u1 + B) mod 10) 0) as [E|E];
      cbn [negb]; [intros _|discriminate].
    destruct (Z.eqb_spec ((A + t1 + u2 + B) mod 10) 0) as [E'|E'];
      cbn [negb]; [exfalso|reflexivity].
    assert (F : false = true); [|discriminate F].
    apply P. revert E E'. Z.div_mod_to_equations. lia.
Qed.

Lemma luhn_misses_only_the_swap_of_0_and_9_witness :
  is_digit "0" = true /\ is_digit "9" = true
  /\ validFormat card ("45320151128" ++ String "0" (String "9" "006")) = valid
  /\ validFormat card ("45320151128" ++ String "9" (String "0" "006")) = valid.
Proof.
  split; [reflexivity|split; [reflexivity|split; [reflexivity|]]].
  exact (luhn_misses_only_the_swap_of_0_and_9 "45320151128" "006" "0" "9"
           eq_refl eq_refl eq_refl).
Defined.

(** *** The routing number's checksum *)

Ltac nine_digits Hlen :=
  repeat match type of Hlen with
         | context [String.length ?s] =>
             is_var s; destruct s; cbn [String.length Nat.add] in Hlen; try lia
         end.

Ltac digit_ranges Hall :=
  cbn [append all_chars] in Hall;
  repeat match type of Hall with
         | (is_digit ?c && _)%bool = true =>
             let H := fresh "D" in
             apply andb_prop in Hall; destruct Hall as [H Hall];
             apply digit_value_range in H
         end.

Lemma validRoutingNumber_cases (value : string) :
  validRoutingNumber bank (Some value)
  = if String.eqb value ""
    then invalid "Routing number is required for bank transfers"
    else if negb (digits_between 9 9 value)
    then invalid "Routing number must be exactly 9 digits"
    else if negb ((3 * (digit_at value 0 + digit_at value 3 + digit_at value 6)
                   + 7 * (digit_at value 1 + digit_at value 4 + digit_at value 7)
                   + 1 * (digit_at value 2 + digit_at value 5 + digit_at value 8))
                  mod 10 =? 0)%Z
    then invalid "Invalid routing number"
    else valid.
Proof. reflexivity. Qed.

Lemma not_empty_around (a b : string) (c : ascii) :
  String.eqb (a ++ String c b) "" = false.
Proof. now destruct a. Qed.

(** X10. The checksum of validRoutingNumber detects every single wrong
    digit: in an accepted routing number, replacing any one digit by a
    different digit gives a number refused with "Invalid routing number". *)
Theorem aba_detects_one_wrong_digit (a b : string) (c c' : ascii) :
  is_digit c' = true -> c <> c' ->
  validRoutingNumber bank (Some (a ++ String c b)) = valid ->
  validRoutingNumber bank (Some (a ++ String c' b))
  = invalid "Invalid routing number".
Proof.
  intros Hc' Hneq. rewrite !validRoutingNumber_cases, !not_empty_around.
  destruct (digits_between 9 9 (a ++ String c b)) eqn:E; cbn [negb];
    [|discriminate].
  assert (Hc : is_digit c = true).
  { apply digits_between_spec in E. destruct E as [E _].
    rewrite all_chars_app in E. cbn [all_chars] in E.
    now destruct (is_digit c); [|rewrite andb_false_r in E]. }
  rewrite <- (digits_between_swap 9 9 a b c c' Hc Hc'), E. cbn [negb].
  assert (Hd : digit_value c <> digit_value c')
    by (intros H; now apply Hneq, digit_value_inj).
  apply digit_value_range in Hc, Hc'.
  apply digits_between_spec in E. destruct E as [Hall Hlen].
  rewrite all_chars_app in Hall. apply andb_prop in Hall.
  destruct Hall as [Ha Hb]. cbn [all_chars] in Hb. apply andb_prop in Hb.
  destruct Hb as [_ Hb].
  rewrite StoredFormat.append_length in Hlen. cbn [String.length] in Hlen.
  match goal with
  | |- (if negb (?x mod 10 =? 0)%Z then _ else _) = valid -> _ =>
      destruct (Z.eqb_spec (x mod 10) 0) as [V|V]; cbn [negb];
      [intros _|discriminate]
  end.
  match goal with
  | |- (if negb (?x mod 10 =? 0)%Z then _ else _) = _ =>
      destruct (Z.eqb_spec (x mod 10) 0) as [V'|V']; cbn [negb];
      [exfalso|reflexivity]
  end.
  revert V V'. unfold digit_at.
  nine_digits Hlen; cbn [append String.get];
    digit_ranges Ha; digit_ranges Hb;
    Z.div_mod_to_equations; lia.
Qed.

Lemma aba_detects_one_wrong_digit_witness :
  is_digit "2" = true /\ "1"%char <> "2"%char
  /\ validRoutingNumber bank (Some ("02100002" ++ String "1" "")) = valid
  /\ validRoutingNumber bank (Some ("02100002" ++ String "2" ""))
     = invalid "Invalid routing number".
Proof.
  assert (N : "1"%char <> "2"%char) by discriminate.
  split; [reflexivity|split; [exact N|split; [reflexivity|]]].
  exact (aba_detects_one_wrong_digit "02100002" "" "1" "2" eq_refl N eq_refl).
Defined.

Lemma not_empty_around_two (a b : string) (c1 c2 : ascii) :
  String.eqb (a ++ String c1 (String c2 b)) "" = false.
Proof. now destruct a. Qed.

(** X11. Two neighbouring digits of an accepted routing number written in
    the wrong order: the checksum of validRoutingNumber refuses the number,
    unless the two digits are equal or differ by 5, in which case it is
    accepted. *)
Theorem aba_misses_only_swaps_of_digits_five_apart
  (a b : string) (c1 c2 : ascii) :
  validRoutingNumber bank (Some (a ++ String c1 (String c2 b))) = valid ->
  validRoutingNumber bank (Some (a ++ String c2 (String c1 b)))
  = if Ascii.eqb c1 c2 || (Z.abs (digit_value c1 - digit_value c2) =? 5)%Z
    then valid
    else invalid "Invalid routing number".
Proof.
  rewrite !validRoutingNumber_cases, !not_empty_around_two.
  rewrite <- (digits_between_swap_two 9 9 a b c1 c2).
  destruct (digits_between 9 9 (a ++ String c1 (String c2 b))) eqn:E;
    cbn [negb]; [|discriminate].
  apply digits_between_spec in E. destruct E as [Hall Hlen].
  rewrite all_chars_app in Hall. apply andb_prop in Hall.
  destruct Hall as [Ha Hb]. cbn [all_chars] in Hb. apply andb_prop in Hb.
  destruct Hb as [H1 Hb]. apply andb_prop in Hb. destruct Hb as [H2 Hb].
  rewrite StoredFormat.append_length in Hlen. cbn [String.length] in Hlen.
  assert (Q : Ascii.eqb c1 c2 || (Z.abs (digit_value c1 - digit_value c2) =? 5)%Z
              = ((digit_value c1 - digit_value c2) mod 5 =? 0)%Z).
  { apply digit_value_range in H1, H2.
    destruct (Ascii.eqb_spec c1 c2) as [->|N]; cbn [orb].
    - now rewrite Z.sub_diag.
    - assert (digit_value c1 <> digit_value c2)
        by (intros H; now apply N, digit_value_inj).
      destruct (Z.eqb_spec (Z.abs (digit_value c1 - digit_value c2)) 5),
        (Z.eqb_spec ((digit_value c1 - digit_value c2) mod 5) 0);
        try reflexivity; exfalso; Z.div_mod_to_equations; lia. }
  rewrite Q. clear Q.
  apply digit_value_range in H1, H2.
  match goal with
  | |- (if negb (?x mod 10 =? 0)%Z then _ else _) = valid -> _ =>
      destruct (Z.eqb_spec (x mod 10) 0) as [V|V]; cbn [negb];
      [intros _|discriminate]
  end.
  revert V. unfold digit_at.
  nine_digits Hlen; cbn [append String.get];
    digit_ranges Ha; digit_ranges Hb; intros V;
    match goal with
    | |- (if negb (?x mod 10 =? 0)%Z then _ else _) = _ =>
        destruct (Z.eqb_spec (x mod 10) 0) as [V'|V'],
          (Z.eqb_spec ((digit_value c1 - digit_value c2) mod 5) 0) as [F|F]; cbn [negb];
        try reflexivity; exfalso; revert V V' F;
        Z.div_mod_to_equations; lia
    end.
Qed.

Lemma aba_misses_only_swaps_of_digits_five_apart_witness :
  validRoutingNumber bank (Some ("" ++ String "1" (String "6" "0000005"))) = valid
  /\ validRoutingNumber bank (Some ("" ++ String "6" (String "1" "0000005")))
     = valid.
Proof.
  split; [reflexivity|].
  exact (aba_misses_only_swaps_of_digits_five_apart "" "0000005" "1" "6" eq_refl).
Defined.

(** *** The prefixes validCardType accepts *)

Lemma is_valid_if (b : bool) (x : Validation) :
  is_valid (if b then valid else x) = b || is_valid x.
Proof. now destruct b. Qed.

Lemma substring_0_0 (t : string) : substring 0 0 t = "".
Proof. now destruct t. Qed.

(** Two adjacent ranges of prefixes make one range. *)
Lemma prefix_in_join (n : nat) (lo mid mid' hi : Z) (s : string) :
  (mid' = mid + 1)%Z -> (lo <= mid')%Z -> (mid <= hi)%Z ->
  prefix_in n lo mid s || prefix_in n mid' hi s = prefix_in n lo hi s.
Proof.
  intros -> H1 H2. unfold prefix_in.
  destruct (prefix_number n s) as [v|]; [|reflexivity].
  apply Bool.eq_true_iff_eq.
  rewrite orb_true_iff, !andb_true_iff, !Z.leb_le. lia.
Qed.

Ltac eval_char_codes :=
  repeat match goal with
         | |- context [nat_of_ascii (Ascii ?a ?b ?c ?d ?e ?f ?g ?h)] =>
             let v := eval vm_compute in (nat_of_ascii (Ascii a b c d e f g h)) in
             change (nat_of_ascii (Ascii a b c d e f g h)) with v
         end.

Section SixDigits.
Variables c0 c1 c2 c3 c4 c5 : ascii.
Variable t : string.
Hypothesis Hc0 : is_digit c0 = true.
Hypothesis Hc1 : is_digit c1 = true.
Hypothesis Hc2 : is_digit c2 = true.
Hypothesis Hc3 : is_digit c3 = true.
Hypothesis Hc4 : is_digit c4 = true.
Hypothesis Hc5 : is_digit c5 = true.
Hypothesis Ht : all_chars is_digit t = true.

Let s : string :=
  String c0 (String c1 (String c2 (String c3 (String c4 (String c5 t))))).

(** A test on the first characters against the range of numbers it stands
    for. *)
Ltac pattern_is_range :=
  unfold s, prefix_in, prefix_number;
  cbn [substring]; rewrite ?substring_0_0;
  cbn [all_chars String.length digits_of list_ascii_of_string map
       fold_left starts_with lit digit_class];
  rewrite ?Hc0, ?Hc1, ?Hc2, ?Hc3, ?Hc4, ?Hc5; cbn [andb Nat.eqb];
  pose proof (proj1 (is_digit_spec c0) Hc0);
  pose proof (proj1 (is_digit_spec c1) Hc1);
  pose proof (proj1 (is_digit_spec c2) Hc2);
  pose proof (proj1 (is_digit_spec c3) Hc3);
  pose proof (proj1 (is_digit_spec c4) Hc4);
  pose proof (proj1 (is_digit_spec c5) Hc5);
  unfold in_range, digit_value; eval_char_codes;
  apply Bool.eq_true_iff_eq;
  rewrite ?orb_true_iff, ?andb_true_iff, ?Nat.leb_le, ?Z.leb_le; lia.

Lemma visa_4 : starts_with [lit "4"] s = prefix_in 1 4 4 s.
Proof. pattern_is_range. Qed.

Lemma mastercard_5x :
  starts_with [lit "5"; ("1", "5")%char] s = prefix_in 2 51 55 s.
Proof. pattern_is_range. Qed.

Lemma mastercard_22x :
  starts_with [lit "2"; lit "2"; ("2", "9")%char; digit_class] s
  = prefix_in 4 2220 2299 s.
Proof. pattern_is_range. Qed.

Lemma mastercard_23_26 :
  starts_with [lit "2"; ("3", "6")%char; digit_class; digit_class] s
  = prefix_in 4 2300 2699 s.
Proof. pattern_is_range. Qed.

Lemma mastercard_270_271 :
  starts_with [lit "2"; lit "7"; ("0", "1")%char; digit_class] s
  = prefix_in 4 2700 2719 s.
Proof. pattern_is_range. Qed.

Lemma mastercard_2720 :
  starts_with [lit "2"; lit "7"; lit "2"; lit "0"] s = prefix_in 4 2720 2720 s.
Proof. pattern_is_range. Qed.

Lemma amex_34 : starts_with [lit "3"; lit "4"] s = prefix_in 2 34 34 s.
Proof. pattern_is_range. Qed.

Lemma amex_37 : starts_with [lit "3"; lit "7"] s = prefix_in 2 37 37 s.
Proof. pattern_is_range. Qed.

Lemma discover_6011 :
  starts_with [lit "6"; lit "0"; lit "1"; lit "1"] s = prefix_in 4 6011 6011 s.
Proof. pattern_is_range. Qed.

Lemma discover_62212x :
  starts_with [lit "6"; lit "2"; lit "2"; lit "1"; lit "2"; ("6", "9")%char] s
  = prefix_in 6 622126 622129 s.
Proof. pattern_is_range. Qed.

Lemma discover_6229_01 :
  starts_with [lit "6"; lit "2"; lit "2"; lit "9"; ("0", "1")%char; digit_class] s
  = prefix_in 6 622900 622919 s.
Proof. pattern_is_range. Qed.

Lemma discover_622_2_8 :
  starts_with [lit "6"; lit "2"; lit "2"; ("2", "8")%char; digit_class; digit_class] s
  = prefix_in 6 622200 622899 s.
Proof. pattern_is_range. Qed.

Lemma discover_62292x :
  starts_with [lit "6"; lit "2"; lit "2"; lit "9"; lit "2"; ("0", "5")%char] s
  = prefix_in 6 622920 622925 s.
Proof. pattern_is_range. Qed.

Lemma discover_64x :
  starts_with [lit "6"; lit "4"; ("4", "9")%char] s = prefix_in 3 644 649 s.
Proof. pattern_is_range. Qed.

Lemma discover_65 : starts_with [lit "6"; lit "5"] s = prefix_in 2 65 65 s.
Proof. pattern_is_range. Qed.

Lemma validCardType_six_digits :
  is_valid (validCardType card s)
  = prefix_in 1 4 4 s
    || prefix_in 2 51 55 s || prefix_in 4 2220 2720 s
    || prefix_in 2 34 34 s || prefix_in 2 37 37 s
    || prefix_in 4 6011 6011 s
    || prefix_in 6 622126 622129 s || prefix_in 6 622200 622925 s
    || prefix_in 3 644 649 s || prefix_in 2 65 65 s.
Proof.
  unfold validCardType.
  rewrite (clean_digits s)
    by (unfold s; cbn [all_chars]; rewrite Hc0, Hc1, Hc2, Hc3, Hc4, Hc5; exact Ht).
  rewrite !is_valid_if. cbn [is_valid].
  rewrite visa_4, mastercard_5x, mastercard_22x, mastercard_23_26,
    mastercard_270_271, mastercard_2720, amex_34, amex_37, discover_6011,
    discover_62212x, discover_6229_01, discover_622_2_8, discover_62292x,
    discover_64x, discover_65.
  rewrite <- (prefix_in_join 4 2220 2719 2720 2720 s) by lia.
  rewrite <- (prefix_in_join 4 2220 2699 2700 2719 s) by lia.
  rewrite <- (prefix_in_join 4 2220 2299 2300 2699 s) by lia.
  rewrite <- (prefix_in_join 6 622200 622919 622920 622925 s) by lia.
  rewrite <- (prefix_in_join 6 622200 622899 622900 622919 s) by lia.
  generalize (prefix_in 1 4 4 s), (prefix_in 2 51 55 s),
    (prefix_in 4 2220 2299 s), (prefix_in 4 2300 2699 s),
    (prefix_in 4 2700 2719 s), (prefix_in 4 2720 2720 s),
    (prefix_in 2 34 34 s), (prefix_in 2 37 37 s), (prefix_in 4 6011 6011 s),
    (prefix_in 6 622126 622129 s), (prefix_in 6 622900 622919 s),
    (prefix_in 6 622200 622899 s), (prefix_in 6 622920 622925 s),
    (prefix_in 3 644 649 s), (prefix_in 2 65 65 s).
  intros. btauto.
Qed.

End SixDigits.

(** X12. On a number of at least six digits, validCardType accepts exactly
    the prefixes 4; 51-55; 2220-2720; 34; 37; 6011; 622126-622129;
    622200-622925; 644-649; 65.  (2220 is accepted, and 622130-622199 is
    not.) *)
Theorem accepted_card_prefixes (s : string) :
  all_chars is_digit s = true ->
  6 <= String.length s ->
  is_valid (validCardType card s)
  = prefix_in 1 4 4 s
    || prefix_in 2 51 55 s || prefix_in 4 2220 2720 s
    || prefix_in 2 34 34 s || prefix_in 2 37 37 s
    || prefix_in 4 6011 6011 s
    || prefix_in 6 622126 622129 s || prefix_in 6 622200 622925 s
    || prefix_in 3 644 649 s || prefix_in 2 65 65 s.
Proof.
  intros Hs Hlen.
  destruct s as [|c0 [|c1 [|c2 [|c3 [|c4 [|c5 t]]]]]]; try (cbn in Hlen; lia).
  cbn [all_chars] in Hs.
  repeat (apply andb_prop in Hs; let H := fresh "H" in destruct Hs as [H Hs]).
  now apply validCardType_six_digits.
Qed.

Lemma accepted_card_prefixes_witness :
  all_chars is_digit "2220000000000000" = true
  /\ 6 <= String.length "2220000000000000"
  /\ is_valid (validCardType card "2220000000000000") = true.
Proof.
  assert (H : 6 <= String.length "2220000000000000") by (cbn; lia).
  split; [reflexivity|split; [exact H|]].
  rewrite (accepted_card_prefixes "2220000000000000" eq_refl H). reflexivity.
Defined.

End Checksums.

(* ===================================================================== *)
(** ** The signup form and the router's input checks: phone number,
       password and date of birth *)
(* ===================================================================== *)

Module SignupForm.
Import Funding Signup.
Local Open Scope string_scope.

(** ** Date of birth *)

(** The dateOfBirth field of the form is accepted when its three rules
    return true. *)
Definition dateOfBirth_accepted (selectedDate today : Date) : bool :=
  notFuture selectedDate today
  && minimumAge selectedDate today
  && reasonable selectedDate today.

(** ** Phone number *)

(** [value.replace(/[\s\-\(\)]/g, '')], with the white space of
    [Funding.is_space]. *)
Definition remove_phone_punctuation (value : string) : string :=
  filter_string
    (fun c => negb (is_space c || Ascii.eqb c "-" || Ascii.eqb c "("
                    || Ascii.eqb c ")"))
    value.

(** [parseInt(s)] for a string [s] of digits. *)
Definition parseInt (s : string) : Z :=
  fold_left (fun acc d => 10 * acc + d)%Z (digits_of s) 0%Z.

(** [/^\+\d{1,3}\d{7,14}$/.test(s)]: a plus sign, then one to three digits,
    then seven to fourteen digits. *)
Definition international (s : string) : bool :=
  match s with
  | String "+" rest =>
      existsb
        (fun k =>
           digits_between 1 3 (substring 0 k rest)
           && digits_between 7 14 (substring k (String.length rest - k) rest))
        (seq 0 (S (String.length rest)))
  | _ => false
  end.

(** The validFormat rule of the form's phoneNumber field. *)
Definition phone_validFormat (value : string) : Validation :=
  let cleaned := remove_phone_punctuation value in
  if digits_between 10 10 cleaned
  then
    let areaCode := parseInt (substring 0 3 cleaned) in
    (* Area code cannot start with 0 or 1 *)
    if (areaCode <? 200)%Z then invalid "Invalid area code"
    (* Area code cannot be in 900-999 range *)
    else if (areaCode >=? 900)%Z then invalid "Invalid area code"
    else valid
  (* International format *)
  else if international cleaned then valid
  else invalid "Enter a valid phone number".

(** The refinement of phoneNumber in the signup router. *)
Definition phoneNumber_refine (phone : string) : bool :=
  let cleaned := remove_phone_punctuation phone in
  (* US/Canada format (10 digits) *)
  if digits_between 10 10 cleaned
  then
    let areaCode := parseInt (substring 0 3 cleaned) in
    if (areaCode <? 200)%Z then false
    else if (areaCode >=? 900)%Z then false
    else true
  (* International format with country code *)
  else if international cleaned then true
  else false.

(** ** Password *)

Definition is_upper (c : ascii) : bool := in_range "A" "Z" c.
Definition is_lower (c : ascii) : bool := in_range "a" "z" c.

(** The class of hasSpecialChar: the twenty punctuation characters between
    its brackets, the double quote (code 34) among them. *)
Definition special_chars : list ascii :=
  ["!"; "@"; "#"; "$"; "%"; "^"; "&"; "*"; "("; ")"; ","; "."; "?"; "034";
   ":"; "{"; "}"; "|"; "<"; ">"]%char.

Definition is_special (c : ascii) : bool := existsb (Ascii.eqb c) special_chars.

(** [/[class]/.test(s)]: some character of [s] is in the class. *)
Fixpoint some_char (p : ascii -> bool) (s : string) : bool :=
  match s with
  | EmptyString => false
  | String c s' => p c || some_char p s'
  end.

(** [s.toLowerCase()], for ASCII text: the letters A to Z become a to z. *)
Definition to_lower (c : ascii) : ascii :=
  if is_upper c then ascii_of_nat (nat_of_ascii c + 32) else c.

Fixpoint toLowerCase (s : string) : string :=
  match s with
  | EmptyString => EmptyString
  | String c s' => String (to_lower c) (toLowerCase s')
  end.

(** [v || message] for a rule written as a boolean test. *)
Definition or_message (test : bool) (message : string) : Validation :=
  if test then valid else invalid message.

Definition commonPasswords : list string := ["password"; "12345678"; "qwerty"].

Definition notCommon (value : string) : Validation :=
  or_message (negb (existsb (String.eqb (toLowerCase value)) commonPasswords))
             "Password is too common".

Definition hasNumber (value : string) : Validation :=
  or_message (some_char is_digit value) "Password must contain a number".

Definition hasUppercase (value : string) : Validation :=
  or_message (some_char is_upper value)
             "Password must contain an uppercase letter".

Definition hasLowercase (value : string) : Validation :=
  or_message (some_char is_lower value)
             "Password must contain a lowercase letter".

Definition hasSpecialChar (value : string) : Validation :=
  or_message (some_char is_special value)
             "Password must contain a special character (!@#$%^&*...)".

(** The password field of the form: required, at least 8 characters, and
    the five rules. *)
Definition password_accepted (value : string) : bool :=
  negb (String.eqb value "")
  && (8 <=? String.length value)%nat
  && is_valid (notCommon value)
  && is_valid (hasNumber value)
  && is_valid (hasUppercase value)
  && is_valid (hasLowercase value)
  && is_valid (hasSpecialChar value).

(** The password of the signup router: [min(8)] and four refinements. *)
Definition password_refine (password : string) : bool :=
  (8 <=? String.length password)%nat
  && some_char is_digit password
  && some_char is_upper password
  && some_char is_lower password
  && some_char is_special password.

(** ** Properties *)

(** X13. The three rules of the form's dateOfBirth field, taken together,
    accept exactly the dates the router's refinement accepts: for every pair
    of dates, valid or not. *)
Theorem form_and_router_accept_the_same_birth_dates (dob today : Date) :
  dateOfBirth_accepted dob today = dateOfBirth_refine dob today.
Proof.
  unfold dateOfBirth_accepted, dateOfBirth_refine, notFuture, minimumAge,
    reasonable.
  destruct (gt (valueOf dob) (valueOf today)); [reflexivity|].
  destruct (lt (exactAge dob today) (Some 18%Z)); [reflexivity|].
  now destruct (gt _ _).
Qed.

Lemma substring_all (s : string) : substring 0 (String.length s) s = s.
Proof. induction s as [|c s IH]; cbn; [reflexivity|now rewrite IH]. Qed.

Lemma substring_length (s : string) :
  forall n m, n + m <= String.length s -> String.length (substring n m s) = m.
Proof.
  induction s as [|c s IH]; intros n m H.
  - cbn in H. assert (n = 0) by lia. assert (m = 0) by lia. now subst.
  - destruct n as [|n].
    + destruct m as [|m]; [reflexivity|].
      cbn [substring String.length]. f_equal.
      apply (IH 0 m). cbn [String.length] in H. lia.
    + cbn [substring]. apply IH. cbn [String.length] in H. lia.
Qed.

Lemma all_chars_substring (p : ascii -> bool) (s : string) :
  all_chars p s = true -> forall n m, all_chars p (substring n m s) = true.
Proof.
  induction s as [|c s IH]; intros H n m.
  - now destruct n, m.
  - cbn [all_chars] in H. apply andb_prop in H. destruct H as [Hc Hs].
    destruct n as [|n].
    + destruct m as [|m]; [reflexivity|].
      cbn [substring all_chars]. now rewrite Hc, (IH Hs 0 m).
    + cbn [substring]. now apply IH.
Qed.

Lemma substring_split (s : string) :
  forall k, k <= String.length s ->
            substring 0 k s ++ substring k (String.length s - k) s = s.
Proof.
  induction s as [|c s IH]; intros k H.
  - cbn in H. assert (k = 0) by lia. now subst.
  - destruct k as [|k].
    + rewrite Nat.sub_0_r.
      change (substring 0 0 (String c s)) with EmptyString.
      cbn [append]. apply substring_all.
    + cbn [substring append String.length Nat.sub]. f_equal. apply IH.
      cbn [String.length] in H. lia.
Qed.

(** The two quantifiers of the international pattern together ask for
    eight to seventeen digits: where the country code ends is not fixed. *)
Lemma international_spec (s : string) :
  international s
  = match s with
    | String "+" rest => digits_between 8 17 rest
    | _ => false
    end.
Proof.
  unfold international.
  destruct s as [|c rest]; [reflexivity|].
  destruct (Ascii.eqb_spec c "+") as [->|N].
  2:{ destruct c as [[] [] [] [] [] [] [] []]; try reflexivity. now elim N. }
  apply eq_true_iff_eq. rewrite existsb_exists, digits_between_spec. split.
  - intros [k [Hk H]]. apply in_seq in Hk.
    apply andb_prop in H. destruct H as [H1 H2].
    apply digits_between_spec in H1, H2.
    destruct H1 as [A1 L1], H2 as [A2 L2].
    rewrite <- (substring_split rest k) by lia.
    rewrite Checksums.all_chars_app, StoredFormat.append_length, A1, A2. split; [reflexivity|lia].
  - intros [A L].
    assert (K : exists k, 1 <= k <= 3 /\ 7 <= String.length rest - k <= 14
                          /\ k <= String.length rest).
    { destruct (Nat.le_gt_cases (String.length rest) 15);
        [exists 1|exists 3]; lia. }
    destruct K as [k [K1 [K2 K3]]]. exists k. split; [apply in_seq; lia|].
    apply andb_true_intro. split; apply digits_between_spec.
    + split; [now apply all_chars_substring|].
      rewrite substring_length; lia.
    + split; [now apply all_chars_substring|].
      rewrite substring_length; lia.
Qed.

Lemma area_code (c0 c1 c2 : ascii) (rest : string) :
  is_digit c0 = true -> is_digit c1 = true -> is_digit c2 = true ->
  (if (parseInt (substring 0 3 (String c0 (String c1 (String c2 rest)))) <? 200)%Z
   then false
   else if (parseInt (substring 0 3 (String c0 (String c1 (String c2 rest))))
            >=? 900)%Z
        then false else true)
  = in_range "2" "8" c0.
Proof.
  intros H0 H1 H2.
  assert (E : substring 0 3 (String c0 (String c1 (String c2 rest)))
              = String c0 (String c1 (String c2 ""))) by now destruct rest.
  rewrite E. unfold parseInt, digits_of. cbn [list_ascii_of_string map fold_left].
  unfold is_digit, in_range in *.
  apply andb_prop in H0, H1, H2.
  rewrite !Nat.leb_le in H0, H1, H2.
  change (nat_of_ascii "0") with 48 in *. change (nat_of_ascii "9") with 57 in *.
  change (nat_of_ascii "2") with 50. change (nat_of_ascii "8") with 56.
  unfold digit_value. rewrite Z.geb_leb.
  set (n0 := nat_of_ascii c0) in *. set (n1 := nat_of_ascii c1) in *.
  set (n2 := nat_of_ascii c2) in *. clearbody n0 n1 n2.
  match goal with
  | |- (if (?v <? 200)%Z then _ else _) = _ =>
      destruct (Z.ltb_spec v 200), (Z.leb_spec 900 v),
        (Nat.leb_spec 50 n0), (Nat.leb_spec n0 56)
  end; cbn [andb]; try reflexivity; exfalso; lia.
Qed.

Lemma ten_digits (s : string) :
  digits_between 10 10 s = true ->
  exists c0 c1 c2 rest,
    s = String c0 (String c1 (String c2 rest))
    /\ is_digit c0 = true /\ is_digit c1 = true /\ is_digit c2 = true.
Proof.
  intros H. apply digits_between_spec in H. destruct H as [A L].
  destruct s as [|c0 [|c1 [|c2 rest]]]; try (cbn in L; lia).
  cbn [all_chars] in A.
  apply andb_prop in A. destruct A as [A0 A].
  apply andb_prop in A. destruct A as [A1 A].
  apply andb_prop in A. destruct A as [A2 A].
  now exists c0, c1, c2, rest.
Qed.

(** What both checks of the phone number accept, once the punctuation is
    removed: ten digits of which the first is 2 to 8, or a plus sign and
    eight to seventeen digits. *)
Definition phone_shape (cleaned : string) : bool :=
  match cleaned with
  | String c rest =>
      (in_range "2" "8" c && digits_between 9 9 rest)
      || (Ascii.eqb c "+" && digits_between 8 17 rest)
  | EmptyString => false
  end.

Lemma phoneNumber_refine_shape (phone : string) :
  phoneNumber_refine phone = phone_shape (remove_phone_punctuation phone).
Proof.
  unfold phoneNumber_refine. cbv zeta.
  generalize (remove_phone_punctuation phone). intros s. destruct (digits_between 10 10 s) eqn:E.
  - destruct (ten_digits s E) as [c0 [c1 [c2 [rest [-> [H0 [H1 H2]]]]]]].
    rewrite (area_code c0 c1 c2 rest H0 H1 H2).
    unfold phone_shape.
    assert (P : Ascii.eqb c0 "+" = false).
    { apply Ascii.eqb_neq. intros ->. discriminate H0. }
    rewrite P. cbn [andb]. rewrite orb_false_r.
    assert (D : digits_between 9 9 (String c1 (String c2 rest)) = true).
    { apply digits_between_spec in E. destruct E as [E1 E2].
      cbn [all_chars String.length] in E1, E2. rewrite H0 in E1.
      apply digits_between_spec. split; [exact E1|cbn [String.length]; lia]. }
    rewrite D.
    now rewrite andb_true_r.
  - rewrite international_spec. unfold phone_shape.
    destruct s as [|c rest]; [reflexivity|].
    assert (Q : in_range "2" "8" c && digits_between 9 9 rest = false).
    { destruct (in_range "2" "8" c) eqn:R; [|reflexivity]. cbn [andb].
      destruct (digits_between 9 9 rest) eqn:D; [|reflexivity].
      assert (F : digits_between 10 10 (String c rest) = true); [|congruence].
      apply digits_between_spec in D. destruct D as [D1 D2].
      apply digits_between_spec. cbn [all_chars String.length].
      rewrite D1, andb_true_r. split; [|lia].
      unfold is_digit, in_range in *. apply andb_prop in R. destruct R as [R1 R2].
      apply Nat.leb_le in R1, R2.
      change (nat_of_ascii "2") with 50 in R1.
      change (nat_of_ascii "8") with 56 in R2.
      change (nat_of_ascii "0") with 48. change (nat_of_ascii "9") with 57.
      apply andb_true_intro. split; apply Nat.leb_le; lia. }
    rewrite Q. cbn [orb].
    destruct (Ascii.eqb_spec c "+") as [->|N];
      [now destruct (digits_between 8 17 rest)|].
    destruct c as [[] [] [] [] [] [] [] []]; try reflexivity. now elim N.
Qed.

(** X14. The phone check of the form and the one of the router accept the
    same values; on an ASCII value these are the values that, once white
    space, hyphens and parentheses are removed, are ten digits of which the
    first is 2 to 8, or a plus sign followed by eight to seventeen digits.
    "(202) 555-1234" and "+442079460958" are accepted, "123-555-1234" is
    not. *)
Theorem phone_checks_accept_the_same_numbers (value : string) :
  is_valid (phone_validFormat value) = phoneNumber_refine value
  /\ (JS.ascii_only value = true ->
      phoneNumber_refine value = phone_shape (remove_phone_punctuation value))
  /\ phoneNumber_refine "(202) 555-1234" = true
  /\ phoneNumber_refine "+442079460958" = true
  /\ phoneNumber_refine "123-555-1234" = false.
Proof.
  split; [|split; [intros _; apply phoneNumber_refine_shape
                  |repeat split; vm_compute; reflexivity]].
  unfold phone_validFormat, phoneNumber_refine.
  destruct (digits_between 10 10 _).
  - cbv zeta. destruct (_ <? 200)%Z; [reflexivity|].
    now destruct (_ >=? 900)%Z.
  - now destruct (international _).
Qed.

(** *** Password *)

Lemma to_lower_special (c : ascii) : is_special c = true -> to_lower c = c.
Proof.
  unfold is_special, special_chars. cbn [existsb].
  rewrite !orb_true_iff, !Ascii.eqb_eq.
  intros H. repeat (destruct H as [H|H]; [now subst|]). discriminate.
Qed.

Lemma toLowerCase_special (s : string) :
  some_char is_special s = true -> some_char is_special (toLowerCase s) = true.
Proof.
  induction s as [|c s IH]; [discriminate|].
  cbn [some_char toLowerCase]. intros H. apply orb_prop in H.
  destruct H as [H|H].
  - now rewrite (to_lower_special c H), H.
  - now rewrite IH, orb_true_r.
Qed.

(** A value that has one of the special characters is not, in lower case,
    one of the common passwords. *)
Lemma special_is_not_common (value : string) :
  some_char is_special value = true -> notCommon value = valid.
Proof.
  intros H. apply toLowerCase_special in H. unfold notCommon, commonPasswords.
  cbn [existsb].
  destruct (String.eqb_spec (toLowerCase value) "password") as [E|_];
    [rewrite E in H; discriminate H|].
  destruct (String.eqb_spec (toLowerCase value) "12345678") as [E|_];
    [rewrite E in H; discriminate H|].
  destruct (String.eqb_spec (toLowerCase value) "qwerty") as [E|_];
    [rewrite E in H; discriminate H|].
  reflexivity.
Qed.

(** X15. The form and the router accept the same passwords: the rule
    notCommon and the required flag of the form never decide, since a value
    that has a special character is none of the common passwords and a
    value of eight characters is not empty. *)
Theorem form_and_router_accept_the_same_passwords (value : string) :
  password_accepted value = password_refine value.
Proof.
  unfold password_accepted, password_refine, hasNumber, hasUppercase,
    hasLowercase, hasSpecialChar.
  destruct (Nat.leb_spec 8 (String.length value)) as [L|L].
  2:{ now rewrite andb_false_r. }
  assert (E : String.eqb value "" = false)
    by (destruct value; [cbn in L; lia|reflexivity]).
  rewrite E. cbn [negb andb].
  destruct (some_char is_special value) eqn:S.
  - rewrite (special_is_not_common value S). cbn [is_valid andb or_message].
    now destruct (some_char is_digit value), (some_char is_upper value),
      (some_char is_lower value).
  - cbn [or_message is_valid]. now rewrite !andb_false_r.
Qed.

End SignupForm.

(* ===================================================================== *)
(** ** The auth router: signup, login and logout *)
(* ===================================================================== *)

Module Auth.
Import JS Encryption.
Local Open Scope string_scope.

(** The fields of the signup input that the mutation only copies. *)
Record Details : Type := {
  firstName : string;
  lastName : string;
  phoneNumber : string;
  dateOfBirth : string;
  address : string;
  city : string;
  state : string;
  zipCode : string
}.

Record Input : Type := {
  input_email : string;
  input_password : string;
  input_ssn : string;
  input_details : Details
}.

(** A user: a row of the table [users], where the password is a string, or
    the user of a reply, where it is [undefined]. *)
Record UserOf (Password : Type) : Type := {
  id : Z;
  email : string;
  password : Password;
  ssn : string;
  details : Details
}.
Arguments id {Password} _.
Arguments email {Password} _.
Arguments password {Password} _.
Arguments ssn {Password} _.
Arguments details {Password} _.

Definition User : Type := UserOf string.

Inductive Undefined : Type := undefined.

(** [{ ...user, password: undefined }]. *)
Definition without_password (user : User) : UserOf Undefined :=
  {| id := id user; email := email user; password := undefined;
     ssn := ssn user; details := details user |}.

Record Session : Type := {
  userId : Z;
  token : string;
  expiresAt : string
}.

(** The two tables of the database, in the order of insertion. *)
Record Db : Type := {
  users : list User;
  sessions : list Session
}.

Inductive TRPCError : Type :=
| CONFLICT (message : string)
| INTERNAL_SERVER_ERROR (message : string)
| UNAUTHORIZED (message : string).

(** A mutation returns, throws a TRPCError, or lets an error of Node's
    crypto module through. *)
Inductive outcome (A : Type) : Type :=
| Returned (a : A)
| Thrown (e : TRPCError)
| Crashed (e : error).
Arguments Returned {A} a.
Arguments Thrown {A} e.
Arguments Crashed {A} e.

Record Reply : Type := {
  reply_user : UserOf Undefined;
  reply_token : string;
  set_cookie : string
}.

Record LogoutReply : Type := {
  success : bool;
  message : string;
  clear_cookie : string
}.

(** [db.select().from(users).where(eq(users.email, e)).get()]: the first
    row with this email, if any. *)
Definition select_user_by_email (e : string) (db : Db) : option User :=
  find (fun u => String.eqb (email u) e) (users db).

(** [db.delete(sessions).where(eq(sessions.userId, i))]. *)
Definition delete_sessions_of (i : Z) (db : Db) : Db :=
  {| users := users db;
     sessions := filter (fun s => negb (userId s =? i)%Z) (sessions db) |}.

(** [db.delete(sessions).where(eq(sessions.token, t))]. *)
Definition delete_session_with_token (t : string) (db : Db) : Db :=
  {| users := users db;
     sessions := filter (fun s => negb (String.eqb (token s) t)) (sessions db) |}.

Definition insert_session (s : Session) (db : Db) : Db :=
  {| users := users db; sessions := (sessions db ++ [s])%list |}.

Definition insert_user (u : User) (db : Db) : Db :=
  {| users := (users db ++ [u])%list; sessions := sessions db |}.

(** *** The cookie header *)

(** [s.split(sep)] for a separator of two characters. *)
Fixpoint split2 (c1 c2 : ascii) (s : string) : list string :=
  match s with
  | EmptyString => [EmptyString]
  | String d s' =>
      let keep :=
        match split2 c1 c2 s' with
        | p :: ps => String d p :: ps
        | [] => [String d EmptyString]
        end in
      match s' with
      | String e s'' =>
          if Ascii.eqb d c1 && Ascii.eqb e c2
          then EmptyString :: split2 c1 c2 s''
          else keep
      | EmptyString => keep
      end
  end.

(** [l.join(sep)]. *)
Fixpoint join (sep : string) (l : list string) : string :=
  match l with
  | [] => EmptyString
  | [x] => x
  | x :: l' => x ++ sep ++ join sep l'
  end.

(** [Object.fromEntries(cookieHeader.split("; ").filter(Boolean).map(...))],
    as the list of its entries. *)
Definition cookie_entries (cookieHeader : string) : list (string * string) :=
  map (fun c =>
         match split "=" c with
         | key :: val => (key, join "=" val)
         | [] => (EmptyString, EmptyString)
         end)
      (filter (fun c => negb (String.eqb c ""))
              (split2 ";" " " cookieHeader)).

(** [obj[k]] on the object made from a list of entries: the last entry
    with this key wins. *)
Definition property (k : string) (entries : list (string * string))
  : option string :=
  fold_left (fun found e => if String.eqb (fst e) k then Some (snd e) else found)
            entries None.

(** [cookiesObj.session], when it is a string that is not empty. *)
Definition session_token (cookieHeader : string) : option string :=
  match property "session" (cookie_entries cookieHeader) with
  | Some (String c t) => Some (String c t)
  | _ => None
  end.

(** Whether [c1] followed by [c2] occurs in [s]. *)
Fixpoint occurs2 (c1 c2 : ascii) (s : string) : bool :=
  match s with
  | String d s' =>
      match s' with
      | String e _ => (Ascii.eqb d c1 && Ascii.eqb e c2) || occurs2 c1 c2 s'
      | EmptyString => false
      end
  | EmptyString => false
  end.

(** The cookie header a client sends for a list of cookies: [name=value]
    pairs separated by a semicolon and a space. *)
Definition cookie_pair (cookie : string * string) : string :=
  fst cookie ++ "=" ++ snd cookie.

Definition cookie_header (cookies : list (string * string)) : string :=
  join "; " (map cookie_pair cookies).

(** A cookie whose name has no equals sign and whose pair has no semicolon
    followed by a space. *)
Definition plain_cookie (cookie : string * string) : Prop :=
  includes "=" (fst cookie) = false
  /\ occurs2 ";" " " (cookie_pair cookie) = false.

Section Mutations.

(** [process.env.ENCRYPTION_KEY]. *)
Variable env : option string.
(** [bcrypt.hash(password, 10)], which draws a salt. *)
Variable bcrypt_hash : string -> rng -> string * rng.
(** [bcrypt.compare(password, hash)]. *)
Variable bcrypt_compare : string -> string -> bool.
(** [jwt.sign({ userId }, secret, { expiresIn: "7d" })] at a given time. *)
Variable jwt_sign : Z -> Z -> string.
(** The ISO string of the date seven days after a given time. *)
Variable seven_days_later : Z -> string.
(** The id the database gives to a new row of [users]. *)
Variable new_id : list User -> Z.

(** The end of signup and of login: sign a token, delete the sessions of
    the user, insert the new one, set the cookie. *)
Definition create_session (user : User) (now : Z) (db : Db) : Reply * Db :=
  let token := jwt_sign (id user) now in
  let expiresAt := seven_days_later now in
  (* Invalidate any existing sessions for this user *)
  let db := delete_sessions_of (id user) db in
  let db := insert_session
              {| userId := id user; token := token; expiresAt := expiresAt |}
              db in
  ({| reply_user := without_password user;
      reply_token := token;
      set_cookie := "session=" ++ token
                    ++ "; Path=/; HttpOnly; SameSite=Strict; Max-Age=604800" |},
   db).

Definition signup (input : Input) (now : Z) (db : Db) (g : rng)
  : outcome Reply * Db * rng :=
  match select_user_by_email (input_email input) db with
  | Some existingUser => (Thrown (CONFLICT "User already exists"), db, g)
  | None =>
      let '(hashedPassword, g) := bcrypt_hash (input_password input) g in
      let '(encrypted, g) := encryptSSN env (input_ssn input) g in
      match encrypted with
      | Throw e => (Crashed e, db, g)
      | Ok encrypted =>
          let db :=
            insert_user
              {| id := new_id (users db);
                 email := input_email input;
                 password := hashedPassword;
                 ssn := encrypted; (* Encrypt SSN before storing *)
                 details := input_details input |}
              db in
          (* Fetch the created user *)
          match select_user_by_email (input_email input) db with
          | None =>
              (Thrown (INTERNAL_SERVER_ERROR "Failed to create user"), db, g)
          | Some user =>
              let '(reply, db) := create_session user now db in
              (Returned reply, db, g)
          end
      end
  end.

Definition login (input_email input_password : string) (now : Z) (db : Db)
  : outcome Reply * Db :=
  match select_user_by_email input_email db with
  | None => (Thrown (UNAUTHORIZED "Invalid credentials"), db)
  | Some user =>
      if negb (bcrypt_compare input_password (password user))
      then (Thrown (UNAUTHORIZED "Invalid credentials"), db)
      else
        let '(reply, db) := create_session user now db in
        (Returned reply, db)
  end.

(** [ctx_user] is the user of the request's context, if any, and
    [cookieHeader] the cookie header of the request (empty when absent). *)
Definition logout (ctx_user : option User) (cookieHeader : string) (db : Db)
  : LogoutReply * Db :=
  let token := session_token cookieHeader in
  let db :=
    match ctx_user, token with
    | Some _, Some token => delete_session_with_token token db
    | _, _ => db
    end in
  ({| success := true;
      message := match ctx_user with
                 | Some _ => "Logged out successfully"
                 | None => "No active session"
                 end;
      clear_cookie := "session=; Path=/; HttpOnly; SameSite=Strict; Max-Age=0" |},
   db).

(** The sessions of one user, and those of the others. *)
Definition sessions_of (i : Z) (db : Db) : list Session :=
  filter (fun s => (userId s =? i)%Z) (sessions db).

Definition sessions_of_others (i : Z) (db : Db) : list Session :=
  filter (fun s => negb (userId s =? i)%Z) (sessions db).

Lemma filter_filter_same {A : Type} (p : A -> bool) (l : list A) :
  filter p (filter p l) = filter p l.
Proof.
  induction l as [|x l IH]; [reflexivity|].
  cbn [filter]. destruct (p x) eqn:E; [|exact IH].
  cbn [filter]. now rewrite E, IH.
Qed.

Lemma filter_filter_none {A : Type} (p : A -> bool) (l : list A) :
  filter p (filter (fun x => negb (p x)) l) = [].
Proof.
  induction l as [|x l IH]; [reflexivity|].
  cbn [filter]. destruct (p x) eqn:E; cbn [negb]; [exact IH|].
  cbn [filter]. now rewrite E.
Qed.

Lemma create_session_sessions (user : User) (now : Z) (db : Db) :
  let s := {| userId := id user; token := jwt_sign (id user) now;
              expiresAt := seven_days_later now |} in
  users (snd (create_session user now db)) = users db
  /\ sessions (snd (create_session user now db))
     = (sessions_of_others (id user) db ++ [s])%list
  /\ sessions_of (id user) (snd (create_session user now db)) = [s]
  /\ sessions_of_others (id user) (snd (create_session user now db))
     = sessions_of_others (id user) db.
Proof.
  cbv zeta. unfold create_session, sessions_of, sessions_of_others.
  cbn [snd sessions users insert_session delete_sessions_of].
  rewrite !filter_app, filter_filter_none, filter_filter_same.
  cbn [filter userId]. rewrite Z.eqb_refl. cbn [negb].
  now rewrite app_nil_r.
Qed.

Lemma find_new_row {A : Type} (p : A -> bool) (l : list A) (x : A) :
  find p l = None -> p x = true -> find p (l ++ [x])%list = Some x.
Proof.
  induction l as [|y l IH]; cbn [find app]; intros H Hx.
  - now rewrite Hx.
  - destruct (p y); [discriminate|]. now apply IH.
Qed.

(** The stored form of an SSN: it decrypts to the SSN and differs from it. *)
Lemma encryptSSN_at_rest (P : string) (g : rng) :
  exists stored,
    encryptSSN env P g = (Ok stored, snd (randomBytes 16 g))
    /\ decryptSSN env stored = Ok P
    /\ includes ":" stored = true
    /\ stored <> P.
Proof.
  destruct (encrypt_decrypt env P g) as [ct [Henc Hdec]].
  destruct (StoredFormat.encryptSSN_stored_form env P g) as [ct' [Henc' Hlen]].
  exists (to_hex (fst (randomBytes 16 g)) ++ ":" ++ to_hex ct).
  split; [|split; [exact Hdec|split; [apply stored_includes_colon|]]].
  - rewrite (surjective_pairing (encryptSSN env P g)), Henc.
    now rewrite encryptSSN_rng.
  - rewrite Henc in Henc'. injection Henc' as Heq. rewrite Heq.
    intros E.
    assert (L : String.length (to_hex (fst (randomBytes 16 g)) ++ ":" ++ to_hex ct')
                = String.length P) by now rewrite E.
    rewrite !StoredFormat.append_length, !to_hex_length, Hlen in L.
    rewrite randomBytes_length in L. cbn [String.length] in L.
    pose proof (Nat.div_mod_eq (String.length P) 16) as Hdm.
    pose proof (Nat.mod_upper_bound (String.length P) 16 ltac:(lia)). lia.
Qed.


(** signup with an email that no user has. *)
Lemma signup_new_email (input : Input) (now : Z) (db : Db) (g : rng) :
  select_user_by_email (input_email input) db = None ->
  exists (row : User) (reply : Reply) (db' : Db) (g' : rng),
    signup input now db g = (Returned reply, db', g')
    /\ users db' = (users db ++ [row])%list
    /\ id row = new_id (users db)
    /\ email row = input_email input
    /\ details row = input_details input
    /\ password row = fst (bcrypt_hash (input_password input) g)
    /\ decryptSSN env (ssn row) = Ok (input_ssn input)
    /\ ssn row <> input_ssn input
    /\ reply_user reply = without_password row
    /\ sessions_of (id row) db'
       = [{| userId := id row; token := reply_token reply;
             expiresAt := seven_days_later now |}]
    /\ sessions_of_others (id row) db' = sessions_of_others (id row) db.
Proof.
  intros E. unfold signup. rewrite E.
  destruct (bcrypt_hash (input_password input) g) as [hashedPassword g1].
  cbn [fst].
  destruct (encryptSSN_at_rest (input_ssn input) g1)
    as [stored [Henc [Hdec [_ Hneq]]]].
  rewrite Henc.
  set (row := {| id := new_id (users db); email := input_email input;
                 password := hashedPassword; ssn := stored;
                 details := input_details input |}).
  assert (F : select_user_by_email (input_email input) (insert_user row db)
              = Some row).
  { unfold select_user_by_email, insert_user. cbn [users].
    apply find_new_row; [exact E|]. cbn [email row]. apply String.eqb_refl. }
  rewrite F.
  destruct (create_session_sessions row now (insert_user row db))
    as [U [_ [S1 S2]]].
  destruct (create_session row now (insert_user row db)) as [reply db'] eqn:C.
  exists row, reply, db', (snd (randomBytes 16 g1)).
  cbn [snd] in U, S1, S2.
  assert (R : reply = fst (create_session row now (insert_user row db)))
    by now rewrite C.
  repeat split; try assumption; try reflexivity.
  - now rewrite R.
  - rewrite S1, R. reflexivity.
Qed.

(** X16. signup has two outcomes only.  When a user with the email exists
    it throws CONFLICT and leaves the database and the entropy as they
    were.  Otherwise it returns: the error "Failed to create user" and the
    errors of the cipher are never raised.  It then has added one row, which
    holds the hashed password and, for the SSN, a string that is not the SSN
    and that decryptSSN turns back into the SSN; the user of the reply is
    this row without its password, so it carries the encrypted SSN; and the
    new user has exactly one session, with the token of the reply. *)
Theorem signup_outcomes (input : Input) (now : Z) (db : Db) (g : rng) :
  match select_user_by_email (input_email input) db with
  | Some _ => signup input now db g = (Thrown (CONFLICT "User already exists"), db, g)
  | None =>
      exists (row : User) (reply : Reply) (db' : Db) (g' : rng),
        signup input now db g = (Returned reply, db', g')
        /\ users db' = (users db ++ [row])%list
        /\ id row = new_id (users db)
        /\ email row = input_email input
        /\ details row = input_details input
        /\ password row = fst (bcrypt_hash (input_password input) g)
        /\ decryptSSN env (ssn row) = Ok (input_ssn input)
        /\ ssn row <> input_ssn input
        /\ reply_user reply = without_password row
        /\ sessions_of (id row) db'
           = [{| userId := id row; token := reply_token reply;
                 expiresAt := seven_days_later now |}]
        /\ sessions_of_others (id row) db' = sessions_of_others (id row) db
  end.
Proof.
  destruct (select_user_by_email (input_email input) db) eqn:E.
  - unfold signup. now rewrite E.
  - now apply signup_new_email.
Qed.

(** X17. A login that returns leaves the table of users as it was, leaves
    the user exactly one session, the one whose token is in the reply, and
    leaves the sessions of the other users as they were. *)
Theorem login_leaves_one_session
  (input_email input_password : string) (now : Z) (db db' : Db) (reply : Reply) :
  login input_email input_password now db = (Returned reply, db') ->
  users db' = users db
  /\ sessions_of (id (reply_user reply)) db'
     = [{| userId := id (reply_user reply); token := reply_token reply;
           expiresAt := seven_days_later now |}]
  /\ sessions_of_others (id (reply_user reply)) db'
     = sessions_of_others (id (reply_user reply)) db.
Proof.
  unfold login.
  destruct (select_user_by_email input_email db) as [user|]; [|discriminate].
  destruct (bcrypt_compare input_password (password user)); cbn [negb];
    [|discriminate].
  destruct (create_session_sessions user now db) as [U [_ [S1 S2]]].
  destruct (create_session user now db) as [r d] eqn:C.
  intros H. injection H as <- <-. cbn [snd] in U, S1, S2.
  assert (R : r = fst (create_session user now db)) by now rewrite C.
  rewrite R. cbn [create_session fst reply_user reply_token without_password id].
  now repeat split.
Qed.

(** X18. A login that does not return throws UNAUTHORIZED with the message
    "Invalid credentials", whether the email is unknown or the password is
    wrong, and changes nothing in the database. *)
Theorem failed_login_says_one_thing
  (input_email input_password : string) (now : Z) (db : Db) :
  (forall reply, fst (login input_email input_password now db) <> Returned reply) ->
  login input_email input_password now db
  = (Thrown (UNAUTHORIZED "Invalid credentials"), db).
Proof.
  unfold login.
  destruct (select_user_by_email input_email db) as [user|]; [|reflexivity].
  destruct (bcrypt_compare input_password (password user)); cbn [negb];
    [|reflexivity].
  destruct (create_session user now db) as [r d]. intros H.
  now elim (H r).
Qed.

Lemma find_none_app {A : Type} (p : A -> bool) (l : list A) (x : A) :
  find p l = None -> p x = false -> find p (l ++ [x])%list = None.
Proof.
  induction l as [|y l IH]; cbn [find app]; intros H Hx.
  - now rewrite Hx.
  - destruct (p y); [discriminate|]. now apply IH.
Qed.

(** X19. signup receives the email in lower case (the input schema ends
    with toLowerCase) and stores it so, while login looks the email up as it
    was typed: after a signup with an email that has an upper-case letter,
    and that no user had in either spelling, a login with the email as typed
    throws UNAUTHORIZED whatever the password. *)
Theorem login_looks_the_email_up_as_typed
  (typed : string) (input : Input) (now : Z) (db : Db) (g : rng) :
  input_email input = SignupForm.toLowerCase typed ->
  SignupForm.toLowerCase typed <> typed ->
  select_user_by_email typed db = None ->
  select_user_by_email (SignupForm.toLowerCase typed) db = None ->
  exists (reply : Reply) (db' : Db) (g' : rng),
    signup input now db g = (Returned reply, db', g')
    /\ forall (input_password : string) (now' : Z),
         login typed input_password now' db'
         = (Thrown (UNAUTHORIZED "Invalid credentials"), db').
Proof.
  intros E N H1 H2. rewrite <- E in H2.
  destruct (signup_new_email input now db g H2)
    as [row [reply [db' [g' [S [U [_ [M _]]]]]]]].
  exists reply, db', g'. split; [exact S|].
  intros input_password now'. unfold login.
  assert (F : select_user_by_email typed db' = None).
  { unfold select_user_by_email in *. rewrite U.
    apply find_none_app; [exact H1|].
    apply String.eqb_neq. rewrite M, E. exact N. }
  now rewrite F.
Qed.

(** *** At most one session for each user *)

Definition one_session_each (db : Db) : Prop :=
  NoDup (map userId (sessions db)).

(** Deleting sessions keeps the user ids distinct. *)
Lemma delete_keeps_one_each (keep : Session -> bool) (ss : list Session) :
  NoDup (map userId ss) -> NoDup (map userId (filter keep ss)).
Proof.
  induction ss as [|x l IH]; [trivial|].
  cbn [map filter]. intros H. inversion H as [|? ? Hx Hl]; subst.
  destruct (keep x); [|now apply IH].
  cbn [map]. constructor; [|now apply IH].
  intros Hin. apply Hx. apply in_map_iff in Hin.
  destruct Hin as [y [Hy Hin]]. apply filter_In in Hin.
  apply in_map_iff. exists y. tauto.
Qed.

Lemma create_session_one_each (user : User) (now : Z) (db : Db) :
  one_session_each db -> one_session_each (snd (create_session user now db)).
Proof.
  unfold one_session_each. intros H.
  destruct (create_session_sessions user now db) as [_ [-> _]].
  unfold sessions_of_others. rewrite map_app. cbn [map userId].
  apply NoDup_app.
  - now apply delete_keeps_one_each.
  - constructor; [intros []|constructor].
  - intros i Hin [<-|[]]. apply in_map_iff in Hin.
    destruct Hin as [s [Hs Hin]]. apply filter_In in Hin.
    destruct Hin as [_ Hin]. rewrite Hs, Z.eqb_refl in Hin. discriminate.
Qed.

(** X20. If no user has two sessions, then none has after a signup, a
    login or a logout, whatever their outcome. *)
Theorem mutations_keep_one_session_each
  (input : Input) (input_email input_password : string) (now : Z)
  (ctx_user : option User) (cookieHeader : string) (db : Db) (g : rng) :
  one_session_each db ->
  one_session_each (snd (fst (signup input now db g)))
  /\ one_session_each (snd (login input_email input_password now db))
  /\ one_session_each (snd (logout ctx_user cookieHeader db)).
Proof.
  intros H. refine (conj _ (conj _ _)).
  - unfold signup.
    destruct (select_user_by_email _ db); [exact H|].
    destruct (bcrypt_hash _ g) as [hashedPassword g1].
    destruct (encryptSSN env (Auth.input_ssn input) g1) as [[encrypted|e] g2];
      [|exact H].
    destruct (select_user_by_email _ _) as [user|]; [|exact H].
    pose proof (create_session_one_each user now
                  (insert_user
                     {| id := new_id (users db); email := Auth.input_email input;
                        password := hashedPassword; ssn := encrypted;
                        details := input_details input |} db) H) as K.
    now destruct (create_session user now _).
  - unfold login.
    destruct (select_user_by_email _ db) as [user|]; [|exact H].
    destruct (bcrypt_compare _ _); cbn [negb]; [|exact H].
    pose proof (create_session_one_each user now db H) as K.
    now destruct (create_session user now db).
  - unfold logout. cbn [snd].
    destruct ctx_user; [|exact H].
    destruct (session_token cookieHeader); [|exact H].
    unfold one_session_each, delete_session_with_token. cbn [sessions].
    now apply delete_keeps_one_each.
Qed.


(** *** Reading the cookie header *)

Lemma split2_step (c1 c2 d : ascii) (s : string) :
  split2 c1 c2 (String d s)
  = match s with
    | String e s'' =>
        if Ascii.eqb d c1 && Ascii.eqb e c2
        then EmptyString :: split2 c1 c2 s''
        else match split2 c1 c2 s with
             | p :: ps => String d p :: ps
             | [] => [String d EmptyString]
             end
    | EmptyString =>
        match split2 c1 c2 s with
        | p :: ps => String d p :: ps
        | [] => [String d EmptyString]
        end
    end.
Proof. now destruct s. Qed.

Lemma split2_nonempty (c1 c2 : ascii) (s : string) : split2 c1 c2 s <> [].
Proof.
  destruct s as [|d s]; [discriminate|]. rewrite split2_step.
  assert (K : match split2 c1 c2 s with
              | p :: ps => String d p :: ps
              | [] => [String d EmptyString]
              end <> []) by (destruct (split2 c1 c2 s); discriminate).
  destruct s as [|e s'']; [exact K|].
  destruct (Ascii.eqb d c1 && Ascii.eqb e c2); [discriminate|exact K].
Qed.

Lemma split2_cons (c1 c2 d : ascii) (s : string) :
  match s with
  | String e _ => Ascii.eqb d c1 && Ascii.eqb e c2 = false
  | EmptyString => True
  end ->
  exists p ps, split2 c1 c2 s = p :: ps
               /\ split2 c1 c2 (String d s) = String d p :: ps.
Proof.
  intros H. pose proof (split2_nonempty c1 c2 s) as N.
  destruct (split2 c1 c2 s) as [|p ps] eqn:E; [now elim N|].
  exists p, ps. split; [reflexivity|].
  rewrite split2_step. destruct s as [|e s'']; [now rewrite E|].
  now rewrite H, E.
Qed.

Lemma split2_none (c1 c2 : ascii) (s : string) :
  occurs2 c1 c2 s = false -> split2 c1 c2 s = [s].
Proof.
  induction s as [|d s IH]; [reflexivity|].
  intros H.
  assert (G : match s with
              | String e _ => Ascii.eqb d c1 && Ascii.eqb e c2 = false
              | EmptyString => True
              end /\ occurs2 c1 c2 s = false).
  { destruct s as [|e s'']; [now split|].
    cbn [occurs2] in H. apply orb_false_elim in H. exact H. }
  destruct G as [G1 G2].
  destruct (split2_cons c1 c2 d s G1) as [p [ps [E ->]]].
  rewrite (IH G2) in E. now injection E as <- <-.
Qed.

Lemma split2_at_sep (c1 c2 : ascii) (p q : string) :
  c1 <> c2 -> occurs2 c1 c2 p = false ->
  split2 c1 c2 (p ++ String c1 (String c2 q)) = p :: split2 c1 c2 q.
Proof.
  intros N. induction p as [|d p IH]; intros H.
  - cbn [append split2]. now rewrite !Ascii.eqb_refl.
  - cbn [append].
    assert (G : match p ++ String c1 (String c2 q) with
                | String e _ => Ascii.eqb d c1 && Ascii.eqb e c2 = false
                | EmptyString => True
                end /\ occurs2 c1 c2 p = false).
    { destruct p as [|e p'].
      - cbn [append]. split; [|reflexivity].
        apply andb_false_intro2. now apply Ascii.eqb_neq.
      - cbn [append]. cbn [occurs2] in H. apply orb_false_elim in H. exact H. }
    destruct G as [G1 G2].
    destruct (split2_cons c1 c2 d _ G1) as [x [xs [E ->]]].
    rewrite (IH G2) in E. now injection E as <- <-.
Qed.

Lemma join_split (c : ascii) (s : string) :
  join (String c EmptyString) (split c s) = s.
Proof.
  induction s as [|d s IH]; [reflexivity|].
  cbn [split]. pose proof (StoredFormat.split_nonempty c s) as K.
  revert IH. destruct (split c s) as [|p ps]; [now elim K|]. intros IH.
  destruct (Ascii.eqb d c) eqn:E.
  - apply Ascii.eqb_eq in E. subst d.
    change (join (String c "") ("" :: p :: ps))
      with (String c (join (String c "") (p :: ps))).
    now rewrite IH.
  - rewrite <- IH. now destruct ps.
Qed.

Lemma entry_of_pair (cookie : string * string) :
  includes "=" (fst cookie) = false ->
  match split "=" (cookie_pair cookie) with
  | key :: val => (key, join "=" val)
  | [] => (EmptyString, EmptyString)
  end = cookie.
Proof.
  intros H. destruct cookie as [k v]. unfold cookie_pair. cbn [fst snd] in *.
  change (k ++ "=" ++ v) with (k ++ String "=" v).
  rewrite (split_at_sep "=" k v H). now rewrite join_split.
Qed.

Lemma cookie_pair_not_empty (cookie : string * string) :
  String.eqb (cookie_pair cookie) "" = false.
Proof. destruct cookie as [[|c k] v]; reflexivity. Qed.

(** Reading the header written for a list of plain cookies gives the list
    back. *)
Lemma cookie_entries_of_header (cookies : list (string * string)) :
  Forall plain_cookie cookies ->
  cookie_entries (cookie_header cookies) = cookies.
Proof.
  unfold cookie_entries, cookie_header.
  induction cookies as [|c cookies IH]; [reflexivity|].
  intros H. inversion H as [|? ? [Hc1 Hc2] Hrest]; subst.
  destruct cookies as [|c' cookies].
  - cbn [map join]. rewrite (split2_none _ _ _ Hc2). cbn [filter].
    rewrite cookie_pair_not_empty. cbn [negb map].
    now rewrite (entry_of_pair c Hc1).
  - change (join "; " (map cookie_pair (c :: c' :: cookies)))
      with (cookie_pair c
            ++ String ";" (String " " (join "; " (map cookie_pair (c' :: cookies))))).
    rewrite split2_at_sep by (discriminate || exact Hc2).
    cbn [filter]. rewrite cookie_pair_not_empty. cbn [negb map].
    rewrite (entry_of_pair c Hc1). f_equal. now apply IH.
Qed.

Lemma filter_swap {A : Type} (p q : A -> bool) (l : list A) :
  filter p (filter q l) = filter q (filter p l).
Proof.
  induction l as [|x l IH]; [reflexivity|].
  cbn [filter]. destruct (q x) eqn:Q, (p x) eqn:P; cbn [filter];
    rewrite ?Q, ?P, IH; reflexivity.
Qed.

(** X21. Logging in and then logging out with the cookie of the reply ends
    the session: when the request carries a list of plain cookies of which
    the one named session holds the token of the login, the user has no
    session left after logout. *)
Theorem logout_after_login_ends_the_session
  (input_email input_password : string) (now : Z) (db db' : Db) (reply : Reply)
  (ctx_user : User) (cookies : list (string * string)) :
  login input_email input_password now db = (Returned reply, db') ->
  Forall plain_cookie cookies ->
  property "session" cookies = Some (reply_token reply) ->
  reply_token reply <> "" ->
  sessions_of (id (reply_user reply))
              (snd (logout (Some ctx_user) (cookie_header cookies) db'))
  = [].
Proof.
  intros L P S N.
  assert (T : session_token (cookie_header cookies) = Some (reply_token reply)).
  { unfold session_token. rewrite (cookie_entries_of_header cookies P), S.
    destruct (reply_token reply); [now elim N|reflexivity]. }
  unfold logout. rewrite T. cbn [snd].
  unfold login in L.
  destruct (select_user_by_email input_email db) as [user|]; [|discriminate].
  destruct (bcrypt_compare input_password (password user)); cbn [negb] in L;
    [|discriminate].
  destruct (create_session_sessions user now db) as [_ [_ [S1 _]]].
  destruct (create_session user now db) as [r d] eqn:C.
  injection L as <- <-. cbn [snd] in S1.
  assert (R : r = fst (create_session user now db)) by now rewrite C.
  unfold sessions_of, delete_session_with_token in *. cbn [sessions].
  rewrite R. cbn [create_session fst reply_user reply_token without_password id].
  rewrite filter_swap, S1. cbn [filter token].
  now rewrite String.eqb_refl.
Qed.

(** X22. The header a client writes for a list of plain cookies is read
    back by logout as that list, and the token it takes is the value of the
    last cookie named session, unless that value is empty. *)
Theorem cookie_header_is_read_back (cookies : list (string * string)) :
  Forall plain_cookie cookies ->
  cookie_entries (cookie_header cookies) = cookies
  /\ session_token (cookie_header cookies)
     = match property "session" cookies with
       | Some (String c t) => Some (String c t)
       | _ => None
       end.
Proof.
  intros H. unfold session_token.
  now rewrite (cookie_entries_of_header cookies H).
Qed.

End Mutations.

(** *** A small world to run the mutations in *)

Definition sample_details : Details :=
  {| firstName := "Ada"; lastName := "Lovelace"; phoneNumber := "2025551234";
     dateOfBirth := "1990-01-01"; address := "1 Main St"; city := "Springfield";
     state := "IL"; zipCode := "62701" |}.

Definition sample_user : User :=
  {| id := 1; email := "ada@example.com"; password := "hash-of-secret";
     ssn := sample_stored; details := sample_details |}.

Definition sample_db : Db :=
  {| users := [sample_user];
     sessions := [{| userId := 1; token := "old-token";
                     expiresAt := "2025-11-01T00:00:00.000Z" |}] |}.

Definition sample_input : Input :=
  {| input_email := "eve@example.com"; input_password := "Secret#1";
     input_ssn := "123456789"; input_details := sample_details |}.

Definition sample_compare (password hash : string) : bool :=
  String.eqb hash ("hash-of-" ++ password).

Definition sample_sign (userId now : Z) : string := "new-token".

Definition sample_later (now : Z) : string := "2025-11-10T00:00:00.000Z".

Lemma login_leaves_one_session_witness :
  sessions_of 1
    (snd (login sample_compare sample_sign sample_later
                "ada@example.com" "secret" 0 sample_db))
  = [{| userId := 1; token := "new-token";
        expiresAt := "2025-11-10T00:00:00.000Z" |}].
Proof.
  exact (proj1 (proj2 (login_leaves_one_session
                         sample_compare sample_sign sample_later
                         "ada@example.com" "secret" 0 sample_db _ _ eq_refl))).
Defined.

Lemma failed_login_says_one_thing_witness :
  login sample_compare sample_sign sample_later
        "ada@example.com" "guess" 0 sample_db
  = (Thrown (UNAUTHORIZED "Invalid credentials"), sample_db)
  /\ login sample_compare sample_sign sample_later
           "eve@example.com" "secret" 0 sample_db
     = (Thrown (UNAUTHORIZED "Invalid credentials"), sample_db).
Proof.
  split.
  - apply (failed_login_says_one_thing sample_compare sample_sign sample_later
             "ada@example.com" "guess" 0 sample_db).
    intros reply H. discriminate H.
  - apply (failed_login_says_one_thing sample_compare sample_sign sample_later
             "eve@example.com" "secret" 0 sample_db).
    intros reply H. discriminate H.
Defined.

Lemma sample_db_one_session_each : one_session_each sample_db.
Proof. repeat constructor. intros []. Defined.

Lemma mutations_keep_one_session_each_witness :
  one_session_each sample_db
  /\ one_session_each
       (snd (login sample_compare sample_sign sample_later
                   "ada@example.com" "secret" 0 sample_db)).
Proof.
  split; [exact sample_db_one_session_each|].
  exact (proj1 (proj2 (mutations_keep_one_session_each
                         None (fun p g => ("hash-of-" ++ p, g)) sample_compare
                         sample_sign sample_later (fun _ => 2%Z)
                         sample_input
                         "ada@example.com" "secret" 0 None "" sample_db
                         counting_stream sample_db_one_session_each))).
Defined.

Definition sample_cookies : list (string * string) :=
  [("theme", "dark"); ("session", "new-token")].

Lemma sample_cookies_plain : Forall plain_cookie sample_cookies.
Proof. repeat constructor. Defined.

Lemma logout_after_login_ends_the_session_witness :
  cookie_header sample_cookies = "theme=dark; session=new-token"
  /\ sessions_of 1
       (snd (logout (Some sample_user) "theme=dark; session=new-token"
               (snd (login sample_compare sample_sign sample_later
                           "ada@example.com" "secret" 0 sample_db))))
     = [].
Proof.
  split; [reflexivity|].
  assert (N : "new-token" <> "") by discriminate.
  exact (logout_after_login_ends_the_session
           sample_compare sample_sign sample_later
           "ada@example.com" "secret" 0 sample_db _ _ sample_user
           sample_cookies eq_refl sample_cookies_plain eq_refl N).
Defined.

Lemma cookie_header_is_read_back_witness :
  cookie_entries "theme=dark; session=new-token" = sample_cookies
  /\ session_token "theme=dark; session=new-token" = Some "new-token".
Proof.
  exact (cookie_header_is_read_back sample_cookies sample_cookies_plain).
Defined.



Lemma login_looks_the_email_up_as_typed_witness :
  SignupForm.toLowerCase "Eve@Example.com" = "eve@example.com"
  /\ exists (reply : Reply) (db' : Db) (g' : rng),
       signup None (fun p g => ("hash-of-" ++ p, g)) sample_sign sample_later
              (fun _ => 2%Z) sample_input 0 sample_db counting_stream
       = (Returned reply, db', g')
       /\ forall (input_password : string) (now' : Z),
            login sample_compare sample_sign sample_later
                  "Eve@Example.com" input_password now' db'
            = (Thrown (UNAUTHORIZED "Invalid credentials"), db').
Proof.
  split; [reflexivity|].
  assert (N : SignupForm.toLowerCase "Eve@Example.com" <> "Eve@Example.com")
    by discriminate.
  exact (login_looks_the_email_up_as_typed
           None (fun p g => ("hash-of-" ++ p, g)) sample_compare sample_sign
           sample_later (fun _ => 2%Z) "Eve@Example.com" sample_input 0
           sample_db counting_stream eq_refl N eq_refl eq_refl).
Defined.

End Auth.
